(** * Proworldz desktop: the execution-session subsystem of [main.js]

    A shallow embedding of the batch runner ([runCodeWithInput],
    [execWithInput], the per-language runners, [cleanupTempFiles]) and of
    the interactive sessions ([startRunSession], [registerRunSession],
    [stopRunSession], the [send-input] and [stop-run] handlers).

    The main process is a single-threaded event loop: every callback runs
    to completion.  The embedding therefore passes one explicit [World]
    through the callbacks; closures are defunctionalised into timer
    actions and continuations, and the environment (the clock, the
    children, the compilers) drives the program through [Event]s. *)

From Stdlib Require Import NArith ZArith String Ascii List.
From stdpp Require Import base option strings gmap list pretty.

Local Open Scope string_scope.
Local Open Scope N_scope.

(** ** JavaScript strings *)

Module Js.

(** [s.includes(t)] *)
Fixpoint includes (s t : string) : bool :=
  String.prefix t s ||
  match s with
  | EmptyString => false
  | String _ s' => includes s' t
  end.

(** White space of [String.prototype.trim] and of the regular
    expression class [\s], on 8-bit code units. *)
Definition is_space (c : ascii) : bool :=
  let n := N_of_ascii c in
  ((9 <=? n) && (n <=? 13)) || (n =? 32) || (n =? 160).

(** The regular expression class [\w]. *)
Definition is_word (c : ascii) : bool :=
  let n := N_of_ascii c in
  ((48 <=? n) && (n <=? 57)) || ((65 <=? n) && (n <=? 90))
  || ((97 <=? n) && (n <=? 122)) || (n =? 95).

Fixpoint drop_while (f : ascii -> bool) (s : string) : string :=
  match s with
  | EmptyString => EmptyString
  | String c s' => if f c then drop_while f s' else s
  end.

Fixpoint take_while (f : ascii -> bool) (s : string) : string :=
  match s with
  | EmptyString => EmptyString
  | String c s' => if f c then String c (take_while f s') else EmptyString
  end.

(** [s.trim()] *)
Definition trim (s : string) : string :=
  String.rev (drop_while is_space (String.rev (drop_while is_space s))).

(** [s.slice(i, j)] for [0 <= i <= j] *)
Definition slice (i j : nat) (s : string) : string :=
  substring i (j - i) s.

(** [a || b] on strings: the empty string is falsy. *)
Definition or (a b : string) : string :=
  if decide (a = "") then b else a.

(** Removes the literal [p] from the front of [s]. *)
Fixpoint strip (p s : string) : option string :=
  match p, s with
  | EmptyString, _ => Some s
  | String a p', String b s' => if decide (a = b) then strip p' s' else None
  | String _ _, EmptyString => None
  end.

(** One or more characters of a class, greedily: the rest of the input
    and what was consumed. *)
Definition plus (f : ascii -> bool) (s : string) : option (string * string) :=
  match take_while f s with
  | EmptyString => None
  | m => Some (m, drop_while f s)
  end.

(** [/public\s+class\s+(\w+)/] anchored at the head of [s]: the capture
    group.  After [\s+] the next pattern character is not white space
    (and after [\w+] nothing follows), so the greedy reading is the
    only one that can succeed. *)
Definition public_class_here (s : string) : option string :=
  s1 ← strip "public" s;
  '(_, s2) ← plus is_space s1;
  s3 ← strip "class" s2;
  '(_, s4) ← plus is_space s3;
  '(name, _) ← plus is_word s4;
  Some name.

(** [code.match(/public\s+class\s+(\w+)/)]: the leftmost match, [m[1]]. *)
Fixpoint match_public_class (code : string) : option string :=
  match public_class_here code with
  | Some name => Some name
  | None =>
      match code with
      | EmptyString => None
      | String _ code' => match_public_class code'
      end
  end.

(** [list.join(sep)] *)
Fixpoint join (sep : string) (l : list string) : string :=
  match l with
  | [] => ""
  | [x] => x
  | x :: l' => x ++ sep ++ join sep l'
  end.

End Js.

(** ** Paths *)

Definition is_sep (win32 : bool) (c : ascii) : bool :=
  (N_of_ascii c =? 47) || (win32 && (N_of_ascii c =? 92)).

Fixpoint has_sep (win32 : bool) (s : string) : bool :=
  match s with
  | EmptyString => false
  | String c s' => is_sep win32 c || has_sep win32 s'
  end.

Definition dir_prefix (win32 : bool) (dir : string) : string :=
  dir ++ (if win32 then "\" else "/").

(** [path.join(dir, name)] for a directory and a plain file name. *)
Definition path_join (win32 : bool) (dir name : string) : string :=
  dir_prefix win32 dir ++ name.

(** [path.basename(p)] for a path that does not end in a separator, as
    the base paths of the program: what follows the last separator. *)
Fixpoint basename (win32 : bool) (p : string) : string :=
  match p with
  | EmptyString => EmptyString
  | String c p' =>
      if has_sep win32 p' then basename win32 p'
      else if is_sep win32 c then p' else p
  end.

(** The name under which the path [p] is listed in the directory [dir],
    if it is an entry of it. *)
Definition entry_name (win32 : bool) (dir p : string) : option string :=
  match Js.strip (dir_prefix win32 dir) p with
  | Some name =>
      if has_sep win32 name || bool_decide (name = "") then None else Some name
  | None => None
  end.

(** ** The world of the main process *)

Inductive Signal := SIGTERM | SIGKILL.

(** A [ChildProcess] handle together with what the operating system knows
    of the child: [c_killed] is [child.killed], [c_writable] is
    [child.stdin.writable], [c_stdin] the chunks written to its input so
    far, [c_signals] the signals delivered to it. *)
Record Child := {
  c_cmd : string;
  c_args : list string;
  c_killed : bool;
  c_exited : bool;
  c_closed : bool;
  c_writable : bool;
  c_stdin : list string;
  c_signals : list Signal
}.

(** The callbacks handed to [setTimeout], one constructor per closure of
    the source. *)
Inductive TimerAction :=
  | TaWriteInput (p : nat) (line : string)
      (* execWithInput: () => !killed && child.stdin.write(i + '\n') *)
  | TaEndInput (p : nat)
      (* execWithInput: () => child.stdin.end() *)
  | TaBatchTimeout (p : nat)
      (* execWithInput: killed = true; SIGTERM; SIGKILL after 1000 *)
  | TaForceKill (p : nat)
      (* () => child.kill('SIGKILL') *)
  | TaIdleStop (sessionId : string).
      (* registerRunSession: () => stopRunSession(sessionId, true) *)

Record Timer := { t_id : nat; t_due : N; t_act : TimerAction }.

Record RunResult := { success : bool; output : string }.

Inductive StartResult :=
  | StartError (error : string)
  | StartSession (sessionId : string).

Inductive SendResult :=
  | SendError (error : string)
  | SendOk.

(** What the renderer's [invoke] promise settles to. *)
Inductive Reply :=
  | RepRun (r : RunResult)
  | RepStart (r : StartResult)
  | RepSend (r : SendResult)
  | RepStop (ok : bool)
  | RepRejected (e : string).

(** The continuation of the promise of [execWithInput]: every caller
    chains it into the [await] of [runCodeWithInput], whose [finally]
    sweeps [base] before the invocation [req] is answered. *)
Inductive Cont := KBatch (req : nat) (base : string).

(** The local variables of one [execWithInput] call. *)
Record Exec := {
  x_out : string;
  x_err : string;
  x_killed : bool;
  x_timer : nat;
  x_cont : Cont
}.

(** The callbacks of the outstanding [exec] commands. *)
Inductive ExecCont :=
  | KCompileAndRun (exe : string) (inputs : list string) (k : Cont)
  | KJavaRun (className : string) (inputs : list string) (k : Cont)
  | KSessCompiled (sessionId src out : string) (req : nat)
  | KSessJava (sessionId file className : string) (req : nat).

(** A session object of [registerRunSession].  [s_id] is the [sessionId]
    its closures captured; its [proc] is the child it is stored under. *)
Record Session := {
  s_id : string;
  s_cleanup : option (list string);
  s_timer : option nat
}.

Inductive IpcEvent :=
  | RunOutput (sessionId : string) (type : string) (data : string)
  | RunExit (sessionId : string) (code : option Z) (signal : option Signal).

Record World := {
  (* the environment *)
  win32 : bool;                       (* process.platform === 'win32' *)
  os_tmpdir : string;                 (* os.tmpdir() *)
  installed : list string;            (* commands execSync can run *)
  window : bool;                      (* mainWindow && mainWindow.webContents *)
  scratch : option (gmap string string);
                                      (* the files, by path; None: tempDir is gone *)
  now : N;                            (* the clock, in milliseconds *)
  (* the event loop *)
  timers : list Timer;
  next_timer : nat;
  procs : gmap nat Child;
  next_pid : nat;
  pending : gmap nat (string * ExecCont);
  next_exec : nat;
  (* the program *)
  execs : gmap nat Exec;
  sessions : gmap nat Session;
  runSessions : gmap string nat;      (* const runSessions = new Map() *)
  outbox : list IpcEvent;             (* mainWindow.webContents.send *)
  replies : list (nat * Reply)
}.

Definition set_scratch (v : option (gmap string string)) (w : World) : World :=
  {| win32 := win32 w; os_tmpdir := os_tmpdir w; installed := installed w;
     window := window w; scratch := v; now := now w; timers := timers w;
     next_timer := next_timer w; procs := procs w; next_pid := next_pid w;
     pending := pending w; next_exec := next_exec w; execs := execs w;
     sessions := sessions w; runSessions := runSessions w;
     outbox := outbox w; replies := replies w |}.

Definition set_now (v : N) (w : World) : World :=
  {| win32 := win32 w; os_tmpdir := os_tmpdir w; installed := installed w;
     window := window w; scratch := scratch w; now := v; timers := timers w;
     next_timer := next_timer w; procs := procs w; next_pid := next_pid w;
     pending := pending w; next_exec := next_exec w; execs := execs w;
     sessions := sessions w; runSessions := runSessions w;
     outbox := outbox w; replies := replies w |}.

Definition set_timers (v : list Timer) (n : nat) (w : World) : World :=
  {| win32 := win32 w; os_tmpdir := os_tmpdir w; installed := installed w;
     window := window w; scratch := scratch w; now := now w; timers := v;
     next_timer := n; procs := procs w; next_pid := next_pid w;
     pending := pending w; next_exec := next_exec w; execs := execs w;
     sessions := sessions w; runSessions := runSessions w;
     outbox := outbox w; replies := replies w |}.

Definition set_procs (v : gmap nat Child) (n : nat) (w : World) : World :=
  {| win32 := win32 w; os_tmpdir := os_tmpdir w; installed := installed w;
     window := window w; scratch := scratch w; now := now w; timers := timers w;
     next_timer := next_timer w; procs := v; next_pid := n;
     pending := pending w; next_exec := next_exec w; execs := execs w;
     sessions := sessions w; runSessions := runSessions w;
     outbox := outbox w; replies := replies w |}.

Definition set_pending (v : gmap nat (string * ExecCont)) (n : nat) (w : World) : World :=
  {| win32 := win32 w; os_tmpdir := os_tmpdir w; installed := installed w;
     window := window w; scratch := scratch w; now := now w; timers := timers w;
     next_timer := next_timer w; procs := procs w; next_pid := next_pid w;
     pending := v; next_exec := n; execs := execs w;
     sessions := sessions w; runSessions := runSessions w;
     outbox := outbox w; replies := replies w |}.

Definition set_execs (v : gmap nat Exec) (w : World) : World :=
  {| win32 := win32 w; os_tmpdir := os_tmpdir w; installed := installed w;
     window := window w; scratch := scratch w; now := now w; timers := timers w;
     next_timer := next_timer w; procs := procs w; next_pid := next_pid w;
     pending := pending w; next_exec := next_exec w; execs := v;
     sessions := sessions w; runSessions := runSessions w;
     outbox := outbox w; replies := replies w |}.

Definition set_sessions (v : gmap nat Session) (w : World) : World :=
  {| win32 := win32 w; os_tmpdir := os_tmpdir w; installed := installed w;
     window := window w; scratch := scratch w; now := now w; timers := timers w;
     next_timer := next_timer w; procs := procs w; next_pid := next_pid w;
     pending := pending w; next_exec := next_exec w; execs := execs w;
     sessions := v; runSessions := runSessions w;
     outbox := outbox w; replies := replies w |}.

Definition set_runSessions (v : gmap string nat) (w : World) : World :=
  {| win32 := win32 w; os_tmpdir := os_tmpdir w; installed := installed w;
     window := window w; scratch := scratch w; now := now w; timers := timers w;
     next_timer := next_timer w; procs := procs w; next_pid := next_pid w;
     pending := pending w; next_exec := next_exec w; execs := execs w;
     sessions := sessions w; runSessions := v;
     outbox := outbox w; replies := replies w |}.

Definition set_outbox (v : list IpcEvent) (w : World) : World :=
  {| win32 := win32 w; os_tmpdir := os_tmpdir w; installed := installed w;
     window := window w; scratch := scratch w; now := now w; timers := timers w;
     next_timer := next_timer w; procs := procs w; next_pid := next_pid w;
     pending := pending w; next_exec := next_exec w; execs := execs w;
     sessions := sessions w; runSessions := runSessions w;
     outbox := v; replies := replies w |}.

Definition set_replies (v : list (nat * Reply)) (w : World) : World :=
  {| win32 := win32 w; os_tmpdir := os_tmpdir w; installed := installed w;
     window := window w; scratch := scratch w; now := now w; timers := timers w;
     next_timer := next_timer w; procs := procs w; next_pid := next_pid w;
     pending := pending w; next_exec := next_exec w; execs := execs w;
     sessions := sessions w; runSessions := runSessions w;
     outbox := outbox w; replies := v |}.

(** ** Synchronous code that may throw

    Effects performed before an exception stay performed, so the state is
    threaded through [Raise] as well. *)

Inductive Outcome (A : Type) :=
  | Ret (a : A)
  | Raise (e : string).
Arguments Ret {A} a.
Arguments Raise {A} e.

Definition M (A : Type) : Type := World -> Outcome A * World.

Definition ret {A} (a : A) : M A := fun w => (Ret a, w).

Definition raise {A} (e : string) : M A := fun w => (Raise e, w).

Definition bind {A B} (m : M A) (k : A -> M B) : M B := fun w =>
  match m w with
  | (Ret a, w') => k a w'
  | (Raise e, w') => (Raise e, w')
  end.

Notation "x <~ m ;; k" := (bind m (fun x => k))
  (at level 100, m at next level, k at level 200, right associativity).
Notation "m ;; k" := (bind m (fun _ => k))
  (at level 100, k at level 200, right associativity).

(** A total effect as a computation that never throws. *)
Definition lift (f : World -> World) : M unit := fun w => (Ret tt, f w).

(** [try { m } catch (error) { h(error) }] *)
Definition try_catch {A} (m : M A) (h : string -> M A) : M A := fun w =>
  match m w with
  | (Ret a, w') => (Ret a, w')
  | (Raise e, w') => h e w'
  end.

(** [l.forEach(f)] *)
Fixpoint forEach {A} (l : list A) (f : A -> M unit) : M unit :=
  match l with
  | [] => ret tt
  | x :: l' => f x ;; forEach l' f
  end.

(** ** The scratch directory

    The directory holds plain files with legal names, by path.  Of the
    failures of the file system the calls below know a missing file and a
    missing directory; sub-directories, names that are too long and
    permissions are outside the model. *)

(** [const tempDir = path.join(os.tmpdir(), 'proworldz-lab')] *)
Definition tempDir (w : World) : string :=
  path_join (win32 w) (os_tmpdir w) "proworldz-lab".

Definition enoent (call p : string) : string :=
  "ENOENT: no such file or directory, " ++ call ++ " '" ++ p ++ "'".

(** [fs.writeFileSync(p, data)], for a path [p] under [tempDir]. *)
Definition writeFileSync (p data : string) : M unit := fun w =>
  match scratch w with
  | None => (Raise (enoent "open" p), w)
  | Some d => (Ret tt, set_scratch (Some (<[p := data]> d)) w)
  end.

(** [fs.unlinkSync(p)] *)
Definition unlinkSync (p : string) : M unit := fun w =>
  match scratch w with
  | None => (Raise (enoent "unlink" p), w)
  | Some d =>
      match d !! p with
      | None => (Raise (enoent "unlink" p), w)
      | Some _ => (Ret tt, set_scratch (Some (delete p d)) w)
      end
  end.

(** [fs.readdirSync(tempDir)] *)
Definition readdirSync : M (list string) := fun w =>
  match scratch w with
  | None => (Raise (enoent "scandir" (tempDir w)), w)
  | Some d => (Ret (omap (entry_name (win32 w) (tempDir w)) (map_to_list d).*1), w)
  end.

(** [function safeUnlink(filePath) { try { fs.unlinkSync(filePath); } catch {} }] *)
Definition safeUnlink (filePath : string) : M unit :=
  try_catch (unlinkSync filePath) (fun _ => ret tt).

(** ** Timers *)

(** [setTimeout(act, delay)]: the handle of the new timer. *)
Definition setTimeout (act : TimerAction) (delay : N) (w : World) : nat * World :=
  (next_timer w,
   set_timers (timers w ++ [{| t_id := next_timer w; t_due := now w + delay; t_act := act |}])
              (S (next_timer w)) w).

(** [clearTimeout(h)]; [h] may be [null]. *)
Definition clearTimeout (h : option nat) (w : World) : World :=
  match h with
  | None => w
  | Some id =>
      set_timers (filter (fun t => t_id t ≠ id) (timers w)) (next_timer w) w
  end.

(** ** Children *)

(** [spawn(cmd, args, { stdio: ['pipe', 'pipe', 'pipe'], shell: true })] *)
Definition spawn (cmd : string) (args : list string) (w : World) : nat * World :=
  (next_pid w,
   set_procs (<[next_pid w := {| c_cmd := cmd; c_args := args; c_killed := false;
                                 c_exited := false; c_closed := false;
                                 c_writable := true; c_stdin := [];
                                 c_signals := [] |}]> (procs w))
             (S (next_pid w)) w).

Definition upd_child (p : nat) (f : Child -> Child) (w : World) : World :=
  set_procs (alter f p (procs w)) (next_pid w) w.

(** [child.kill(sig)]: a child that has exited gets no signal and keeps its
    [killed] flag; otherwise the signal is delivered and the flag set. *)
Definition kill (p : nat) (sig : Signal) (w : World) : World :=
  upd_child p (fun c =>
    if c_exited c then c
    else {| c_cmd := c_cmd c; c_args := c_args c; c_killed := true;
            c_exited := c_exited c; c_closed := c_closed c;
            c_writable := c_writable c; c_stdin := c_stdin c;
            c_signals := c_signals c ++ [sig] |}) w.

(** [child.stdin.write(chunk)]: only a writable stream takes the chunk. *)
Definition stdin_write (p : nat) (chunk : string) (w : World) : World :=
  upd_child p (fun c =>
    if c_writable c
    then {| c_cmd := c_cmd c; c_args := c_args c; c_killed := c_killed c;
            c_exited := c_exited c; c_closed := c_closed c;
            c_writable := true; c_stdin := c_stdin c ++ [chunk];
            c_signals := c_signals c |}
    else c) w.

(** [child.stdin.end()] and the destruction of the pipe at exit. *)
Definition stdin_end (p : nat) (w : World) : World :=
  upd_child p (fun c =>
    {| c_cmd := c_cmd c; c_args := c_args c; c_killed := c_killed c;
       c_exited := c_exited c; c_closed := c_closed c;
       c_writable := false; c_stdin := c_stdin c;
       c_signals := c_signals c |}) w.

(** [exec(command, callback)]: the command runs outside; its callback is
    kept until the environment reports the outcome. *)
Definition exec (command : string) (k : ExecCont) (w : World) : World :=
  set_pending (<[next_exec w := (command, k)]> (pending w)) (S (next_exec w)) w.

Definition respond (req : nat) (r : Reply) (w : World) : World :=
  set_replies (replies w ++ [(req, r)]) w.

(** ** Batch runs *)

Definition LF : string := String "010"%char "".
Definition DQ : string := String "034"%char "".
Definition quoted (s : string) : string := DQ ++ s ++ DQ.

Definition getSupportedLanguages : list string :=
  ["c"; "cpp"; "python"; "java"; "javascript"; "php"; "go"].

Definition not_supported (language : string) : string :=
  "Language " ++ quoted language ++ " is not supported. Supported languages: "
  ++ Js.join ", " getSupportedLanguages.

Definition getPythonCommand (w : World) : string :=
  if win32 w then
    match List.find (fun cmd => bool_decide (cmd ∈ installed w)) ["python"; "python3"; "py"] with
    | Some cmd => cmd
    | None => "python"
    end
  else "python3".

(** [inputs.forEach((i, x) => setTimeout(() => !killed && child.stdin.write(i + '\n'), x * 100))],
    from index [x] on. *)
Fixpoint schedule_inputs (child : nat) (inputs : list string) (x : N) (w : World) : World :=
  match inputs with
  | [] => w
  | i :: rest =>
      schedule_inputs child rest (x + 1)
        (setTimeout (TaWriteInput child (i ++ LF)) (x * 100) w).2
  end.

(** [execWithInput(cmd, args, inputs)], up to the registration of its
    callbacks; [k] is what the returned promise is chained into. *)
Definition execWithInput (cmd : string) (args inputs : list string) (k : Cont)
    (w : World) : World :=
  let '(child, w) := spawn cmd args w in
  let w :=
    match inputs with
    | [] => stdin_end child w
    | _ => (setTimeout (TaEndInput child) (N.of_nat (length inputs) * 100 + 100)
              (schedule_inputs child inputs 0 w)).2
    end in
  let '(timer, w) := setTimeout (TaBatchTimeout child) 10000 w in
  set_execs (<[child := {| x_out := ""; x_err := ""; x_killed := false;
                           x_timer := timer; x_cont := k |}]> (execs w)) w.

(** [function cleanupTempFiles(b)] *)
Definition cleanupTempFiles (b : string) : M unit := fun w =>
  (names <~ readdirSync ;;
   forEach names (fun f =>
     if Js.includes f (basename (win32 w) b)
     then unlinkSync (path_join (win32 w) (tempDir w) f)
     else ret tt)) w.

(** [runCodeWithInput] from the end of its [try] block on: the [finally]
    block runs, then the promise of the invocation settles with the
    outcome [r] of the block, or with what the [finally] block threw. *)
Definition runCodeWithInput_settle (req : nat) (base : string)
    (r : Outcome RunResult) (w : World) : World :=
  match cleanupTempFiles base w with
  | (Raise e, w') => respond req (RepRejected e) w'
  | (Ret _, w') =>
      respond req (match r with Ret v => RepRun v | Raise e => RepRejected e end) w'
  end.

Definition resolve (k : Cont) (r : RunResult) (w : World) : World :=
  match k with
  | KBatch req base => runCodeWithInput_settle req base (Ret r) w
  end.

(** The close callback of [execWithInput]:
    [{ success: c === 0, output: (err || out).trim() || 'Execution failed' }] *)
Definition exec_result (c : option Z) (out err : string) : RunResult :=
  {| success := bool_decide (c = Some 0%Z);
     output := Js.or (Js.trim (Js.or err out)) "Execution failed" |}.

Definition runJavaScriptWithInput (c f : string) (i : list string) (k : Cont) : M unit :=
  writeFileSync (f ++ ".js") c ;;
  lift (execWithInput "node" [f ++ ".js"] i k).

Definition runPythonWithInput (c f : string) (i : list string) (k : Cont) : M unit :=
  writeFileSync (f ++ ".py") c ;;
  fun w => lift (execWithInput (getPythonCommand w) [f ++ ".py"] i k) w.

Definition runPHPWithInput (c f : string) (i : list string) (k : Cont) : M unit :=
  writeFileSync (f ++ ".php") c ;;
  lift (execWithInput "php" [f ++ ".php"] i k).

Definition runGoWithInput (c f : string) (i : list string) (k : Cont) : M unit :=
  writeFileSync (f ++ ".go") c ;;
  lift (execWithInput "go" ["run"; f ++ ".go"] i k).

(** [compileAndRun(src, exe, compile, inputs)] and the callback it gives
    to [exec]. *)
Definition compileAndRun (src exe compile : string) (inputs : list string) (k : Cont) : M unit :=
  lift (exec compile (KCompileAndRun exe inputs k)).

Definition compileAndRun_callback (exe : string) (inputs : list string) (k : Cont)
    (e : option string) (s : string) : World -> World :=
  match e with
  | Some message => resolve k {| success := false; output := Js.or s message |}
  | None => execWithInput exe [] inputs k
  end.

Definition runCWithInput (c f : string) (i : list string) (k : Cont) : M unit :=
  writeFileSync (f ++ ".c") c ;;
  compileAndRun (f ++ ".c") (f ++ ".exe")
    ("gcc " ++ quoted (f ++ ".c") ++ " -o " ++ quoted (f ++ ".exe")) i k.

Definition runCppWithInput (c f : string) (i : list string) (k : Cont) : M unit :=
  writeFileSync (f ++ ".cpp") c ;;
  compileAndRun (f ++ ".cpp") (f ++ ".exe")
    ("g++ " ++ quoted (f ++ ".cpp") ++ " -o " ++ quoted (f ++ ".exe")) i k.

(** [function runJavaWithInput(code, base, inputs)] and its [javac]
    callback. *)
Definition runJavaWithInput (code base : string) (inputs : list string) (k : Cont) : M unit :=
  try_catch
    (match Js.match_public_class code with
     | None => lift (resolve k {| success := false; output := "No public class found" |})
     | Some className => fun w =>
         let f := path_join (win32 w) (tempDir w) (className ++ ".java") in
         (writeFileSync f code ;;
          lift (exec ("javac " ++ quoted f) (KJavaRun className inputs k))) w
     end)
    (fun error => lift (resolve k {| success := false; output := error |})).

Definition runJava_callback (className : string) (inputs : list string) (k : Cont)
    (compileError : option string) (compileStdout compileStderr : string)
    (w : World) : World :=
  match compileError with
  | Some _ =>
      resolve k {| success := false;
                   output := Js.or compileStderr (Js.or compileStdout "Compilation failed") |} w
  | None =>
      execWithInput ("java -cp " ++ quoted (tempDir w) ++ " " ++ className) [] inputs k w
  end.

Definition runners (language : string)
    : option (string -> string -> list string -> Cont -> M unit) :=
  if decide (language = "javascript") then Some runJavaScriptWithInput
  else if decide (language = "python") then Some runPythonWithInput
  else if decide (language = "java") then Some runJavaWithInput
  else if decide (language = "c") then Some runCWithInput
  else if decide (language = "cpp") then Some runCppWithInput
  else if decide (language = "go") then Some runGoWithInput
  else if decide (language = "php") then Some runPHPWithInput
  else None.

(** The base path of a batch run: [path.join(tempDir, `temp_${Date.now()}`)] *)
Definition batch_base (w : World) : string :=
  path_join (win32 w) (tempDir w) ("temp_" ++ pretty (now w)).

(** [async function runCodeWithInput(language, code, inputs = [])], for the
    invocation [req]; the answer is recorded in [replies] when the promise
    settles. *)
Definition runCodeWithInput (req : nat) (language code : string) (inputs : list string)
    (w : World) : World :=
  let supported := getSupportedLanguages in
  if negb (bool_decide (language ∈ supported)) then
    respond req (RepRun {| success := false; output := not_supported language |}) w
  else
    let base := batch_base w in
    match runners language with
    | None =>
        runCodeWithInput_settle req base
          (Ret {| success := false;
                  output := "No runner found for language " ++ quoted language |}) w
    | Some run =>
        match run code base inputs (KBatch req base) w with
        | (Raise e, w') => runCodeWithInput_settle req base (Raise e) w'
        | (Ret _, w') => w'
        end
    end.

(** ** Interactive sessions *)

(** [`run_${Date.now()}_${Math.random().toString(36).slice(2, 8)}`];
    [rnd] is the rendering [Math.random().toString(36)] of the draw. *)
Definition createSessionId (rnd : string) (w : World) : string :=
  "run_" ++ pretty (now w) ++ "_" ++ Js.slice 2 8 rnd.

(** [path.join(tempDir, `temp_${Date.now()}_${Math.random().toString(36).slice(2, 6)}`)] *)
Definition session_base (rnd : string) (w : World) : string :=
  path_join (win32 w) (tempDir w) ("temp_" ++ pretty (now w) ++ "_" ++ Js.slice 2 6 rnd).

Definition sendRunOutput (sessionId type data : string) (w : World) : World :=
  if window w then set_outbox (outbox w ++ [RunOutput sessionId type data]) w else w.

Definition sendRunExit (sessionId : string) (code : option Z) (signal : option Signal)
    (w : World) : World :=
  if window w then set_outbox (outbox w ++ [RunExit sessionId code signal]) w else w.

Definition set_session_timer (proc : nat) (h : option nat) (w : World) : World :=
  set_sessions
    (alter (fun s => {| s_id := s_id s; s_cleanup := s_cleanup s; s_timer := h |})
           proc (sessions w)) w.

(** The closure [resetTimer] of the session object stored under [proc]. *)
Definition resetTimer (proc : nat) (w : World) : World :=
  match sessions w !! proc with
  | None => w
  | Some session =>
      let w := clearTimeout (s_timer session) w in
      let '(h, w) := setTimeout (TaIdleStop (s_id session)) 120000 w in
      set_session_timer proc (Some h) w
  end.

(** [function registerRunSession(sessionId, proc, cleanup)]; the three
    listeners it installs on [proc] are [session_on_stdout],
    [session_on_stderr] and [session_on_close] below. *)
Definition registerRunSession (sessionId : string) (proc : nat)
    (cleanup : option (list string)) (w : World) : World :=
  let w := set_sessions
             (<[proc := {| s_id := sessionId; s_cleanup := cleanup; s_timer := None |}]>
                (sessions w)) w in
  let w := set_runSessions (<[sessionId := proc]> (runSessions w)) w in
  resetTimer proc w.

Definition session_on_stdout (proc : nat) (session : Session) (data : string)
    (w : World) : World :=
  resetTimer proc (sendRunOutput (s_id session) "stdout" data w).

Definition session_on_stderr (proc : nat) (session : Session) (data : string)
    (w : World) : World :=
  resetTimer proc (sendRunOutput (s_id session) "stderr" data w).

(** [const cleanupFiles = (files) => () => files.forEach(safeUnlink)] *)
Definition cleanupFiles (files : list string) (w : World) : World :=
  (forEach files safeUnlink w).2.

(** The part of the close listener before the exit event:
    [clearTimeout(session.timer); if (cleanup) cleanup();
     runSessions.delete(sessionId)] *)
Definition session_teardown (session : Session) (w : World) : World :=
  let w := clearTimeout (s_timer session) w in
  let w := match s_cleanup session with
           | Some files => cleanupFiles files w
           | None => w
           end in
  set_runSessions (delete (s_id session) (runSessions w)) w.

Definition session_on_close (session : Session) (code : option Z)
    (signal : option Signal) (w : World) : World :=
  sendRunExit (s_id session) code signal (session_teardown session w).

(** [function stopRunSession(sessionId, silent = false)] *)
Definition stopRunSession (sessionId : string) (silent : bool) (w : World) : bool * World :=
  match runSessions w !! sessionId with
  | None => (false, w)
  | Some proc =>
      let w := kill proc SIGTERM w in
      let w := (setTimeout (TaForceKill proc) 1000 w).2 in
      if silent then (true, w) else (true, w)
  end.

(** [ipcMain.handle('send-input', (_, d) => ...)] with
    [d = { sessionId, input }]; a missing [input] is [None]. *)
Definition send_input (sessionId : string) (input : option string) (w : World)
    : SendResult * World :=
  match runSessions w !! sessionId with
  | None => (SendError "No active session.", w)
  | Some proc =>
      match procs w !! proc with
      | None => (SendError "No active session.", w)
      | Some c =>
          if c_killed c || negb (c_writable c)
          then (SendError "No active session.", w)
          else (SendOk, resetTimer proc (stdin_write proc (default "" input ++ LF) w))
      end
  end.

(** [ipcMain.handle('stop-run', (_, d) => ...)] *)
Definition stop_run (sessionId : string) (w : World) : bool * World :=
  stopRunSession sessionId false w.

(** [error.toString()] of what the [catch] of [startRunSession] receives
    from the file system. *)
Definition error_toString (message : string) : string := "Error: " ++ message.

Definition start_failed (req : nat) (o : Outcome unit * World) : World :=
  match o with
  | (Ret _, w) => w
  | (Raise e, w) => respond req (RepStart (StartError (error_toString e))) w
  end.

(** The tail of [startRunSession] once [proc] and [cleanup] are set. *)
Definition start_registered (req : nat) (sessionId : string) (proc : nat)
    (cleanup : list string) (w : World) : World :=
  respond req (RepStart (StartSession sessionId))
    (registerRunSession sessionId proc (Some cleanup) w).

(** The interpreted cases of the [switch]: write, spawn, register. *)
Definition start_script (req : nat) (sessionId file code cmd : string)
    (args : list string) : M unit :=
  writeFileSync file code ;;
  lift (fun w =>
    let '(proc, w) := spawn cmd args w in
    start_registered req sessionId proc [file] w).

(** [async function startRunSession(language, code)] for the invocation
    [req]; [rnd1] and [rnd2] are its two draws of [Math.random()]. *)
Definition startRunSession (req : nat) (language code rnd1 rnd2 : string)
    (w : World) : World :=
  if negb (bool_decide (language ∈ getSupportedLanguages)) then
    respond req (RepStart (StartError (not_supported language))) w
  else
    let sessionId := createSessionId rnd1 w in
    let base := session_base rnd2 w in
    if decide (language = "javascript") then
      start_failed req (start_script req sessionId (base ++ ".js") code "node" [base ++ ".js"] w)
    else if decide (language = "python") then
      start_failed req
        (start_script req sessionId (base ++ ".py") code (getPythonCommand w) [base ++ ".py"] w)
    else if decide (language = "php") then
      start_failed req (start_script req sessionId (base ++ ".php") code "php" [base ++ ".php"] w)
    else if decide (language = "go") then
      start_failed req (start_script req sessionId (base ++ ".go") code "go" ["run"; base ++ ".go"] w)
    else if decide (language = "c") then
      let src := base ++ ".c" in
      let out := if win32 w then base ++ ".exe" else base ++ ".out" in
      start_failed req
        ((writeFileSync src code ;;
          lift (exec ("gcc " ++ quoted src ++ " -o " ++ quoted out)
                     (KSessCompiled sessionId src out req))) w)
    else if decide (language = "cpp") then
      let src := base ++ ".cpp" in
      let out := if win32 w then base ++ ".exe" else base ++ ".out" in
      start_failed req
        ((writeFileSync src code ;;
          lift (exec ("g++ " ++ quoted src ++ " -o " ++ quoted out)
                     (KSessCompiled sessionId src out req))) w)
    else if decide (language = "java") then
      match Js.match_public_class code with
      | None =>
          respond req (RepStart (StartError
            "No public class found. Java requires a public class name to run.")) w
      | Some className =>
          let file := path_join (win32 w) (tempDir w) (className ++ ".java") in
          start_failed req
            ((writeFileSync file code ;;
              lift (exec ("javac " ++ quoted file) (KSessJava sessionId file className req))) w)
      end
    else
      respond req (RepStart (StartError ("No runner found for language " ++ quoted language))) w.

(** [startRunSession] after [await execPromise(...)]: a rejection carries
    [stderr || stdout || error.message] into the [catch] block, where
    [cleanup] is still [null]. *)
Definition startRunSession_resume (k_sessionId : string) (cmd : string)
    (args cleanup : list string) (req : nat)
    (error : option string) (stdout stderr : string) (w : World) : World :=
  match error with
  | Some message =>
      respond req (RepStart (StartError (Js.or stderr (Js.or stdout message)))) w
  | None =>
      let '(proc, w) := spawn cmd args w in
      start_registered req k_sessionId proc cleanup w
  end.

(** ** The event loop *)

Definition set_exec (p : nat) (f : Exec -> Exec) (w : World) : World :=
  set_execs (alter f p (execs w)) w.

(** What a timer does when it fires. *)
Definition run_timer (a : TimerAction) (w : World) : World :=
  match a with
  | TaWriteInput p line =>
      match execs w !! p with
      | Some x => if x_killed x then w else stdin_write p line w
      | None => w
      end
  | TaEndInput p => stdin_end p w
  | TaBatchTimeout p =>
      let w := set_exec p (fun x => {| x_out := x_out x; x_err := x_err x; x_killed := true;
                                       x_timer := x_timer x; x_cont := x_cont x |}) w in
      let w := kill p SIGTERM w in
      (setTimeout (TaForceKill p) 1000 w).2
  | TaForceKill p => kill p SIGKILL w
  | TaIdleStop sessionId => (stopRunSession sessionId true w).2
  end.

(** The pending timer that is due first; among equals the one set first. *)
Fixpoint earliest (l : list Timer) : option Timer :=
  match l with
  | [] => None
  | t :: l' =>
      match earliest l' with
      | Some t' => if t_due t' <? t_due t then Some t' else Some t
      | None => Some t
      end
  end.

Global Instance Signal_eq_dec : EqDecision Signal.
Proof. solve_decision. Defined.
Global Instance TimerAction_eq_dec : EqDecision TimerAction.
Proof. solve_decision. Defined.
Global Instance Timer_eq_dec : EqDecision Timer.
Proof. solve_decision. Defined.

(** The list without the first occurrence of [t]. *)
Fixpoint unqueue (t : Timer) (l : list Timer) : list Timer :=
  match l with
  | [] => []
  | t' :: l' => if decide (t' = t) then l' else t' :: unqueue t l'
  end.

(** The timer [t] fires: it leaves the queue, the clock has reached its
    due time, its callback runs. *)
Definition fire (t : Timer) (w : World) : World :=
  run_timer (t_act t)
    (set_now (N.max (now w) (t_due t))
       (set_timers (unqueue t (timers w)) (next_timer w) w)).

Fixpoint run_until (fuel : nat) (T : N) (w : World) : World :=
  match fuel with
  | O => w
  | S fuel' =>
      match earliest (timers w) with
      | Some t => if t_due t <=? T then run_until fuel' T (fire t w) else w
      | None => w
      end
  end.

(** A timeout or idle timer sets one more timer when it fires; the others
    set none. *)
Definition timer_weight (t : Timer) : nat :=
  match t_act t with
  | TaBatchTimeout _ | TaIdleStop _ => 2
  | _ => 1
  end.

Definition weight (l : list Timer) : nat := foldr (fun t n => timer_weight t + n)%nat O l.

(** [dt] milliseconds pass: the timers due by then fire in order. *)
Definition advance (dt : N) (w : World) : World :=
  let T := now w + dt in
  set_now T (run_until (weight (timers w)) T w).

Definition mark_child (p : nat) (closed : bool) (w : World) : World :=
  upd_child p (fun c =>
    {| c_cmd := c_cmd c; c_args := c_args c; c_killed := c_killed c;
       c_exited := true; c_closed := c_closed c || closed;
       c_writable := false; c_stdin := c_stdin c; c_signals := c_signals c |}) w.

(** The data listeners of a child: [out += d] / [err += d] for a batch
    run, the session listeners for a session. *)
Definition on_data (is_err : bool) (p : nat) (d : string) (w : World) : World :=
  match execs w !! p with
  | Some _ =>
      set_exec p (fun x =>
        {| x_out := if is_err then x_out x else x_out x ++ d;
           x_err := if is_err then x_err x ++ d else x_err x;
           x_killed := x_killed x; x_timer := x_timer x; x_cont := x_cont x |}) w
  | None =>
      match sessions w !! p with
      | Some session =>
          if is_err then session_on_stderr p session d w
          else session_on_stdout p session d w
      | None => w
      end
  end.

(** The close listener of a child. *)
Definition on_close (p : nat) (code : option Z) (signal : option Signal)
    (w : World) : World :=
  match execs w !! p with
  | Some x =>
      resolve (x_cont x) (exec_result code (x_out x) (x_err x))
        (clearTimeout (Some (x_timer x)) w)
  | None =>
      match sessions w !! p with
      | Some session => session_on_close session code signal w
      | None => w
      end
  end.

(** The callback of a finished [exec] command. *)
Definition on_exec_done (k : ExecCont) (error : option string) (stdout stderr : string)
    (w : World) : World :=
  match k with
  | KCompileAndRun exe inputs k' => compileAndRun_callback exe inputs k' error stderr w
  | KJavaRun className inputs k' => runJava_callback className inputs k' error stdout stderr w
  | KSessCompiled sessionId src out req =>
      startRunSession_resume sessionId out [] [src; out] req error stdout stderr w
  | KSessJava sessionId file className req =>
      startRunSession_resume sessionId "java" ["-cp"; tempDir w; className]
        [file; path_join (win32 w) (tempDir w) (className ++ ".class")]
        req error stdout stderr w
  end.

(** Files a command left in the scratch directory. *)
Definition create_files (created : list (string * string)) (w : World) : World :=
  match scratch w with
  | None => w
  | Some d => set_scratch (Some (foldr (fun kv m => <[kv.1 := kv.2]> m) d created)) w
  end.

Inductive Event :=
  | EvAdvance (dt : N)
  | EvRunCode (req : nat) (language code : string) (inputs : list string)
  | EvStartRun (req : nat) (language code rnd1 rnd2 : string)
  | EvSendInput (req : nat) (sessionId : string) (input : option string)
  | EvStopRun (req : nat) (sessionId : string)
  | EvExecDone (id : nat) (error : option string) (stdout stderr : string)
      (created : list (string * string))
  | EvStdout (p : nat) (data : string)
  | EvStderr (p : nat) (data : string)
  | EvExit (p : nat)
  | EvClose (p : nat) (code : option Z) (signal : option Signal).

Definition open_child (p : nat) (w : World) : bool :=
  match procs w !! p with
  | Some c => negb (c_closed c)
  | None => false
  end.

(** One turn of the event loop.  A child emits no data after its close
    event and closes once. *)
Definition step (e : Event) (w : World) : World :=
  match e with
  | EvAdvance dt => advance dt w
  | EvRunCode req language code inputs => runCodeWithInput req language code inputs w
  | EvStartRun req language code rnd1 rnd2 => startRunSession req language code rnd1 rnd2 w
  | EvSendInput req sessionId input =>
      let '(r, w) := send_input sessionId input w in respond req (RepSend r) w
  | EvStopRun req sessionId =>
      let '(ok, w) := stop_run sessionId w in respond req (RepStop ok) w
  | EvExecDone id error stdout stderr created =>
      match pending w !! id with
      | Some (_, k) =>
          on_exec_done k error stdout stderr
            (create_files created (set_pending (delete id (pending w)) (next_exec w) w))
      | None => w
      end
  | EvStdout p d => if open_child p w then on_data false p d w else w
  | EvStderr p d => if open_child p w then on_data true p d w else w
  | EvExit p => if open_child p w then mark_child p false w else w
  | EvClose p code signal =>
      if open_child p w then on_close p code signal (mark_child p true w) else w
  end.

Definition run (evs : list Event) (w : World) : World :=
  foldl (fun w e => step e w) w evs.

(** The main process at start-up, for a given environment: the scratch
    directory exists ([fs.mkdirSync(tempDir, { recursive: true })]) and
    the window is up. *)
Definition boot (is_win32 : bool) (tmp : string) (cmds : list string)
    (files : gmap string string) (t : N) : World :=
  {| win32 := is_win32; os_tmpdir := tmp; installed := cmds; window := true;
     scratch := Some files; now := t; timers := []; next_timer := 0%nat;
     procs := ∅; next_pid := 0%nat; pending := ∅; next_exec := 0%nat;
     execs := ∅; sessions := ∅; runSessions := ∅; outbox := []; replies := [] |}.

(** ** The file tree of the explorer

    [ipcMain.handle('get-files', async (event, folderPath) => ...)].  What
    [fs.readdirSync(dir, { withFileTypes: true })] finds is given with the
    directory: its entries in order, or the message of the error it
    throws.  An entry that is not a directory is a file to the handler. *)

#[local] Unset Elimination Schemes.
Inductive Dirent :=
  | DFile (name : string)
  | DDir (name : string) (content : Outcome (list Dirent)).

Definition d_name (item : Dirent) : string :=
  match item with
  | DFile name => name
  | DDir name _ => name
  end.

(** [{ name, type: 'file', path, ext }] and
    [{ name, type: 'folder', path, ext, children }] *)
Inductive TreeItem :=
  | TreeFile (name path ext : string)
  | TreeFolder (name path ext : string) (children : list TreeItem).
#[local] Set Elimination Schemes.

Definition t_name (t : TreeItem) : string :=
  match t with
  | TreeFile name _ _ => name
  | TreeFolder name _ _ _ => name
  end.

Definition t_path (t : TreeItem) : string :=
  match t with
  | TreeFile _ path _ => path
  | TreeFolder _ path _ _ => path
  end.

(** [item.name.startsWith('.') || item.name === 'node_modules'] *)
Definition skipped (name : string) : bool :=
  match name with
  | String "." _ => true
  | _ => bool_decide (name = "node_modules")
  end.

(** The [for] loop of [readDir] over the entries, [f] being what it does
    with an entry it keeps; an exception leaves the loop at once. *)
Fixpoint readDir_loop (f : Dirent -> Outcome TreeItem) (items : list Dirent)
    : Outcome (list TreeItem) :=
  match items with
  | [] => Ret []
  | item :: rest =>
      if skipped (d_name item) then readDir_loop f rest
      else
        match f item with
        | Raise e => Raise e
        | Ret treeItem =>
            match readDir_loop f rest with
            | Raise e => Raise e
            | Ret tree => Ret (treeItem :: tree)
            end
        end
  end.

Section GetFiles.
(** [path.join] and [path.extname] *)
Variables (join : string -> string -> string) (extname : string -> string).

(** The body of the loop for the entry [item] of the directory [dir]. *)
Fixpoint readDir_item (dir : string) (item : Dirent) : Outcome TreeItem :=
  match item with
  | DFile name => Ret (TreeFile name (join dir name) (extname name))
  | DDir name content =>
      let itemPath := join dir name in
      match content with
      | Raise e => Raise e
      | Ret items =>
          match readDir_loop (readDir_item itemPath) items with
          | Raise e => Raise e
          | Ret children => Ret (TreeFolder name itemPath (extname name) children)
          end
      end
  end.

(** [function readDir(dir)], [content] being what [readdirSync] finds. *)
Definition readDir (dir : string) (content : Outcome (list Dirent))
    : Outcome (list TreeItem) :=
  match content with
  | Raise e => Raise e
  | Ret items => readDir_loop (readDir_item dir) items
  end.

Inductive FilesReply :=
  | FilesTree (tree : list TreeItem)
  | FilesError (error : string).

Definition get_files (folderPath : string) (content : Outcome (list Dirent)) : FilesReply :=
  match readDir folderPath content with
  | Ret tree => FilesTree tree
  | Raise e => FilesError e
  end.

End GetFiles.

(** * Properties *)

(** ** The file system *)

Lemma set_scratch_same (w : World) : set_scratch (scratch w) w = w.
Proof. by destruct w. Qed.

(** A computation that touches nothing but the files. *)
Definition fs_only {A} (m : M A) : Prop :=
  ∀ w, (m w).2 = set_scratch (scratch (m w).2) w.

Lemma fs_only_ret {A} (a : A) : fs_only (ret a).
Proof. intros w. simpl. by rewrite set_scratch_same. Qed.

Lemma fs_only_bind {A B} (m : M A) (k : A -> M B) :
  fs_only m → (∀ a, fs_only (k a)) → fs_only (bind m k).
Proof.
  intros Hm Hk w. unfold bind. specialize (Hm w).
  destruct (m w) as [[a|e] w1]; simpl in *; [|done].
  rewrite (Hk a w1) at 1. by rewrite Hm.
Qed.

Lemma fs_only_try_catch {A} (m : M A) (h : string -> M A) :
  fs_only m → (∀ e, fs_only (h e)) → fs_only (try_catch m h).
Proof.
  intros Hm Hh w. unfold try_catch. specialize (Hm w).
  destruct (m w) as [[a|e] w1]; simpl in *; [done|].
  rewrite (Hh e w1) at 1. by rewrite Hm.
Qed.

Lemma fs_only_writeFileSync p data : fs_only (writeFileSync p data).
Proof.
  intros w. unfold writeFileSync. destruct w; simpl. by case_match.
Qed.

Lemma fs_only_unlinkSync p : fs_only (unlinkSync p).
Proof.
  intros w. unfold unlinkSync. destruct w; simpl. by repeat case_match.
Qed.

Lemma fs_only_forEach {A} (l : list A) (f : A -> M unit) :
  (∀ x, fs_only (f x)) → fs_only (forEach l f).
Proof.
  intros Hf. induction l as [|x l IH]; simpl.
  - apply fs_only_ret.
  - apply fs_only_bind; auto.
Qed.

Lemma fs_only_safeUnlink p : fs_only (safeUnlink p).
Proof.
  apply fs_only_try_catch; [apply fs_only_unlinkSync|]. intros; apply fs_only_ret.
Qed.

(** [safeUnlink] swallows every exception. *)
Lemma safeUnlink_returns p w : (safeUnlink p w).1 = Ret tt.
Proof.
  unfold safeUnlink, try_catch. destruct (unlinkSync p w) as [[[]|e] w1]; done.
Qed.

Lemma cleanupFiles_fs files w :
  cleanupFiles files w = set_scratch (scratch (cleanupFiles files w)) w.
Proof. apply (fs_only_forEach files safeUnlink), fs_only_safeUnlink. Qed.

Lemma cleanupFiles_shape files w : ∃ sc, cleanupFiles files w = set_scratch sc w.
Proof. eexists. apply cleanupFiles_fs. Qed.

(** *** The sweep of [cleanupTempFiles] *)

Section Sweep.
Variables (win : bool) (dir stem : string).

(** What one pass of the [forEach] of [cleanupTempFiles] leaves. *)
Fixpoint sweep_list (names : list string) (d : gmap string string)
    : gmap string string :=
  match names with
  | [] => d
  | f :: names' =>
      sweep_list names'
        (if Js.includes f stem then delete (path_join win dir f) d else d)
  end.

(** The directory listing, as [readdirSync] computes it. *)
Definition listing (d : gmap string string) : list string :=
  omap (entry_name win dir) (map_to_list d).*1.

Definition swept (d : gmap string string) : gmap string string :=
  sweep_list (listing d) d.

Lemma path_join_inj f g : path_join win dir f = path_join win dir g → f = g.
Proof. unfold path_join. apply (inj _). Qed.

Lemma strip_Some p s r : Js.strip p s = Some r → s = p ++ r.
Proof.
  revert s. induction p as [|a p IH]; intros s H; simpl in *.
  - by injection H as ->.
  - destruct s as [|b s]; [done|]. destruct (decide (a = b)) as [->|]; [|done].
    change (String b s = String b (p ++ r)). f_equal. by apply IH.
Qed.

Lemma entry_name_Some p f : entry_name win dir p = Some f → p = path_join win dir f.
Proof.
  unfold entry_name. destruct (Js.strip _ p) as [n|] eqn:E; [|done].
  destruct (_ || _); [done|]. intros [= ->]. by apply strip_Some.
Qed.

Lemma lookup_sweep_list_hit names d f :
  f ∈ names → Js.includes f stem = true →
  sweep_list names d !! path_join win dir f = None.
Proof.
  revert d. induction names as [|g names IH]; intros d Hin Hinc; [by inversion Hin|].
  assert (Hgone : ∀ names' d', d' !! path_join win dir f = None →
                    sweep_list names' d' !! path_join win dir f = None).
  { clear. induction names' as [|g names' IH']; intros d' Hd; simpl; [done|].
    apply IH'. destruct (Js.includes g stem); [|done].
    destruct (decide (path_join win dir g = path_join win dir f)) as [->|Hne].
    - apply lookup_delete_eq.
    - by rewrite lookup_delete_ne. }
  simpl. apply elem_of_cons in Hin as [->|Hin].
  - rewrite Hinc. apply Hgone, lookup_delete_eq.
  - by apply IH.
Qed.

Lemma lookup_sweep_list_miss names d p :
  (∀ f, f ∈ names → Js.includes f stem = true → path_join win dir f ≠ p) →
  sweep_list names d !! p = d !! p.
Proof.
  revert d. induction names as [|g names IH]; intros d H; simpl; [done|].
  rewrite IH by (intros f Hf; apply H; by right).
  destruct (Js.includes g stem) eqn:Eg; [|done].
  apply lookup_delete_ne, H; [by left|done].
Qed.

Lemma NoDup_listing d : NoDup (listing d).
Proof.
  unfold listing. pose proof (NoDup_fst_map_to_list d) as Hnd.
  induction Hnd as [|p l Hp Hnd IH]; simpl; [constructor|].
  destruct (entry_name win dir p) as [f|] eqn:E; [|done].
  constructor; [|done]. intros Hin.
  apply list_elem_of_omap in Hin as (q & Hq & Eq).
  apply entry_name_Some in E, Eq. by subst.
Qed.

Lemma elem_of_listing d f :
  f ∈ listing d ↔ is_Some (d !! path_join win dir f) ∧
                  entry_name win dir (path_join win dir f) = Some f.
Proof.
  unfold listing. rewrite list_elem_of_omap. split.
  - intros (p & Hp & E). pose proof (entry_name_Some _ _ E) as ->.
    split; [|done]. apply list_elem_of_fmap in Hp as ([q v] & -> & Hqv).
    apply elem_of_map_to_list in Hqv. by exists v.
  - intros [[v Hv] E]. exists (path_join win dir f). split; [|done].
    apply list_elem_of_fmap. exists (path_join win dir f, v). split; [done|].
    by apply elem_of_map_to_list.
Qed.

(** The pass never meets a missing file: every listed name is unlinked
    at most once, while it is still there. *)
Lemma forEach_unlink_ok (w : World) names d :
  NoDup names →
  (∀ f, f ∈ names → is_Some (d !! path_join win dir f)) →
  forEach names (fun f =>
      if Js.includes f stem then unlinkSync (path_join win dir f) else ret tt)
    (set_scratch (Some d) w)
  = (Ret tt, set_scratch (Some (sweep_list names d)) w).
Proof.
  revert d. induction names as [|f names IH]; intros d Hnd Hin; simpl; [done|].
  apply NoDup_cons in Hnd as [Hf Hnd]. unfold bind.
  destruct (Js.includes f stem) eqn:Ef.
  - unfold unlinkSync at 1. simpl.
    destruct (Hin f) as [v ->]; [by left|]. simpl.
    change (set_scratch ?a (set_scratch ?b w)) with (set_scratch a w).
    apply IH; [done|]. intros g Hg. rewrite lookup_delete_ne; [apply Hin; by right|].
    intros Heq. apply path_join_inj in Heq. by subst.
  - simpl. apply IH; [done|]. intros g Hg. apply Hin. by right.
Qed.

End Sweep.

(** With the scratch directory in place [cleanupTempFiles] does not throw,
    and it leaves the files as [swept] says. *)
Lemma cleanupTempFiles_ok b w d :
  scratch w = Some d →
  cleanupTempFiles b w
  = (Ret tt, set_scratch (Some (swept (win32 w) (tempDir w) (basename (win32 w) b) d)) w).
Proof.
  intros E. unfold cleanupTempFiles, bind, readdirSync. rewrite E.
  rewrite <- (set_scratch_same w) at 3. rewrite E.
  rewrite (forEach_unlink_ok (win32 w) (tempDir w)).
  - done.
  - apply NoDup_listing.
  - intros f Hf. by apply elem_of_listing in Hf as [? _].
Qed.

(** Without it, [readdirSync] throws. *)
Lemma cleanupTempFiles_gone b w :
  scratch w = None → ∃ e, cleanupTempFiles b w = (Raise e, w).
Proof. intros E. unfold cleanupTempFiles, bind, readdirSync. rewrite E. eauto. Qed.

(** After the sweep no entry of the scratch directory has the stem in its
    name, and the other files are as before. *)
Lemma swept_lookup win dir stem d p :
  swept win dir stem d !! p =
    match entry_name win dir p with
    | Some f => if Js.includes f stem then None else d !! p
    | None => d !! p
    end.
Proof.
  unfold swept. destruct (entry_name win dir p) as [f|] eqn:E.
  - pose proof (entry_name_Some _ _ _ _ E) as ->.
    destruct (Js.includes f stem) eqn:Ef.
    + destruct (d !! path_join win dir f) as [v|] eqn:Ed.
      * apply lookup_sweep_list_hit; [|done]. apply elem_of_listing. eauto.
      * rewrite lookup_sweep_list_miss; [done|].
        intros g Hg _ Heq. apply path_join_inj in Heq as ->.
        apply elem_of_listing in Hg as [[v Hv] _]. congruence.
    + apply lookup_sweep_list_miss. intros g _ Hg Heq.
      apply path_join_inj in Heq as ->. congruence.
  - apply lookup_sweep_list_miss. intros g Hg _ <-.
    apply elem_of_listing in Hg as [_ Hg]. congruence.
Qed.

Lemma runCodeWithInput_settle_ok req base r w d :
  scratch w = Some d →
  runCodeWithInput_settle req base r w
  = respond req (match r with Ret v => RepRun v | Raise e => RepRejected e end)
      (set_scratch (Some (swept (win32 w) (tempDir w) (basename (win32 w) base) d)) w).
Proof. intros E. unfold runCodeWithInput_settle. by rewrite (cleanupTempFiles_ok _ _ _ E). Qed.

Lemma runCodeWithInput_settle_gone req base r w :
  scratch w = None →
  ∃ e, runCodeWithInput_settle req base r w = respond req (RepRejected e) w.
Proof.
  intros E. unfold runCodeWithInput_settle.
  destruct (cleanupTempFiles_gone base w E) as [e ->]. eauto.
Qed.

(** ** A world to run examples in *)

Definition demo_world : World :=
  boot false "/tmp" ["python3"; "node"] ∅ 1700000000000.

(** A session of the demo world: started, and one chunk of output seen. *)
Definition demo_session : World :=
  run [EvStartRun 1 "javascript" "console.log('ready');" "0.abcdefghij" "0.zyxwvu";
       EvStdout 0 "ready"] demo_world.

Definition demo_id : string := "run_1700000000000_abcdef".

(** ** Batch runs: cleanup and failures *)

(** C1, at the failing input.  A Java batch run writes [Foo.java] (and
    [javac] leaves [Foo.class]) in the scratch directory under the class
    name; the sweep by the stem [temp_<timestamp>] misses both, so they
    are still there when the call has returned. *)
Theorem java_batch_run_leaves_its_files :
  let w := run [EvRunCode 1 "java" "public class Foo {}" [];
                EvExecDone 0 None "" "" [("/tmp/proworldz-lab/Foo.class", "cafebabe")];
                EvStdout 0 "done";
                EvClose 0 (Some 0%Z) None] demo_world in
  replies w = [(1%nat, RepRun {| success := true; output := "done" |})] ∧
  (scratch w ≫= lookup "/tmp/proworldz-lab/Foo.java") = Some "public class Foo {}" ∧
  (scratch w ≫= lookup "/tmp/proworldz-lab/Foo.class") = Some "cafebabe".
Proof. vm_compute. done. Qed.

(** The sibling path: a Java session deletes both files at teardown. *)
Example java_session_removes_its_files :
  let w := run [EvStartRun 1 "java" "public class Foo {}" "0.abcdefghij" "0.zyxwvu";
                EvExecDone 0 None "" "" [("/tmp/proworldz-lab/Foo.class", "cafebabe")];
                EvClose 0 (Some 0%Z) None] demo_world in
  scratch w = Some ∅.
Proof. vm_compute. done. Qed.

(** C2, at the failing input.  With the scratch directory gone,
    [writeFileSync] throws in the Python runner; [runCodeWithInput] has a
    [finally] but no [catch], and its [cleanupTempFiles] throws as well:
    the call rejects instead of resolving to a [RunResult]. *)
Theorem runCodeWithInput_rejects_when_write_fails :
  replies (runCodeWithInput 1 "python" "print(1)" [] (set_scratch None demo_world))
  = [(1%nat, RepRejected "ENOENT: no such file or directory, scandir '/tmp/proworldz-lab'")].
Proof. vm_compute. done. Qed.

(** In general: no supported language resolves then. *)
Lemma runCodeWithInput_rejects_without_scratch req language code inputs w :
  language ∈ getSupportedLanguages → scratch w = None →
  ∃ e, replies (runCodeWithInput req language code inputs w)
       = (replies w ++ [(req, RepRejected e)])%list.
Proof.
  intros Hl E. unfold runCodeWithInput.
  rewrite bool_decide_eq_true_2 by done. simpl.
  assert (Hs : ∀ r w', scratch w' = None → replies w' = replies w →
            ∃ e, replies (runCodeWithInput_settle req (batch_base w) r w')
                 = (replies w ++ [(req, RepRejected e)])%list).
  { intros r w' E' Hr. destruct (runCodeWithInput_settle_gone req (batch_base w) r w' E')
      as [e ->]. exists e. simpl. by rewrite Hr. }
  unfold getSupportedLanguages in Hl.
  repeat (apply elem_of_cons in Hl as [->|Hl]); [..|by apply elem_of_nil in Hl];
    simpl; unfold runCWithInput, runCppWithInput, runPythonWithInput, runJavaWithInput,
      runJavaScriptWithInput, runPHPWithInput, runGoWithInput, try_catch, bind,
      writeFileSync, lift, resolve; rewrite ?E; simpl;
    repeat case_match; simplify_eq/=; rewrite ?E in *; simplify_eq/=; eauto.
Qed.

(** C6, at the failing input.  The base path of a batch run is
    [temp_<Date.now()>] with no random suffix: two batch runs requested in
    the same millisecond share it, and the sweep of the one that ends
    first deletes the source of the other, which is still running. *)
Theorem batch_base_paths_collide :
  let w1 := run [EvRunCode 1 "python" "print(1)" []] demo_world in
  let w2 := run [EvRunCode 2 "javascript" "setTimeout(() => {}, 5000)" []] w1 in
  let w3 := run [EvClose 0 (Some 0%Z) None] w2 in
  batch_base w1 = batch_base demo_world ∧
  (scratch w2 ≫= lookup "/tmp/proworldz-lab/temp_1700000000000.js")
    = Some "setTimeout(() => {}, 5000)" ∧
  open_child 1 w3 = true ∧
  (scratch w3 ≫= lookup "/tmp/proworldz-lab/temp_1700000000000.js") = None.
Proof. vm_compute. done. Qed.

(** The sibling path: the base path of a session carries the random
    suffix, so two sessions of one millisecond differ when their draws
    do. *)
Example session_base_paths_differ :
  session_base "0.zyxwvu" demo_world ≠ session_base "0.abcdef" demo_world.
Proof. vm_compute. discriminate. Qed.

(** ** Java sources without a public class *)

(** C7.  When the source has no match for [public\s+class\s+(\w+)], the
    batch run answers [{success: false, output: "No public class found"}]
    and the session start answers [{error}]; neither writes a file, starts
    a command or spawns a child, and no session is registered.  (The
    batch answer passes through the [finally] sweep, which needs the
    scratch directory to exist, as it does from start-up on.) *)
Theorem java_without_public_class_fails_fast
    (req : nat) (code rnd1 rnd2 : string) (inputs : list string) (w : World)
    (d : gmap string string) :
  Js.match_public_class code = None →
  scratch w = Some d →
  (let w' := runCodeWithInput req "java" code inputs w in
   replies w' = (replies w ++
                 [(req, RepRun {| success := false; output := "No public class found" |})])%list ∧
   pending w' = pending w ∧ next_exec w' = next_exec w ∧
   procs w' = procs w ∧ next_pid w' = next_pid w ∧ timers w' = timers w ∧
   ∃ d', scratch w' = Some d' ∧ d' ⊆ d) ∧
  (let w' := startRunSession req "java" code rnd1 rnd2 w in
   w' = respond req (RepStart (StartError
          "No public class found. Java requires a public class name to run.")) w ∧
   runSessions w' = runSessions w ∧ sessions w' = sessions w ∧
   pending w' = pending w ∧ procs w' = procs w ∧ scratch w' = scratch w).
Proof.
  intros Hm E. split.
  - cbv zeta. unfold runCodeWithInput. simpl.
    unfold runJavaWithInput, try_catch, lift, resolve. rewrite Hm. simpl.
    rewrite (runCodeWithInput_settle_ok _ _ _ _ _ E). simpl.
    repeat split; try done. eexists; split; [done|].
    apply map_subseteq_spec. intros p v. rewrite swept_lookup.
    by repeat case_match.
  - cbv zeta. unfold startRunSession. simpl. by rewrite Hm.
Qed.

Lemma java_without_public_class_fails_fast_witness :
  Js.match_public_class "class Foo{}" = None ∧
  replies (runCodeWithInput 1 "java" "class Foo{}" [] demo_world)
  = [(1%nat, RepRun {| success := false; output := "No public class found" |})].
Proof.
  split; [reflexivity|].
  exact (proj1 (proj1 (java_without_public_class_fails_fast 1 "class Foo{}" "" "" []
                         demo_world ∅ eq_refl eq_refl))).
Defined.

(** ** The [stop-run] handler *)

(** C10.  For an id that is not in the table, [stop-run] answers
    [{ok: false}] and changes nothing at all: no signal, no timer, no file,
    no table entry.  For an id in the table it answers [{ok: true}], sends
    SIGTERM and schedules SIGKILL, and leaves the table, the session
    objects and the files as they are. *)
Theorem stop_run_spec (req : nat) (sessionId : string) (w : World) :
  (runSessions w !! sessionId = None →
     stop_run sessionId w = (false, w) ∧
     step (EvStopRun req sessionId) w = respond req (RepStop false) w) ∧
  (∀ proc, runSessions w !! sessionId = Some proc →
     ∃ w', stop_run sessionId w = (true, w') ∧
           step (EvStopRun req sessionId) w = respond req (RepStop true) w' ∧
           w' = (setTimeout (TaForceKill proc) 1000 (kill proc SIGTERM w)).2 ∧
           runSessions w' = runSessions w ∧ sessions w' = sessions w ∧
           scratch w' = scratch w ∧ outbox w' = outbox w).
Proof.
  split.
  - intros E. unfold step, stop_run, stopRunSession. by rewrite E.
  - intros proc E. unfold step, stop_run, stopRunSession. rewrite E.
    eexists. repeat split; reflexivity.
Qed.

Lemma stop_run_spec_witness :
  stop_run "does-not-exist" demo_session = (false, demo_session) ∧
  ∃ w', stop_run demo_id demo_session = (true, w') ∧
        runSessions w' = runSessions demo_session ∧
        scratch w' = scratch demo_session.
Proof.
  split.
  - exact (proj1 (proj1 (stop_run_spec 0 "does-not-exist" demo_session) eq_refl)).
  - destruct (proj2 (stop_run_spec 0 demo_id demo_session) 0%nat)
      as (w' & H1 & _ & _ & H2 & _ & H3 & _); [by vm_compute|].
    exists w'. by repeat split.
Defined.

Local Open Scope list_scope.

(** ** The [send-input] handler *)

(** The idle timer that [resetTimer] sets in the world [w]. *)
Definition idle_timer (sessionId : string) (w : World) : Timer :=
  {| t_id := next_timer w; t_due := now w + 120000; t_act := TaIdleStop sessionId |}.

(** The effect of the closure [resetTimer] of the session stored under
    [proc]: the timer the session held is cancelled, a new one is set for
    the full 120000 ms, and the session holds the new handle. *)
Lemma resetTimer_spec proc s w :
  sessions w !! proc = Some s →
  resetTimer proc w
  = set_session_timer proc (Some (next_timer w))
      (set_timers (timers (clearTimeout (s_timer s) w) ++ [idle_timer (s_id s) w])
                  (S (next_timer w)) w).
Proof.
  intros E. unfold resetTimer. rewrite E. unfold setTimeout, idle_timer.
  destruct (s_timer s); reflexivity.
Qed.

(** C8 as stated fails: a session that is in the table and whose input
    stream is writable still gets an error, and no write, once its child
    has been sent a signal ([proc.killed]) and has not exited yet. *)
Lemma send_input_refuses_signalled_child :
  ¬ (∀ w sessionId input proc c,
       runSessions w !! sessionId = Some proc →
       procs w !! proc = Some c →
       c_writable c = true →
       (send_input sessionId input w).1 = SendOk).
Proof.
  intros H.
  pose (w := run [EvStopRun 2 demo_id] demo_session).
  specialize (H w demo_id (Some "x") 0%nat
    {| c_cmd := "node"; c_args := ["/tmp/proworldz-lab/temp_1700000000000_zyxw.js"];
       c_killed := true; c_exited := false; c_closed := false; c_writable := true;
       c_stdin := []; c_signals := [SIGTERM] |}).
  vm_compute in H. specialize (H eq_refl eq_refl eq_refl). discriminate H.
Qed.

(** C8, amended.  [send-input] answers the error ['No active session.']
    and does nothing else when the id is not in the table, and also when
    the child of the session has been signalled ([proc.killed]) or its
    input stream is not writable.  Otherwise it writes the text and a line
    feed to the child, resets the idle timer of the session and answers
    [{ok: true}]. *)
Theorem send_input_spec (sessionId : string) (input : option string) (w : World) :
  (runSessions w !! sessionId = None →
     send_input sessionId input w = (SendError "No active session.", w)) ∧
  (∀ proc c,
     runSessions w !! sessionId = Some proc → procs w !! proc = Some c →
     c_killed c = true ∨ c_writable c = false →
     send_input sessionId input w = (SendError "No active session.", w)) ∧
  (∀ proc c s,
     runSessions w !! sessionId = Some proc → procs w !! proc = Some c →
     sessions w !! proc = Some s →
     c_killed c = false → c_writable c = true →
     ∃ w', send_input sessionId input w = (SendOk, w') ∧
           (c_stdin <$> procs w' !! proc) = Some (c_stdin c ++ [default "" input +:+ LF]) ∧
           timers w' = timers (clearTimeout (s_timer s) w) ++ [idle_timer (s_id s) w] ∧
           (s_timer <$> sessions w' !! proc) = Some (Some (next_timer w)) ∧
           runSessions w' = runSessions w ∧ scratch w' = scratch w).
Proof.
  repeat split.
  - intros E. unfold send_input. by rewrite E.
  - intros proc c E Ec Hc. unfold send_input. rewrite E, Ec.
    destruct Hc as [-> | ->]; [done|]. by rewrite orb_true_r.
  - intros proc c s E Ec Es Hk Hw. unfold send_input. rewrite E, Ec, Hk, Hw. simpl.
    eexists. split; [done|].
    rewrite (resetTimer_spec proc s) by done. simpl.
    rewrite !lookup_alter_eq, Ec, Es. simpl. rewrite Hw. simpl.
    repeat split; try done. by destruct (s_timer s).
Qed.

Lemma send_input_spec_witness :
  send_input "does-not-exist" (Some "x") demo_session
    = (SendError "No active session.", demo_session) ∧
  send_input demo_id (Some "x") (run [EvStopRun 2 demo_id] demo_session)
    = (SendError "No active session.", run [EvStopRun 2 demo_id] demo_session) ∧
  ∃ w', send_input demo_id (Some "x") demo_session = (SendOk, w') ∧
        (c_stdin <$> procs w' !! 0%nat) = Some ["x" +:+ LF].
Proof.
  split; [|split].
  - exact (proj1 (send_input_spec "does-not-exist" (Some "x") demo_session) eq_refl).
  - refine (proj1 (proj2 (send_input_spec demo_id (Some "x")
             (run [EvStopRun 2 demo_id] demo_session))) 0%nat _ _ _ _);
      [by vm_compute | by vm_compute | left; reflexivity].
  - destruct (proj2 (proj2 (send_input_spec demo_id (Some "x") demo_session)) 0%nat
               {| c_cmd := "node";
                  c_args := ["/tmp/proworldz-lab/temp_1700000000000_zyxw.js"];
                  c_killed := false; c_exited := false; c_closed := false;
                  c_writable := true; c_stdin := []; c_signals := [] |}
               {| s_id := demo_id;
                  s_cleanup := Some ["/tmp/proworldz-lab/temp_1700000000000_zyxw.js"];
                  s_timer := Some 1%nat |})
      as (w' & H1 & H2 & _); try (by vm_compute).
    exists w'. split; [done|]. exact H2.
Defined.

(** ** [execWithInput]: the schedule of the scripted inputs *)

(** The timers [inputs.forEach(...)] sets from index [x] on, when the next
    free handle is [id] and the clock shows [t0]. *)
Fixpoint write_timers (child : nat) (inputs : list string) (x : N) (id : nat) (t0 : N)
    : list Timer :=
  match inputs with
  | [] => []
  | i :: rest =>
      {| t_id := id; t_due := t0 + x * 100; t_act := TaWriteInput child (i +:+ LF) |}
      :: write_timers child rest (x + 1) (S id) t0
  end.

Lemma schedule_inputs_spec child inputs x w :
  schedule_inputs child inputs x w
  = set_timers (timers w ++ write_timers child inputs x (next_timer w) (now w))
               (next_timer w + length inputs)%nat w.
Proof.
  revert x w. induction inputs as [|i rest IH]; intros x w; simpl.
  - rewrite app_nil_r, Nat.add_0_r. by destruct w.
  - rewrite IH. simpl. rewrite <- app_assoc, Nat.add_succ_r. reflexivity.
Qed.

Lemma write_timers_lookup child inputs x id t0 (j : nat) i :
  inputs !! j = Some i →
  write_timers child inputs x id t0 !! j
  = Some {| t_id := (id + j)%nat; t_due := t0 + (x + N.of_nat j) * 100;
            t_act := TaWriteInput child (i +:+ LF) |}.
Proof.
  revert x id j. induction inputs as [|i' rest IH]; intros x id j H; [done|].
  destruct j as [|j]; simpl in *.
  - injection H as ->. by rewrite Nat.add_0_r, N.add_0_r.
  - rewrite (IH _ _ _ H). f_equal. f_equal; lia.
Qed.

Lemma length_write_timers child inputs x id t0 :
  length (write_timers child inputs x id t0) = length inputs.
Proof. revert x id. induction inputs; intros; simpl; [done|]. by rewrite IHinputs. Qed.

Definition end_timer (child : nat) (n : nat) (w : World) : Timer :=
  {| t_id := (next_timer w + n)%nat; t_due := now w + (N.of_nat n * 100 + 100);
     t_act := TaEndInput child |}.

Definition timeout_timer (child : nat) (id : nat) (w : World) : Timer :=
  {| t_id := id; t_due := now w + 10000; t_act := TaBatchTimeout child |}.

Definition fresh_child (cmd : string) (args : list string) (writable : bool) : Child :=
  {| c_cmd := cmd; c_args := args; c_killed := false; c_exited := false;
     c_closed := false; c_writable := writable; c_stdin := []; c_signals := [] |}.

Definition fresh_exec (timer : nat) (k : Cont) : Exec :=
  {| x_out := ""; x_err := ""; x_killed := false; x_timer := timer; x_cont := k |}.

(** [execWithInput] in one piece. *)
Lemma execWithInput_spec cmd args inputs k w :
  let child := next_pid w in
  let n := length inputs in
  execWithInput cmd args inputs k w
  = match inputs with
    | [] =>
        set_execs (<[child := fresh_exec (next_timer w) k]> (execs w))
          (set_timers (timers w ++ [timeout_timer child (next_timer w) w])
                      (S (next_timer w))
             (set_procs (<[child := fresh_child cmd args false]> (procs w))
                        (S (next_pid w)) w))
    | _ =>
        set_execs (<[child := fresh_exec (S (next_timer w + n)) k]> (execs w))
          (set_timers
             (timers w ++ write_timers child inputs 0 (next_timer w) (now w)
                ++ [end_timer child n w; timeout_timer child (S (next_timer w + n)) w])
             (S (S (next_timer w + n)))
             (set_procs (<[child := fresh_child cmd args true]> (procs w))
                        (S (next_pid w)) w))
    end.
Proof.
  cbv zeta. unfold execWithInput, spawn. destruct inputs as [|i rest].
  - unfold stdin_end, upd_child, setTimeout. simpl.
    by rewrite alter_insert_eq.
  - rewrite schedule_inputs_spec. unfold setTimeout. simpl.
    rewrite <- !app_assoc. simpl. reflexivity.
Qed.

(** ** The timer queue *)

Lemma earliest_elem l t : earliest l = Some t → t ∈ l.
Proof.
  revert t. induction l as [|t0 l IH]; intros t H; simpl in *; [done|].
  destruct (earliest l) as [t'|]; [|injection H as <-; by left].
  destruct (t_due t' <? t_due t0); injection H as <-; [right; by apply IH|by left].
Qed.

Lemma earliest_min l t t' : earliest l = Some t → t' ∈ l → t_due t ≤ t_due t'.
Proof.
  revert t. induction l as [|t0 l IH]; intros t H Hin; simpl in *; [by inversion Hin|].
  destruct (earliest l) as [t1|] eqn:E.
  - specialize (IH t1 eq_refl).
    destruct (t_due t1 <? t_due t0) eqn:C; injection H as <-;
      [apply N.ltb_lt in C | apply N.ltb_ge in C];
      apply elem_of_cons in Hin as [->|Hin]; try specialize (IH Hin); lia.
  - injection H as <-. apply elem_of_cons in Hin as [->|Hin]; [lia|].
    destruct l; [by inversion Hin|]. simpl in E. by repeat case_match.
Qed.

Lemma earliest_None l : earliest l = None → l = [].
Proof. destruct l; [done|]. simpl. by repeat case_match. Qed.

Lemma earliest_head t l :
  (∀ t', t' ∈ l → t_due t ≤ t_due t') → earliest (t :: l) = Some t.
Proof.
  intros H. simpl. destruct (earliest l) as [t'|] eqn:E; [|done].
  apply earliest_elem, H in E. by rewrite (proj2 (N.ltb_ge _ _) E).
Qed.

Lemma elem_unqueue t t' l : t ∈ unqueue t' l → t ∈ l.
Proof.
  induction l as [|t0 l IH]; simpl; [done|].
  destruct (decide (t0 = t')); [by right|].
  intros [->|H]%elem_of_cons; [by left|right; auto].
Qed.

Lemma unqueue_keeps t t' l : t ∈ l → t ≠ t' → t ∈ unqueue t' l.
Proof.
  intros Hin Hne. induction l as [|t0 l IH]; simpl; [done|].
  apply elem_of_cons in Hin as [->|Hin].
  - destruct (decide (t0 = t')); [done|by left].
  - destruct (decide (t0 = t')); [done|right; auto].
Qed.

Lemma weight_app l1 l2 : weight (l1 ++ l2) = (weight l1 + weight l2)%nat.
Proof. induction l1; simpl; [done|]. rewrite IHl1. lia. Qed.

Lemma weight_unqueue t l :
  t ∈ l → (weight (unqueue t l) + timer_weight t)%nat = weight l.
Proof.
  induction l as [|t0 l IH]; intros Hin; simpl; [by inversion Hin|].
  destruct (decide (t0 = t)) as [->|Hne]; [lia|].
  apply elem_of_cons in Hin as [->|Hin]; [done|]. simpl. rewrite <- (IH Hin). lia.
Qed.

(** The second stage of an escalated termination, as set in the world
    [w]: SIGKILL to [p] after 1000 ms. *)
Definition force_kill_timer (p : nat) (w : World) : Timer :=
  {| t_id := next_timer w; t_due := now w + 1000; t_act := TaForceKill p |}.

(** What a timer callback does to the queue: nothing, or one more timer,
    the forced kill of an escalated termination. *)
Lemma run_timer_timers a w :
  timers (run_timer a w) = timers w ∨
  ∃ p, timers (run_timer a w) = timers w ++ [force_kill_timer p w] ∧
       (a = TaBatchTimeout p ∨
        ∃ sessionId, a = TaIdleStop sessionId ∧ runSessions w !! sessionId = Some p).
Proof.
  destruct a as [p line|p|p|p|sid]; simpl.
  - left. by repeat case_match.
  - by left.
  - right. exists p. split; [done|by left].
  - by left.
  - unfold stopRunSession. destruct (runSessions w !! sid) as [p|] eqn:E; [|by left].
    right. exists p. split; [done|]. right. by exists sid.
Qed.

Lemma fire_weight t w :
  t ∈ timers w → (weight (timers (fire t w)) < weight (timers w))%nat.
Proof.
  intros Hin. unfold fire.
  set (w1 := set_now _ _).
  assert (Hw1 : (weight (timers w1) + timer_weight t)%nat = weight (timers w))
    by (apply weight_unqueue, Hin).
  destruct (run_timer_timers (t_act t) w1) as [->|(p & -> & Ha)].
  - clearbody w1. unfold timer_weight in *. destruct (t_act t); lia.
  - clearbody w1. rewrite weight_app. simpl.
    assert (timer_weight t = 2%nat)
      by (unfold timer_weight; destruct Ha as [->|(? & -> & _)]; done).
    lia.
Qed.

(** With fuel for every pending timer, and for the forced kills they may
    set, [run_until] stops only when nothing more is due. *)
Lemma run_until_done fuel T w t :
  (weight (timers w) ≤ fuel)%nat → t ∈ timers (run_until fuel T w) → T < t_due t.
Proof.
  revert w. induction fuel as [|fuel IH]; intros w Hf Hin; simpl in *.
  - destruct (timers w) as [|t0 l]; [by inversion Hin|].
    simpl in Hf. unfold timer_weight in Hf. destruct (t_act t0); lia.
  - destruct (earliest (timers w)) as [t0|] eqn:E.
    + destruct (t_due t0 <=? T) eqn:C.
      * apply (IH (fire t0 w)); [|done].
        pose proof (fire_weight t0 w (earliest_elem _ _ E)). lia.
      * apply N.leb_gt in C. pose proof (earliest_min _ _ _ E Hin). lia.
    + apply earliest_None in E. rewrite E in Hin. by inversion Hin.
Qed.

(** A timer stays pending until it fires itself: no callback cancels a
    timer. *)
Lemma fire_keeps t t' w : t ∈ timers w → t ≠ t' → t ∈ timers (fire t' w).
Proof.
  intros Hin Hne. unfold fire. set (w1 := set_now _ _).
  assert (t ∈ timers w1) by (by apply unqueue_keeps).
  destruct (run_timer_timers (t_act t') w1) as [->|(p & -> & _)]; [done|].
  apply elem_of_app. by left.
Qed.

(** The progress argument shared by the batch timeout and the idle
    timeout.  [G] is what the callback of [t] needs in order to have its
    effect [P]; the other callbacks keep [G], and [P] once reached stays. *)
Lemma run_until_fires (G P : World -> Prop) t T :
  (∀ w t', G w → t' ∈ timers w → t_due t' ≤ T → t' ≠ t → G (fire t' w)) →
  (∀ w, G w → t ∈ timers w → P (fire t w)) →
  (∀ w t', P w → t' ∈ timers w → t_due t' ≤ T → P (fire t' w)) →
  t_due t ≤ T →
  ∀ fuel w, (weight (timers w) ≤ fuel)%nat → G w → t ∈ timers w →
    P (run_until fuel T w).
Proof.
  intros HG HP HS Hdue.
  assert (Hstable : ∀ fuel w, P w → P (run_until fuel T w)).
  { induction fuel as [|fuel IH]; intros w Hp; simpl; [done|].
    destruct (earliest (timers w)) as [t0|] eqn:E; [|done].
    destruct (t_due t0 <=? T) eqn:C; [|done]. apply N.leb_le in C.
    apply IH, HS; [done| |done]. by apply earliest_elem. }
  induction fuel as [|fuel IH]; intros w Hf Hg Hin; simpl.
  - destruct (timers w) as [|t0 l]; [by inversion Hin|].
    simpl in Hf. unfold timer_weight in Hf. destruct (t_act t0); lia.
  - destruct (earliest (timers w)) as [t0|] eqn:E.
    + pose proof (earliest_elem _ _ E) as Hin0.
      pose proof (earliest_min _ _ _ E Hin) as Hmin.
      rewrite (proj2 (N.leb_le _ _)) by lia.
      destruct (decide (t0 = t)) as [->|Hne].
      * apply Hstable, HP; done.
      * apply IH.
        -- pose proof (fire_weight t0 w Hin0). lia.
        -- apply HG; [done..| |done]. lia.
        -- by apply fire_keeps.
    + apply earliest_None in E. rewrite E in Hin. by inversion Hin.
Qed.

(** ** Escalated termination *)

(** What the callbacks of timers may do to a child: deliver signals and
    write to or close its input.  They neither make it exit nor close. *)
Definition child_grows (c c' : Child) : Prop :=
  c_exited c' = c_exited c ∧ c_closed c' = c_closed c ∧
  ∀ sig, sig ∈ c_signals c → sig ∈ c_signals c'.

Lemma child_grows_refl c : child_grows c c.
Proof. by repeat split. Qed.

Lemma alter_grows (f : Child -> Child) p q w c :
  (∀ c, child_grows c (f c)) →
  procs w !! q = Some c →
  ∃ c', procs (upd_child p f w) !! q = Some c' ∧ child_grows c c'.
Proof.
  intros Hf E. simpl. destruct (decide (p = q)) as [->|Hne].
  - rewrite lookup_alter_eq, E. simpl. eauto.
  - rewrite lookup_alter_ne, E by done. eauto using child_grows_refl.
Qed.

Lemma kill_child p sig q w c :
  procs w !! q = Some c →
  ∃ c', procs (kill p sig w) !! q = Some c' ∧ child_grows c c' ∧
        (p = q → c_exited c = false → sig ∈ c_signals c').
Proof.
  intros E. unfold kill, upd_child. simpl. destruct (decide (p = q)) as [->|Hne].
  - rewrite lookup_alter_eq, E. simpl. eexists. split; [done|].
    destruct (c_exited c) eqn:Ex.
    + split; [apply child_grows_refl|done].
    + split; [|intros _ _; simpl; apply elem_of_app; right; by left].
      repeat split; simpl; [done|]. intros s Hs. apply elem_of_app. by left.
  - rewrite lookup_alter_ne, E by done. eexists. split; [done|].
    split; [apply child_grows_refl|done].
Qed.

Lemma stdin_write_child p line q w c :
  procs w !! q = Some c →
  ∃ c', procs (stdin_write p line w) !! q = Some c' ∧ child_grows c c'.
Proof.
  apply alter_grows. intros c0. destruct (c_writable c0); by repeat split.
Qed.

Lemma stdin_end_child p q w c :
  procs w !! q = Some c →
  ∃ c', procs (stdin_end p w) !! q = Some c' ∧ child_grows c c'.
Proof. apply alter_grows. intros c0. by repeat split. Qed.

Lemma run_timer_child a w q c :
  procs w !! q = Some c →
  ∃ c', procs (run_timer a w) !! q = Some c' ∧ child_grows c c'.
Proof.
  intros E. destruct a as [p line|p|p|p|sid]; simpl.
  - destruct (execs w !! p) as [x|]; [|eauto using child_grows_refl].
    destruct (x_killed x); [eauto using child_grows_refl|].
    by apply stdin_write_child.
  - by apply stdin_end_child.
  - destruct (kill_child p SIGTERM q w c E) as (c' & H1 & H2 & _).
    exists c'. by split.
  - destruct (kill_child p SIGKILL q w c E) as (c' & H1 & H2 & _).
    exists c'. by split.
  - unfold stopRunSession. destruct (runSessions w !! sid) as [p|];
      [|simpl; eauto using child_grows_refl].
    destruct (kill_child p SIGTERM q w c E) as (c' & H1 & H2 & _).
    exists c'. by split.
Qed.

Lemma fire_child t w q c :
  procs w !! q = Some c →
  ∃ c', procs (fire t w) !! q = Some c' ∧ child_grows c c'.
Proof. intros E. unfold fire. by apply run_timer_child. Qed.

Lemma fire_now t w : now (fire t w) = N.max (now w) (t_due t).
Proof.
  unfold fire. destruct (t_act t) as [p line|p|p|p|sid]; simpl; try done.
  - by repeat case_match.
  - unfold stopRunSession. by repeat case_match.
Qed.

Lemma fire_runSessions t w : runSessions (fire t w) = runSessions w.
Proof.
  unfold fire. destruct (t_act t) as [p line|p|p|p|sid]; simpl; try done.
  - by repeat case_match.
  - unfold stopRunSession. by repeat case_match.
Qed.

(** The first stage has happened to the child [p], which has not exited:
    SIGTERM is delivered, and SIGKILL is delivered or due by [D]. *)
Definition escalated (p : nat) (D : N) (w : World) : Prop :=
  ∃ c, procs w !! p = Some c ∧ c_exited c = false ∧ SIGTERM ∈ c_signals c ∧
       (SIGKILL ∈ c_signals c ∨
        ∃ tk, tk ∈ timers w ∧ t_act tk = TaForceKill p ∧ t_due tk ≤ D).

Definition force_killed (p : nat) (w : World) : Prop :=
  ∃ c, procs w !! p = Some c ∧ SIGTERM ∈ c_signals c ∧ SIGKILL ∈ c_signals c.

Lemma escalated_fire p D w t' :
  escalated p D w → t' ∈ timers w → escalated p D (fire t' w).
Proof.
  intros (c & E & Hx & Hterm & Hkill) Hin.
  destruct (fire_child t' w p c E) as (c' & E' & Hx' & _ & Hs).
  destruct Hkill as [Hk|(tk & Htk & Ha & Hd)].
  - exists c'. rewrite Hx'. auto 6.
  - destruct (decide (tk = t')) as [->|Hne].
    + unfold fire in *. rewrite Ha in *. simpl in *.
      destruct (kill_child p SIGKILL p
                  (set_now (now w `max` t_due t')
                     (set_timers (unqueue t' (timers w)) (next_timer w) w)) c E)
        as (c2 & E2 & (Hx2 & _ & Hs2) & Hk2).
      exists c2. rewrite Hx2. auto 6.
    + exists c'. rewrite Hx'. repeat split; auto.
      right. exists tk. repeat split; auto. by apply fire_keeps.
Qed.

Lemma force_killed_fire p w t' : force_killed p w → force_killed p (fire t' w).
Proof.
  intros (c & E & Hterm & Hkill).
  destruct (fire_child t' w p c E) as (c' & E' & _ & _ & Hs).
  exists c'. auto.
Qed.

(** The batch timeout fires. *)
Lemma fire_batch_timeout t p w c :
  t_act t = TaBatchTimeout p → procs w !! p = Some c → c_exited c = false →
  escalated p (N.max (now w) (t_due t) + 1000) (fire t w) ∧
  (x_killed <$> execs (fire t w) !! p) = (λ _, true) <$> execs w !! p.
Proof.
  intros Ha E Hx. unfold fire. rewrite Ha. simpl. split.
  - destruct (kill_child p SIGTERM p w c E) as (c' & E' & (Hx' & _) & Hk).
    simpl in E'. exists c'. rewrite Hx'. repeat split; auto.
    right. eexists. split; [apply elem_of_app; right; by left|]. simpl. done.
  - rewrite lookup_alter_eq. by destruct (execs w !! p).
Qed.

(** The idle timer of a registered session fires. *)
Lemma fire_idle_stop t sessionId p w c :
  t_act t = TaIdleStop sessionId → runSessions w !! sessionId = Some p →
  procs w !! p = Some c → c_exited c = false →
  escalated p (N.max (now w) (t_due t) + 1000) (fire t w).
Proof.
  intros Ha Et E Hx. unfold fire. rewrite Ha. simpl. unfold stopRunSession. simpl.
  rewrite Et. simpl.
  destruct (kill_child p SIGTERM p w c E) as (c' & E' & (Hx' & _) & Hk).
  simpl in E'. exists c'. rewrite Hx'. repeat split; auto.
  right. eexists. split; [apply elem_of_app; right; by left|]. simpl. done.
Qed.

Lemma escalated_weaken p D D' w : escalated p D w → D ≤ D' → escalated p D' w.
Proof.
  intros (c & E & Hx & Ht & [Hk|(tk & ? & ? & ?)]) Hle; exists c; repeat split; auto.
  right. exists tk. repeat split; auto. lia.
Qed.

(** Time passes until a pending timeout or idle timer is due: the first
    stage of the termination happens, the second is due 1000 ms after the
    end of the wait at the latest. *)
Lemma advance_escalates t p dt w c :
  t ∈ timers w → t_due t ≤ now w + dt →
  procs w !! p = Some c → c_exited c = false →
  (t_act t = TaBatchTimeout p ∨
   ∃ sessionId, t_act t = TaIdleStop sessionId ∧ runSessions w !! sessionId = Some p) →
  escalated p (now w + dt + 1000) (advance dt w).
Proof.
  intros Hin Hdue E Hx Ha. unfold advance.
  set (T := now w + dt).
  set (G := λ w', now w' ≤ T ∧ runSessions w' = runSessions w ∧
                  ∃ c', procs w' !! p = Some c' ∧ c_exited c' = false).
  cut (escalated p (T + 1000) (run_until (weight (timers w)) T w)).
  { intros (c' & ?). by exists c'. }
  apply (run_until_fires G (escalated p (T + 1000)) t T); try done.
  - intros w' t' (Hn & Hr & c' & E' & Hx') Hin' Hd' _. repeat split.
    + rewrite fire_now. lia.
    + by rewrite fire_runSessions.
    + destruct (fire_child t' w' p c' E') as (c2 & E2 & Hx2 & _). exists c2.
      split; [done|congruence].
  - intros w' (Hn & Hr & c' & E' & Hx') Hin'.
    apply (escalated_weaken p (N.max (now w') (t_due t) + 1000)); [|lia].
    destruct Ha as [Ha|(sid & Ha & Hs)].
    + by apply (fire_batch_timeout t p w' c').
    + apply (fire_idle_stop t sid p w' c'); try done. by rewrite Hr.
  - intros w' t' He Hin' _. by apply escalated_fire.
  - repeat split; [unfold T; lia|eauto].
Qed.

(** Time passes until the second stage is due: SIGKILL is delivered. *)
Lemma advance_force_kills p D dt w :
  escalated p D w → D ≤ now w + dt → force_killed p (advance dt w).
Proof.
  intros (c & E & Hx & Hterm & Hkill) Hle. unfold advance.
  set (T := now w + dt).
  cut (force_killed p (run_until (weight (timers w)) T w)).
  { intros (c' & ?). by exists c'. }
  assert (Hstable : ∀ fuel w', force_killed p w' → force_killed p (run_until fuel T w')).
  { induction fuel as [|fuel IH]; intros w' Hp; simpl; [done|].
    repeat case_match; auto using force_killed_fire. }
  destruct Hkill as [Hk|(tk & Htk & Ha & Hd)].
  - apply Hstable. by exists c.
  - apply (run_until_fires (escalated p D) (force_killed p) tk T); try done.
    + intros w' t' He Hin' _ _. by apply escalated_fire.
    + intros w' (c' & E' & Hx' & Ht' & _) Hin'. unfold fire. rewrite Ha. simpl.
      destruct (kill_child p SIGKILL p
                  (set_now (now w' `max` t_due tk)
                     (set_timers (unqueue tk (timers w')) (next_timer w') w')) c' E')
        as (c2 & E2 & (_ & _ & Hs2) & Hk2).
      exists c2. auto.
    + intros w' t' Hp _ _. by apply force_killed_fire.
    + unfold T. lia.
    + exists c. repeat split; auto. right. by exists tk.
Qed.

(** ** [execWithInput]: delivery of the scripted inputs *)

Lemma write_timers_due child rest x id t0 t :
  t ∈ write_timers child rest x id t0 → t0 + x * 100 ≤ t_due t.
Proof.
  revert x id. induction rest as [|i rest IH]; intros x id Hin; simpl in *;
    [by inversion Hin|].
  apply elem_of_cons in Hin as [->|Hin]; simpl; [lia|]. apply IH in Hin. lia.
Qed.

(** The timer callback [a] acts on the child [p]. *)
Definition acts_on (p : nat) (a : TimerAction) : bool :=
  match a with
  | TaWriteInput q _ | TaEndInput q | TaBatchTimeout q | TaForceKill q => bool_decide (q = p)
  | TaIdleStop _ => false
  end.

(** The handle [p] is not in use: no pending timer acts on the child [p]
    and no session is stored under it.  This holds of the handle of a
    child that is about to be spawned. *)
Definition unused (p : nat) (w : World) : bool :=
  forallb (λ t, negb (acts_on p (t_act t))) (timers w)
  && forallb (λ kv, negb (bool_decide (kv.2 = p))) (map_to_list (runSessions w)).

(** The pending timer [t] acts on the child [p]. *)
Definition ours (p : nat) (t : Timer) : Prop := acts_on p (t_act t) = true.

Global Instance ours_dec p t : Decision (ours p t).
Proof. unfold ours. apply _. Defined.

Lemma unused_timers p w : unused p w = true → filter (ours p) (timers w) = [].
Proof.
  intros [H _]%andb_true_iff. revert H.
  induction (timers w) as [|t l IH]; intros H; [done|].
  simpl in H. apply andb_true_iff in H as [Ht Hl]. rewrite filter_cons.
  rewrite decide_False; [auto|]. unfold ours. by destruct (acts_on p (t_act t)).
Qed.

Lemma unused_table p w : unused p w = true → ∀ sid, runSessions w !! sid ≠ Some p.
Proof.
  intros [_ Hf]%andb_true_iff sid Hs. rewrite forallb_forall in Hf.
  apply elem_of_map_to_list in Hs. apply list_elem_of_In in Hs. apply Hf in Hs.
  simpl in Hs. by rewrite bool_decide_eq_true_2 in Hs.
Qed.

Lemma earliest_filter (P : Timer → Prop) `{!∀ t, Decision (P t)} l t :
  earliest l = Some t → P t → earliest (filter P l) = Some t.
Proof.
  revert t. induction l as [|t0 l IH]; intros t He Ht; [done|].
  simpl in He. rewrite filter_cons.
  destruct (earliest l) as [t'|] eqn:E.
  - destruct (t_due t' <? t_due t0) eqn:C; injection He as <-.
    + specialize (IH t' eq_refl Ht). destruct (decide (P t0)); [|done].
      simpl. by rewrite IH, C.
    + rewrite decide_True by done. simpl.
      destruct (earliest (filter P l)) as [t''|] eqn:E'; [|done].
      apply earliest_elem, list_elem_of_filter in E' as [_ Hin].
      pose proof (earliest_min _ _ _ E Hin). apply N.ltb_ge in C.
      by rewrite (proj2 (N.ltb_ge _ _)) by lia.
  - injection He as <-. apply earliest_None in E as ->.
    by rewrite decide_True by done.
Qed.

Lemma filter_unqueue_in (P : Timer → Prop) `{!∀ t, Decision (P t)} t l :
  P t → filter P (unqueue t l) = unqueue t (filter P l).
Proof.
  intros Ht. induction l as [|t0 l IH]; [done|]. simpl. rewrite filter_cons.
  destruct (decide (t0 = t)) as [->|Hne].
  - rewrite decide_True by done. simpl. by rewrite decide_True.
  - rewrite filter_cons. destruct (decide (P t0)); [|done].
    simpl. rewrite decide_False by done. by rewrite IH.
Qed.

Lemma filter_unqueue_out (P : Timer → Prop) `{!∀ t, Decision (P t)} t l :
  ¬ P t → filter P (unqueue t l) = filter P l.
Proof.
  intros Ht. induction l as [|t0 l IH]; [done|]. simpl. rewrite filter_cons.
  destruct (decide (t0 = t)) as [->|Hne].
  - by rewrite decide_False.
  - rewrite filter_cons. by rewrite IH.
Qed.

Lemma unqueue_app_notin t l1 l2 : t ∉ l1 → unqueue t (l1 ++ l2) = l1 ++ unqueue t l2.
Proof.
  induction l1 as [|t0 l1 IH]; intros H; [done|]. simpl.
  apply not_elem_of_cons in H as [Hne H]. rewrite decide_False by done. by rewrite IH.
Qed.

Lemma run_until_invariant (I : World → Prop) T :
  (∀ w t, I w → earliest (timers w) = Some t → t_due t ≤ T → I (fire t w)) →
  ∀ fuel w, I w → I (run_until fuel T w).
Proof.
  intros H. induction fuel as [|fuel IH]; intros w Hw; simpl; [done|].
  destruct (earliest (timers w)) as [t|] eqn:E; [|done].
  destruct (t_due t <=? T) eqn:C; [|done]. apply N.leb_le in C. by apply IH, H.
Qed.

(** The callback of a timer that does not act on [p], in a world where no
    session is stored under [p], leaves the child [p] and its batch run
    alone, and sets no timer that acts on [p]. *)
Lemma run_timer_elsewhere p a w :
  acts_on p a = false → (∀ sid, runSessions w !! sid ≠ Some p) →
  procs (run_timer a w) !! p = procs w !! p ∧
  execs (run_timer a w) !! p = execs w !! p ∧
  filter (ours p) (timers (run_timer a w)) = filter (ours p) (timers w).
Proof.
  intros Ha Ht.
  destruct a as [q line|q|q|q|sid]; simpl in Ha;
    try (apply bool_decide_eq_false in Ha); simpl.
  - destruct (execs w !! q) as [x|]; [|done]. destruct (x_killed x); [done|].
    simpl. by rewrite lookup_alter_ne.
  - by rewrite lookup_alter_ne.
  - rewrite !lookup_alter_ne by done. split; [done|]. split; [done|].
    rewrite filter_app, filter_cons. simpl.
    rewrite decide_False by (unfold ours; simpl; by rewrite bool_decide_eq_false_2).
    by rewrite app_nil_r.
  - by rewrite lookup_alter_ne.
  - unfold stopRunSession. destruct (runSessions w !! sid) as [q|] eqn:E; [|done].
    assert (q ≠ p) by (intros ->; by apply (Ht sid)).
    simpl. rewrite lookup_alter_ne by done. split; [done|]. split; [done|].
    rewrite filter_app, filter_cons. simpl.
    rewrite decide_False by (unfold ours; simpl; by rewrite bool_decide_eq_false_2).
    by rewrite app_nil_r.
Qed.

Lemma write_timers_ours child inputs x id t0 :
  filter (ours child) (write_timers child inputs x id t0) = write_timers child inputs x id t0.
Proof.
  revert x id. induction inputs as [|i rest IH]; intros x id; [done|]. simpl.
  rewrite filter_cons, decide_True, IH; [done|]. unfold ours. simpl.
  by rewrite bool_decide_eq_true_2.
Qed.

Lemma write_timers_act child inputs x id t0 t :
  t ∈ write_timers child inputs x id t0 → ∃ line, t_act t = TaWriteInput child line.
Proof.
  revert x id. induction inputs as [|i rest IH]; intros x id Hin; simpl in *;
    [by apply elem_of_nil in Hin|].
  apply elem_of_cons in Hin as [->|Hin]; [simpl; eauto|eauto].
Qed.

Section Interleaved.
Variables (p : nat) (t0 T : N) (inputs : list string) (idw ide idt : nat).

Let n : nat := length inputs.
Let endT : Timer :=
  {| t_id := ide; t_due := t0 + (N.of_nat n * 100 + 100); t_act := TaEndInput p |}.
Let toT : Timer := {| t_id := idt; t_due := t0 + 10000; t_act := TaBatchTimeout p |}.

(** The writes still pending when the first [m] have fired. *)
Definition pending_writes (m : nat) : list Timer :=
  write_timers p (drop m inputs) (N.of_nat m) (idw + m) t0.

(** The batch run of the child [p] after [m] of its writes have fired;
    [e]: the end of its input has fired (or was never set); [k]: its
    timeout has fired. *)
Record delivering (m : nat) (e k : bool) (w : World) : Prop := {
  dl_table : ∀ sid, runSessions w !! sid ≠ Some p;
  dl_queue : ∃ K, filter (ours p) (timers w)
                  = pending_writes m ++ (if e then [] else [endT]) ++ K ∧
                  if k then ∀ t, t ∈ K → t_act t = TaForceKill p else K = [toT];
  dl_exec : ∃ xx, execs w !! p = Some xx ∧ x_killed xx = k;
  dl_child : ∃ c, procs w !! p = Some c ∧
                  c_stdin c = (λ i, i +:+ LF) <$> take (m `min` 101) inputs ∧
                  c_writable c = negb e;
  dl_none : inputs = [] → e = true;
  dl_m : (m ≤ n)%nat;
  dl_end : e = true → m = n;
  dl_early : k = false → (m ≤ 101)%nat;
  dl_late : k = true → (101 ≤ m)%nat ∨ m = n;
  dl_fired : (0 < m)%nat → t0 + N.of_nat (m - 1) * 100 ≤ T;
  dl_ended : e = true → inputs = [] ∨ t0 + (N.of_nat n * 100 + 100) ≤ T
}.

Lemma pending_writes_S m i :
  inputs !! m = Some i →
  pending_writes m
  = {| t_id := (idw + m)%nat; t_due := t0 + N.of_nat m * 100;
       t_act := TaWriteInput p (i +:+ LF) |} :: pending_writes (S m).
Proof.
  intros Hi. unfold pending_writes. rewrite (drop_S _ _ _ Hi). simpl.
  by rewrite Nat.add_succ_r, Nat2N.inj_succ, N.add_1_r.
Qed.

Lemma pending_writes_done m : (n ≤ m)%nat → pending_writes m = [].
Proof. intros H. unfold pending_writes. by rewrite drop_ge. Qed.

Lemma pending_writes_due m t :
  t ∈ pending_writes m → t0 + N.of_nat m * 100 ≤ t_due t.
Proof. apply write_timers_due. Qed.

Lemma pending_writes_head m i t :
  inputs !! m = Some i → t ∈ pending_writes m → t_due t ≤ t0 + N.of_nat m * 100 →
  t = {| t_id := (idw + m)%nat; t_due := t0 + N.of_nat m * 100;
         t_act := TaWriteInput p (i +:+ LF) |}.
Proof.
  intros Hi Hin Hd. rewrite (pending_writes_S _ _ Hi) in Hin.
  apply elem_of_cons in Hin as [->|Hin]; [done|].
  apply pending_writes_due in Hin. lia.
Qed.

Lemma step_delivering w t :
  (∃ m e k, delivering m e k w) →
  earliest (timers w) = Some t → t_due t ≤ T →
  ∃ m e k, delivering m e k (fire t w).
Proof.
  intros (m & e & k & [Htab (K & Hq & HK) (xx & Ex & Hxk) (c & Ec & Hin & Hw)
                       Hnone Hm He Hearly Hlate Hfired Hended]) Hear Hdue.
  assert (Htab' : ∀ sid, runSessions (fire t w) !! sid ≠ Some p)
    by (intros sid; rewrite fire_runSessions; apply Htab).
  set (w1 := set_now (N.max (now w) (t_due t))
               (set_timers (unqueue t (timers w)) (next_timer w) w)).
  assert (Hf : fire t w = run_timer (t_act t) w1) by done.
  assert (Hp1 : procs w1 = procs w) by done.
  assert (Hx1 : execs w1 = execs w) by done.
  assert (Ht1 : timers w1 = unqueue t (timers w)) by done.
  assert (Hr1 : runSessions w1 = runSessions w) by done.
  clearbody w1.
  destruct (decide (ours p t)) as [Ho|Ho].
  - (* one of the timers of the run *)
    assert (Hq1 : filter (ours p) (timers w1)
                  = unqueue t (pending_writes m ++ (if e then [] else [endT]) ++ K))
      by (by rewrite Ht1, filter_unqueue_in, Hq).
    pose proof (earliest_filter (ours p) _ _ Hear Ho) as Hear'. rewrite Hq in Hear'.
    assert (Hmin : ∀ t', t' ∈ pending_writes m ++ (if e then [] else [endT]) ++ K →
                         t_due t ≤ t_due t') by (intros; by eapply earliest_min).
    pose proof (earliest_elem _ _ Hear') as Ht.
    apply elem_of_app in Ht as [Ht|Ht]; [|apply elem_of_app in Ht as [Ht|Ht]].
    + (* a write *)
      destruct (inputs !! m) as [i|] eqn:Hi; last first.
      { apply lookup_ge_None in Hi. rewrite pending_writes_done in Ht by done.
        by apply elem_of_nil in Ht. }
      pose proof (lookup_lt_Some _ _ _ Hi) as Hlt. fold n in Hlt.
      assert (e = false) as -> by (destruct e; [specialize (He eq_refl); lia|done]).
      assert (Hhead : t = {| t_id := (idw + m)%nat; t_due := t0 + N.of_nat m * 100;
                             t_act := TaWriteInput p (i +:+ LF) |}).
      { apply (pending_writes_head m i t Hi Ht).
        apply (Hmin {| t_id := (idw + m)%nat; t_due := t0 + N.of_nat m * 100;
                       t_act := TaWriteInput p (i +:+ LF) |}).
        rewrite (pending_writes_S _ _ Hi). by left. }
      assert (Hq2 : filter (ours p) (timers w1) = pending_writes (S m) ++ [endT] ++ K).
      { rewrite Hq1, (pending_writes_S _ _ Hi), <- Hhead. simpl.
        by rewrite decide_True. }
      assert (Hdue' : t0 + N.of_nat (S m - 1) * 100 ≤ T).
      { rewrite Hhead in Hdue. simpl in Hdue. by replace (S m - 1)%nat with m by lia. }
      assert (Hrun : fire t w
                     = if k then w1 else stdin_write p (i +:+ LF) w1).
      { rewrite Hf, Hhead. cbn [t_act run_timer]. by rewrite Hx1, Ex, Hxk. }
      rewrite Hrun in *. clear Hrun. destruct k.
      * (* after the timeout: the write is skipped *)
        destruct (Hlate eq_refl) as [H101|?]; [|lia].
        exists (S m), false, true. split.
        -- done.
        -- by exists K.
        -- exists xx. by rewrite Hx1.
        -- exists c. rewrite Hp1. split; [done|]. split; [|done].
           rewrite Hin. by replace (S m `min` 101)%nat with (m `min` 101)%nat by lia.
        -- intros ->. done.
        -- lia.
        -- done.
        -- done.
        -- intros _. left. lia.
        -- done.
        -- done.
      * (* before the timeout: the line is written *)
        subst K.
        assert (H100 : (m ≤ 100)%nat).
        { specialize (Hmin toT). rewrite Hhead in Hmin. simpl in Hmin.
          assert (t0 + N.of_nat m * 100 ≤ t0 + 10000); [|lia].
          apply Hmin. rewrite !elem_of_app. right. right. by left. }
        exists (S m), false, false. unfold stdin_write, upd_child in *. split.
        -- done.
        -- by exists [toT].
        -- exists xx. cbn [execs set_procs]. by rewrite Hx1.
        -- replace (S m `min` 101)%nat with (S m) by lia.
           rewrite (take_S_r _ _ _ Hi), fmap_app.
           replace (m `min` 101)%nat with m in Hin by lia.
           cbn [procs set_procs]. rewrite Hp1, lookup_alter_eq, Ec. simpl.
           rewrite Hw. simpl. eexists. split; [reflexivity|]. simpl.
           by rewrite Hin.
        -- intros ->. done.
        -- lia.
        -- done.
        -- intros _. lia.
        -- done.
        -- done.
        -- done.
    + (* the end of the input *)
      destruct e; [by apply elem_of_nil in Ht|].
      apply list_elem_of_singleton in Ht.
      assert (Hmn : m = n).
      { destruct (inputs !! m) as [i|] eqn:Hi.
        - pose proof (lookup_lt_Some _ _ _ Hi) as Hlt. fold n in Hlt.
          specialize (Hmin {| t_id := (idw + m)%nat; t_due := t0 + N.of_nat m * 100;
                              t_act := TaWriteInput p (i +:+ LF) |}).
          rewrite Ht in Hmin. simpl in Hmin.
          assert (t0 + (N.of_nat n * 100 + 100) ≤ t0 + N.of_nat m * 100); [|lia].
          apply Hmin. rewrite (pending_writes_S _ _ Hi). by left.
        - apply lookup_ge_None in Hi. fold n in Hi. lia. }
      assert (Hq2 : filter (ours p) (timers w1) = pending_writes m ++ [] ++ K).
      { rewrite Hq1, !pending_writes_done by lia. rewrite Ht. simpl.
        by rewrite decide_True. }
      assert (Hrun : fire t w = stdin_end p w1) by (by rewrite Hf, Ht).
      rewrite Hrun in *. clear Hrun. unfold stdin_end, upd_child in *.
      exists m, true, k. split.
      * done.
      * by exists K.
      * exists xx. cbn [execs set_procs]. by rewrite Hx1.
      * cbn [procs set_procs]. rewrite Hp1, lookup_alter_eq, Ec. simpl.
        eexists. split; [reflexivity|]. by simpl.
      * done.
      * done.
      * done.
      * done.
      * done.
      * done.
      * intros _. right. by rewrite Ht in Hdue.
    + (* the timeout, or the forced kill it set *)
      assert (Hnw : t ∉ pending_writes m).
      { intros (line & Ha)%write_timers_act. destruct k.
        - rewrite (HK _ Ht) in Ha. done.
        - subst K. apply list_elem_of_singleton in Ht. by rewrite Ht in Ha. }
      assert (Hne : t ≠ endT).
      { intros ->. destruct k.
        - by specialize (HK _ Ht).
        - subst K. by apply list_elem_of_singleton in Ht. }
      assert (Hq2 : filter (ours p) (timers w1)
                    = pending_writes m ++ (if e then [] else [endT]) ++ unqueue t K).
      { rewrite Hq1, unqueue_app_notin by done. f_equal.
        destruct e; [done|]. simpl. by rewrite decide_False. }
      destruct k.
      * (* the forced kill *)
        assert (Hrun : fire t w = kill p SIGKILL w1) by (by rewrite Hf, (HK _ Ht)).
        rewrite Hrun in *. clear Hrun. unfold kill, upd_child in *.
        exists m, e, true. split.
        -- done.
        -- exists (unqueue t K). split; [done|].
           intros t' Ht'%elem_unqueue. by apply HK.
        -- exists xx. cbn [execs set_procs]. by rewrite Hx1.
        -- cbn [procs set_procs]. rewrite Hp1, lookup_alter_eq, Ec. simpl.
           eexists. split; [reflexivity|]. by destruct (c_exited c).
        -- done.
        -- done.
        -- done.
        -- done.
        -- done.
        -- done.
        -- done.
      * (* the timeout *)
        subst K. apply list_elem_of_singleton in Ht.
        simpl in Hq2. rewrite decide_True in Hq2 by done.
        assert (Hlate' : (101 ≤ m)%nat ∨ m = n).
        { destruct (inputs !! m) as [i|] eqn:Hi.
          - left. destruct (decide (m ≤ 100)%nat) as [H100|]; [|lia]. exfalso.
            rewrite (pending_writes_S _ _ Hi) in Hear'.
            pose proof (lookup_lt_Some _ _ _ Hi) as Hlt. fold n in Hlt.
            rewrite <- app_comm_cons, earliest_head in Hear'.
            + injection Hear' as <-. done.
            + intros t' Ht'. simpl.
              apply elem_of_app in Ht' as [Ht'|Ht'].
              * apply pending_writes_due in Ht'. lia.
              * destruct e.
                -- apply list_elem_of_singleton in Ht' as ->. simpl. lia.
                -- apply elem_of_cons in Ht' as [->|Ht']; [simpl; lia|].
                   apply list_elem_of_singleton in Ht' as ->. simpl. lia.
          - right. apply lookup_ge_None in Hi. fold n in Hi. lia. }
        assert (Hrun : fire t w = run_timer (TaBatchTimeout p) w1) by (by rewrite Hf, Ht).
        rewrite Hrun in *. clear Hrun. cbn [run_timer] in *.
        unfold setTimeout, kill, set_exec, upd_child in *.
        exists m, e, true. split.
        -- done.
        -- eexists. cbn [timers set_timers set_procs set_execs snd].
           rewrite filter_app, Hq2, filter_cons, decide_True by
             (unfold ours; simpl; by rewrite bool_decide_eq_true_2).
           rewrite filter_nil, app_nil_r, <- !app_assoc. split; [reflexivity|].
           intros t' ->%list_elem_of_singleton. done.
        -- cbn [execs set_timers set_procs set_execs snd].
           rewrite Hx1, lookup_alter_eq, Ex. simpl. eauto.
        -- cbn [procs set_timers set_procs set_execs snd].
           rewrite Hp1, lookup_alter_eq, Ec. simpl.
           eexists. split; [reflexivity|]. by destruct (c_exited c).
        -- done.
        -- done.
        -- done.
        -- done.
        -- done.
        -- done.
        -- done.
  - (* a timer of somebody else *)
    assert (Ha : acts_on p (t_act t) = false).
    { unfold ours in Ho. by destruct (acts_on p (t_act t)). }
    destruct (run_timer_elsewhere p (t_act t) w1 Ha) as (Hp & Hx & Hq');
      [by rewrite Hr1|].
    exists m, e, k. split.
    + done.
    + exists K. split; [|done]. by rewrite Hf, Hq', Ht1, filter_unqueue_out.
    + exists xx. by rewrite Hf, Hx, Hx1.
    + exists c. by rewrite Hf, Hp, Hp1.
    + done.
    + done.
    + done.
    + done.
    + done.
    + done.
    + done.
Qed.

(** At rest, when nothing more is due by [T = t0 + dt]. *)
Lemma delivering_at_rest m e k w dt :
  delivering m e k w → T = t0 + dt →
  (∀ t, t ∈ timers w → T < t_due t) →
  ∃ c, procs w !! p = Some c ∧
       c_stdin c = (λ i, i +:+ LF) <$> take ((N.to_nat (dt / 100) + 1) `min` 101) inputs ∧
       c_writable c = match inputs with
                      | [] => false
                      | _ => negb (N.of_nat n * 100 + 100 <=? dt)
                      end.
Proof.
  intros [Htab (K & Hq & HK) (xx & Ex & Hxk) (c & Ec & Hin & Hw)
          Hnone Hm He Hearly Hlate Hfired Hended] HT Hrest.
  assert (Hpend : ∀ t, t ∈ pending_writes m ++ (if e then [] else [endT]) ++ K →
                       t0 + dt < t_due t).
  { intros t Ht. rewrite <- HT. apply Hrest. rewrite <- Hq in Ht.
    by apply list_elem_of_filter in Ht as [_ ?]. }
  exists c. split; [done|]. split.
  - rewrite Hin. f_equal.
    destruct (inputs !! m) as [i|] eqn:Hi.
    + specialize (Hpend {| t_id := (idw + m)%nat; t_due := t0 + N.of_nat m * 100;
                           t_act := TaWriteInput p (i +:+ LF) |}).
      simpl in Hpend. rewrite (pending_writes_S _ _ Hi) in Hpend.
      specialize (Hpend ltac:(by left)).
      assert (Hpos : (0 < m)%nat) by lia. specialize (Hfired Hpos).
      assert (dt / 100 = N.of_nat (m - 1)) as ->.
      { symmetry. apply N.div_unique with (dt - N.of_nat (m - 1) * 100); lia. }
      f_equal. lia.
    + apply lookup_ge_None in Hi. fold n in Hi. assert (m = n) as -> by lia.
      destruct (decide (n = 0)%nat) as [H0|H0].
      { apply nil_length_inv in H0. rewrite H0. by rewrite !take_nil. }
      specialize (Hfired ltac:(lia)).
      assert (N.of_nat (n - 1) ≤ dt / 100) by (apply N.div_le_lower_bound; lia).
      destruct (decide (101 ≤ n)%nat).
      * f_equal. lia.
      * rewrite !take_ge; [done|fold n; lia..].
  - rewrite Hw. destruct e.
    + destruct (Hended eq_refl) as [->|HE]; [done|].
      destruct inputs; [done|]. simpl. by rewrite (proj2 (N.leb_le _ _)) by lia.
    + destruct inputs as [|i0 rest] eqn:Ei; [by specialize (Hnone eq_refl)|].
      specialize (Hpend endT). simpl in Hpend.
      rewrite !elem_of_app in Hpend. specialize (Hpend ltac:(right; left; by left)).
      simpl. by rewrite (proj2 (N.leb_gt _ _)) by (simpl in Hpend; lia).
Qed.

End Interleaved.

(** C9 as stated fails: with the single input ["a"], written at time 0,
    the input stream is still open 150 ms later; it is closed at 200 ms,
    that is [inputs.length * 100 + 100] after the spawn. *)
Lemma input_stream_open_150_after_last_input :
  ¬ (∀ inputs dt,
       inputs ≠ [] → N.of_nat (length inputs - 1) * 100 + 100 ≤ dt →
       (c_writable <$>
          procs (run [EvRunCode 1 "python" "print(input())" inputs; EvAdvance dt]
                     demo_world) !! 0%nat) = Some false).
Proof.
  intros H. specialize (H ["a"] 150 ltac:(done) ltac:(simpl; lia)).
  vm_compute in H. discriminate H.
Qed.

(** C9, amended.  A batch run whose child is spawned at time [t] sets,
    in declaration order and behind the timers that are already pending,
    one timer per scripted input: input number [j] is to be written,
    followed by a line feed, at [t + 100 * j]; the end of the input is set
    for [t + 100 * n + 100] for [n > 0] inputs, that is 200 ms after the
    last write, and happens at once for no input.  Whatever other timers
    are pending, [dt] ms after the spawn a child that is still running has
    received exactly the inputs due by then and by the 10000 ms timeout,
    in order: the first [dt / 100 + 1] of them and never more than the
    first 101, since the timeout stops the writes that are due after it.
    The handle of the new child is not in use before the spawn, as in every
    state reached from start-up ([reachable_handles_are_unused] below). *)
Theorem scripted_inputs_delivery
    (cmd : string) (args inputs : list string) (k : Cont) (w : World) (dt : N) :
  unused (next_pid w) w = true →
  let child := next_pid w in
  let n := length inputs in
  let w0 := execWithInput cmd args inputs k w in
  (∀ j i, inputs !! j = Some i →
     timers w0 !! (length (timers w) + j)%nat
     = Some {| t_id := (next_timer w + j)%nat; t_due := now w + N.of_nat j * 100;
               t_act := TaWriteInput child (i +:+ LF) |}) ∧
  (inputs ≠ [] → timers w0 !! (length (timers w) + n)%nat = Some (end_timer child n w)) ∧
  ∃ c, procs (advance dt w0) !! child = Some c ∧
       c_stdin c = (λ i, i +:+ LF) <$> take ((N.to_nat (dt / 100) + 1) `min` 101) inputs ∧
       c_writable c = match inputs with
                      | [] => false
                      | _ => negb (N.of_nat n * 100 + 100 <=? dt)
                      end.
Proof.
  intros Hu. cbv zeta.
  pose proof (unused_timers _ _ Hu) as Hnone.
  pose proof (unused_table _ _ Hu) as Htab.
  split; [|split].
  - intros j i Hj. rewrite execWithInput_spec. cbv zeta.
    destruct inputs as [|i0 rest]; [done|]. cbn [timers set_execs set_timers].
    rewrite lookup_app_r, (Nat.add_comm (length (timers w))), Nat.add_sub by lia.
    rewrite lookup_app_l by (rewrite length_write_timers; by apply lookup_lt_Some in Hj).
    by rewrite (write_timers_lookup _ _ _ _ _ _ _ Hj).
  - intros Hne. rewrite execWithInput_spec. cbv zeta.
    destruct inputs as [|i0 rest]; [done|]. cbn [timers set_execs set_timers].
    rewrite lookup_app_r, (Nat.add_comm (length (timers w))), Nat.add_sub by lia.
    rewrite lookup_app_r by (by rewrite length_write_timers).
    by rewrite length_write_timers, Nat.sub_diag.
  - set (w0 := execWithInput cmd args inputs k w).
    set (n := length inputs).
    assert (H0 : delivering (next_pid w) (now w) (now w + dt) inputs (next_timer w)
                   (next_timer w + n)
                   (match inputs with [] => next_timer w | _ => S (next_timer w + n) end)
                   0 (match inputs with [] => true | _ => false end) false w0).
    { unfold w0. rewrite execWithInput_spec. cbv zeta.
      destruct inputs as [|i0 rest] eqn:Ei; rewrite <- ?Ei.
      - split.
        + done.
        + exists [timeout_timer (next_pid w) (next_timer w) w]. split; [|done].
          cbn [timers set_execs set_timers].
          rewrite filter_app, Hnone, filter_cons, decide_True; [by rewrite Ei|].
          unfold ours. simpl. by rewrite bool_decide_eq_true_2.
        + eexists. cbn [execs set_execs]. by rewrite lookup_insert_eq.
        + eexists. cbn [procs set_execs set_timers set_procs].
          rewrite lookup_insert_eq. split; [reflexivity|]. by rewrite Ei.
        + done.
        + lia.
        + intros _. by rewrite Ei.
        + intros _. lia.
        + done.
        + lia.
        + intros _. by left.
      - split.
        + done.
        + exists [timeout_timer (next_pid w) (S (next_timer w + n)) w]. split; [|done].
          cbn [timers set_execs set_timers].
          rewrite !filter_app, Hnone, write_timers_ours, !filter_cons, !decide_True;
            try (unfold ours; simpl; by rewrite bool_decide_eq_true_2).
          unfold pending_writes. rewrite drop_0, Nat.add_0_r. unfold n. by rewrite Ei.
        + eexists. cbn [execs set_execs]. by rewrite lookup_insert_eq.
        + eexists. cbn [procs set_execs set_timers set_procs].
          rewrite lookup_insert_eq. split; [reflexivity|]. done.
        + by rewrite Ei.
        + lia.
        + done.
        + intros _. lia.
        + done.
        + lia.
        + done. }
    assert (Hnow : now w0 = now w)
      by (unfold w0; rewrite execWithInput_spec; by destruct inputs).
    unfold advance. cbn [procs set_now]. rewrite Hnow.
    set (T := now w + dt) in *.
    assert (HI : ∃ m e k', delivering (next_pid w) (now w) T inputs (next_timer w)
                        (next_timer w + n)
                        (match inputs with [] => next_timer w | _ => S (next_timer w + n) end)
                        m e k' w0) by (do 3 eexists; exact H0).
    destruct (run_until_invariant _ T
                (step_delivering (next_pid w) (now w) T inputs _ _ _)
                (weight (timers w0)) w0 HI) as (m & e & k' & Hd).
    apply (delivering_at_rest _ _ _ _ _ _ _ m e k' _ dt Hd eq_refl).
    intros t Ht. by apply (run_until_done (weight (timers w0)) T w0 t).
Qed.

Lemma scripted_inputs_delivery_witness :
  ∃ c, procs (advance 150 (execWithInput "cat" [] ["a"; "b"; "c"] (KBatch 1 "b") demo_session))
         !! 1%nat = Some c ∧
       c_stdin c = ["a" +:+ LF; "b" +:+ LF] ∧ c_writable c = true.
Proof.
  destruct (scripted_inputs_delivery "cat" [] ["a"; "b"; "c"] (KBatch 1 "b") demo_session 150
              eq_refl) as (_ & _ & c & H1 & H2 & H3).
  exists c. split; [exact H1|]. split; [exact H2|exact H3].
Defined.

(** ** [execWithInput]: the result and the timeout *)



Example blank_output_run :
  replies (run [EvRunCode 1 "python" "print()" []; EvStdout 0 LF;
                EvClose 0 (Some 0%Z) None] demo_world)
  = [(1%nat, RepRun {| success := true; output := "Execution failed" |})].
Proof. vm_compute. done. Qed.

(** Nor is a run that timed out marked failed by the timeout itself: a
    child that answers SIGTERM by exiting with code 0 is a success. *)
Example timed_out_run_may_succeed :
  let w := run [EvRunCode 1 "python" "while True: pass" []; EvAdvance 10000;
                EvStdout 0 "bye"; EvClose 0 (Some 0%Z) None] demo_world in
  (c_signals <$> procs w !! 0%nat) = Some [SIGTERM] ∧
  replies w = [(1%nat, RepRun {| success := true; output := "bye" |})].
Proof. vm_compute. done. Qed.




(** ** What every callback preserves *)

(** Handles are allocated upwards and closed children stay closed. *)
Record grows (w w' : World) : Prop := {
  grows_pid : (next_pid w ≤ next_pid w')%nat;
  grows_timer : (next_timer w ≤ next_timer w')%nat;
  grows_queue : ∀ t, t ∈ timers w' → t ∈ timers w ∨ (next_timer w ≤ t_id t)%nat;
  grows_closed : ∀ p, (p < next_pid w)%nat → open_child p w = false → open_child p w' = false
}.

Lemma grows_refl w : grows w w.
Proof. split; auto. Qed.

Lemma grows_trans w1 w2 w3 : grows w1 w2 → grows w2 w3 → grows w1 w3.
Proof.
  intros [A1 A2 A3 A4] [B1 B2 B3 B4]. split; [lia|lia| |].
  - intros t Ht. destruct (B3 t Ht) as [H|H]; [auto|right; lia].
  - intros p Hp Ho. apply B4; [lia|auto].
Qed.

(** A step that leaves the queue, the children and the counters alone. *)
Lemma grows_same w x w' :
  grows w x →
  next_pid w' = next_pid x → next_timer w' = next_timer x →
  timers w' = timers x → procs w' = procs x →
  grows w w'.
Proof.
  intros Hg E1 E2 E3 E4. apply (grows_trans _ x); [done|].
  split; rewrite ?E1, ?E2, ?E3; auto. intros p _. unfold open_child. by rewrite E4.
Qed.

Lemma grows_set_scratch w x v : grows w x → grows w (set_scratch v x).
Proof. intros; by eapply grows_same. Qed.
Lemma grows_set_now w x v : grows w x → grows w (set_now v x).
Proof. intros; by eapply grows_same. Qed.
Lemma grows_set_execs w x v : grows w x → grows w (set_execs v x).
Proof. intros; by eapply grows_same. Qed.
Lemma grows_set_sessions w x v : grows w x → grows w (set_sessions v x).
Proof. intros; by eapply grows_same. Qed.
Lemma grows_set_runSessions w x v : grows w x → grows w (set_runSessions v x).
Proof. intros; by eapply grows_same. Qed.
Lemma grows_set_outbox w x v : grows w x → grows w (set_outbox v x).
Proof. intros; by eapply grows_same. Qed.
Lemma grows_respond w x req r : grows w x → grows w (respond req r x).
Proof. intros; by eapply grows_same. Qed.
Lemma grows_exec w x cmd k : grows w x → grows w (exec cmd k x).
Proof. intros; by eapply grows_same. Qed.
Lemma grows_set_pending w x v n : grows w x → grows w (set_pending v n x).
Proof. intros; by eapply grows_same. Qed.

Lemma grows_setTimeout w x a d : grows w x → grows w (setTimeout a d x).2.
Proof.
  intros Hg. apply (grows_trans _ x); [done|]. split; simpl; auto.
  intros t [H | ->%list_elem_of_singleton]%elem_of_app; [by left|right; simpl; lia].
Qed.

Lemma grows_clearTimeout w x h : grows w x → grows w (clearTimeout h x).
Proof.
  intros Hg. apply (grows_trans _ x); [done|]. destruct h as [id|]; [|apply grows_refl].
  split; simpl; auto. intros t [_ H]%list_elem_of_filter. by left.
Qed.

Lemma grows_unqueue w x t : grows w x → grows w (set_timers (unqueue t (timers x)) (next_timer x) x).
Proof.
  intros Hg. apply (grows_trans _ x); [done|]. split; simpl; auto.
  intros t' H%elem_unqueue. by left.
Qed.

Lemma grows_spawn w x cmd args : grows w x → grows w (spawn cmd args x).2.
Proof.
  intros Hg. apply (grows_trans _ x); [done|]. split; simpl; auto.
  intros p Hp. unfold open_child. simpl. rewrite lookup_insert_ne by lia. done.
Qed.

Lemma grows_upd_child w x p f :
  (∀ c, c_closed c = true → c_closed (f c) = true) →
  grows w x → grows w (upd_child p f x).
Proof.
  intros Hf Hg. apply (grows_trans _ x); [done|]. split; simpl; auto.
  intros q _. unfold open_child. simpl. destruct (decide (p = q)) as [->|Hne].
  - rewrite lookup_alter_eq. destruct (procs x !! q) as [c|]; simpl; [|done].
    intros H%negb_false_iff. by rewrite Hf.
  - by rewrite lookup_alter_ne.
Qed.

Lemma grows_kill w x p sig : grows w x → grows w (kill p sig x).
Proof. apply grows_upd_child. intros c. by destruct (c_exited c). Qed.
Lemma grows_stdin_write w x p line : grows w x → grows w (stdin_write p line x).
Proof. apply grows_upd_child. intros c. by destruct (c_writable c). Qed.
Lemma grows_stdin_end w x p : grows w x → grows w (stdin_end p x).
Proof. by apply grows_upd_child. Qed.
Lemma grows_mark_child w x p b : grows w x → grows w (mark_child p b x).
Proof. apply grows_upd_child. intros c. simpl. by intros ->. Qed.

Create HintDb grows.
#[local] Hint Resolve grows_refl grows_set_scratch grows_set_now grows_set_execs
  grows_set_sessions grows_set_runSessions grows_set_outbox grows_respond grows_exec
  grows_set_pending grows_setTimeout grows_clearTimeout grows_unqueue grows_spawn
  grows_kill grows_stdin_write grows_stdin_end grows_mark_child : grows.

Lemma fs_only_cleanupTempFiles b : fs_only (cleanupTempFiles b).
Proof.
  intros w. unfold cleanupTempFiles, readdirSync, bind.
  destruct (scratch w) as [d|] eqn:E; simpl; [|by rewrite set_scratch_same].
  apply (fs_only_forEach _ _). intros f.
  destruct (Js.includes f _); [apply fs_only_unlinkSync|apply fs_only_ret].
Qed.

Lemma execWithInput_unfold cmd args inputs k w :
  execWithInput cmd args inputs k w
  = let child := next_pid w in
    let w1 := (spawn cmd args w).2 in
    let w2 := match inputs with
              | [] => stdin_end child w1
              | _ => (setTimeout (TaEndInput child) (N.of_nat (length inputs) * 100 + 100)
                        (schedule_inputs child inputs 0 w1)).2
              end in
    set_execs (<[child := fresh_exec (next_timer w2) k]> (execs w2))
      (setTimeout (TaBatchTimeout child) 10000 w2).2.
Proof. reflexivity. Qed.

(** *** Frames

    A relation between a starting world and a later one that the
    primitives of the batch runner and of the timers respect is respected
    by every callback built from them. *)
Section Frame.
Variable R : World -> World -> Prop.
Hypothesis R_scratch : ∀ w x v, R w x → R w (set_scratch v x).
Hypothesis R_now : ∀ w x v, R w x → R w (set_now v x).
Hypothesis R_execs : ∀ w x v, R w x → R w (set_execs v x).
Hypothesis R_pending : ∀ w x v n, R w x → R w (set_pending v n x).
Hypothesis R_respond : ∀ w x req r, R w x → R w (respond req r x).
Hypothesis R_setTimeout : ∀ w x a d, R w x → R w (setTimeout a d x).2.
Hypothesis R_clearTimeout : ∀ w x h, R w x → R w (clearTimeout h x).
Hypothesis R_unqueue :
  ∀ w x t, R w x → R w (set_timers (unqueue t (timers x)) (next_timer x) x).
Hypothesis R_spawn : ∀ w x cmd args, R w x → R w (spawn cmd args x).2.
Hypothesis R_kill : ∀ w x p sig, R w x → R w (kill p sig x).
Hypothesis R_stdin_write : ∀ w x p line, R w x → R w (stdin_write p line x).
Hypothesis R_stdin_end : ∀ w x p, R w x → R w (stdin_end p x).
Hypothesis R_mark_child : ∀ w x p b, R w x → R w (mark_child p b x).

Lemma frame_fs {A} (m : M A) w x : fs_only m → R w x → R w (m x).2.
Proof. intros Hm Hg. rewrite (Hm x). auto. Qed.

Lemma frame_exec w x cmd k : R w x → R w (exec cmd k x).
Proof. intros. unfold exec. auto. Qed.

Lemma frame_schedule_inputs w child inputs : ∀ n x,
  R w x → R w (schedule_inputs child inputs n x).
Proof.
  induction inputs as [|i rest IH]; intros n x Hg; cbn [schedule_inputs]; [done|].
  apply IH. auto.
Qed.

Lemma frame_execWithInput w x cmd args inputs k :
  R w x → R w (execWithInput cmd args inputs k x).
Proof.
  intros Hg. rewrite execWithInput_unfold. cbv zeta.
  apply R_execs, R_setTimeout.
  destruct inputs; [auto|].
  apply R_setTimeout, frame_schedule_inputs. auto.
Qed.

Lemma frame_settle w x req base r : R w x → R w (runCodeWithInput_settle req base r x).
Proof.
  intros Hg. unfold runCodeWithInput_settle.
  pose proof (frame_fs (cleanupTempFiles base) w x (fs_only_cleanupTempFiles base) Hg) as H.
  destruct (cleanupTempFiles base x) as [[[]|e] x']; simpl in H; auto.
Qed.

Lemma frame_resolve w x k r : R w x → R w (resolve k r x).
Proof. destruct k. apply frame_settle. Qed.

(** Synchronous computations. *)
Definition m_frame {A} (m : M A) : Prop := ∀ w x, R w x → R w (m x).2.

Lemma m_frame_bind {A B} (m : M A) (k : A -> M B) :
  m_frame m → (∀ a, m_frame (k a)) → m_frame (bind m k).
Proof.
  intros Hm Hk w x Hg. unfold bind. specialize (Hm w x Hg).
  destruct (m x) as [[a|e] x1]; simpl in *; [|done]. by apply Hk.
Qed.

Lemma m_frame_try_catch {A} (m : M A) (h : string -> M A) :
  m_frame m → (∀ e, m_frame (h e)) → m_frame (try_catch m h).
Proof.
  intros Hm Hh w x Hg. unfold try_catch. specialize (Hm w x Hg).
  destruct (m x) as [[a|e] x1]; simpl in *; [done|]. by apply Hh.
Qed.

Lemma m_frame_lift (f : World -> World) :
  (∀ w x, R w x → R w (f x)) → m_frame (lift f).
Proof. intros Hf w x Hg. by apply Hf. Qed.

Lemma m_frame_write p data : m_frame (writeFileSync p data).
Proof. intros w x Hg. apply frame_fs; [apply fs_only_writeFileSync|done]. Qed.

Lemma m_frame_dep {A} (m : World -> M A) : (∀ w0, m_frame (m w0)) → m_frame (λ w, m w w).
Proof. intros H w x Hg. by apply H. Qed.

Lemma frame_runner language run code base inputs k :
  runners language = Some run → m_frame (run code base inputs k).
Proof.
  unfold runners. intros H.
  repeat (case_decide; [injection H as <-|]); [..|done].
  - apply m_frame_bind; [apply m_frame_write|intros _].
    apply m_frame_lift. intros. by apply frame_execWithInput.
  - apply m_frame_bind; [apply m_frame_write|intros _].
    apply (m_frame_dep (λ w0, lift _)). intros w0.
    apply m_frame_lift. intros. by apply frame_execWithInput.
  - apply m_frame_try_catch.
    + destruct (Js.match_public_class code) as [cls|].
      * apply (m_frame_dep (λ w0, bind _ _)). intros w0.
        apply m_frame_bind; [apply m_frame_write|intros _].
        apply m_frame_lift. intros. by apply frame_exec.
      * apply m_frame_lift. intros. by apply frame_resolve.
    + intros e. apply m_frame_lift. intros. by apply frame_resolve.
  - apply m_frame_bind; [apply m_frame_write|intros _].
    apply m_frame_lift. intros. by apply frame_exec.
  - apply m_frame_bind; [apply m_frame_write|intros _].
    apply m_frame_lift. intros. by apply frame_exec.
  - apply m_frame_bind; [apply m_frame_write|intros _].
    apply m_frame_lift. intros. by apply frame_execWithInput.
  - apply m_frame_bind; [apply m_frame_write|intros _].
    apply m_frame_lift. intros. by apply frame_execWithInput.
Qed.

Lemma frame_runCodeWithInput w x req language code inputs :
  R w x → R w (runCodeWithInput req language code inputs x).
Proof.
  intros Hg. unfold runCodeWithInput. cbv zeta.
  destruct (negb _); [auto|].
  destruct (runners language) as [run|] eqn:Er; [|by apply frame_settle].
  pose proof (frame_runner language run code (batch_base x) inputs
                (KBatch req (batch_base x)) Er w x Hg) as H.
  destruct (run _ _ _ _ x) as [[[]|e] x1]; simpl in H; [done|]. by apply frame_settle.
Qed.

Lemma frame_stopRunSession w x sid b : R w x → R w (stopRunSession sid b x).2.
Proof.
  intros Hg. unfold stopRunSession. destruct (runSessions x !! sid) as [p|]; [|done].
  destruct b; cbv zeta; cbn [snd]; auto.
Qed.

Lemma frame_run_timer w x a : R w x → R w (run_timer a x).
Proof.
  intros Hg. destruct a as [p line|p|p|p|sid]; cbn [run_timer]; cbv zeta; auto.
  - repeat case_match; auto.
  - unfold set_exec. auto.
  - by apply frame_stopRunSession.
Qed.

Lemma frame_fire w x t : R w x → R w (fire t x).
Proof. intros Hg. unfold fire. apply frame_run_timer. auto. Qed.

Lemma frame_run_until w fuel T : ∀ x, R w x → R w (run_until fuel T x).
Proof.
  induction fuel as [|fuel IH]; intros x Hg; simpl; [done|].
  repeat case_match; auto using frame_fire.
Qed.

Lemma frame_advance w x dt : R w x → R w (advance dt x).
Proof. intros Hg. unfold advance. apply R_now. by apply frame_run_until. Qed.

Lemma frame_create_files w x created : R w x → R w (create_files created x).
Proof. intros Hg. unfold create_files. destruct (scratch x); auto. Qed.

(** The callbacks of a batch run. *)
Lemma frame_batch_data w x is_err p d :
  is_Some (execs x !! p) → R w x → R w (on_data is_err p d x).
Proof. intros [e E] Hg. unfold on_data. rewrite E. unfold set_exec. auto. Qed.

Lemma frame_batch_close w x p code signal :
  is_Some (execs x !! p) → R w x → R w (on_close p code signal x).
Proof. intros [e E] Hg. unfold on_close. rewrite E. apply frame_resolve. auto. Qed.

Lemma frame_batch_exec_done w x k error stdout stderr :
  match k with KCompileAndRun _ _ _ | KJavaRun _ _ _ => True | _ => False end →
  R w x → R w (on_exec_done k error stdout stderr x).
Proof.
  intros Hk Hg. destruct k as [exe inputs k|cls inputs k| |]; try done; simpl.
  - unfold compileAndRun_callback. destruct error;
      [by apply frame_resolve|by apply frame_execWithInput].
  - unfold runJava_callback. destruct error;
      [by apply frame_resolve|by apply frame_execWithInput].
Qed.

End Frame.

(** *** The session table, the session objects and the events sent *)

Definition sview (w : World) : gmap string nat * gmap nat Session * list IpcEvent :=
  (runSessions w, sessions w, outbox w).

(** The batch runner and the timers leave all three alone. *)
Definition keeps_sessions (w x : World) : Prop := sview x = sview w.

Local Ltac frame_grows L := eapply (L grows); eauto with grows.
Lemma keeps_sessions_clearTimeout w x h :
  keeps_sessions w x → keeps_sessions w (clearTimeout h x).
Proof. by destruct h. Qed.

Local Ltac frame_keeps L :=
  eapply (L keeps_sessions);
  try (intros; first [eassumption | reflexivity | by apply keeps_sessions_clearTimeout]).

Lemma advance_keeps_sessions w dt : keeps_sessions w (advance dt w).
Proof. frame_keeps frame_advance. Qed.

Lemma runCodeWithInput_keeps_sessions w req language code inputs :
  keeps_sessions w (runCodeWithInput req language code inputs w).
Proof. frame_keeps frame_runCodeWithInput. Qed.

Lemma stopRunSession_keeps_sessions w sid b : keeps_sessions w (stopRunSession sid b w).2.
Proof. frame_keeps frame_stopRunSession. Qed.

(** The session id an event may enter into the table: the one drawn by a
    [start-run], or the one a finished compilation was started for. *)
Definition registers (e : Event) (w : World) : option string :=
  match e with
  | EvStartRun _ _ _ rnd1 _ => Some (createSessionId rnd1 w)
  | EvExecDone id _ _ _ _ =>
      match pending w !! id with
      | Some (_, KSessCompiled sessionId _ _ _) => Some sessionId
      | Some (_, KSessJava sessionId _ _ _) => Some sessionId
      | _ => None
      end
  | _ => None
  end.

(** What one turn of the event loop does to the table, to the session
    objects and to the events sent. *)
Inductive view_step (e : Event) (w w' : World) : Prop :=
  | VsSame :
      runSessions w' = runSessions w → sessions w' = sessions w →
      outbox w' = outbox w → view_step e w w'
  | VsRegister sid s :
      registers e w = Some sid → s_id s = sid →
      (next_pid w < next_pid w')%nat →
      (∀ n, s_timer s = Some n → (n < next_timer w')%nat) →
      runSessions w' = <[sid := next_pid w]> (runSessions w) →
      sessions w' = <[next_pid w := s]> (sessions w) →
      outbox w' = outbox w → view_step e w w'
  | VsReset p s h out :
      sessions w !! p = Some s →
      (open_child p w = true ∨ ∃ sid, runSessions w !! sid = Some p) →
      (∀ n, h = Some n → (n < next_timer w')%nat) →
      runSessions w' = runSessions w →
      sessions w' = <[p := {| s_id := s_id s; s_cleanup := s_cleanup s; s_timer := h |}]>
                      (sessions w) →
      outbox w' = outbox w ++ out →
      (∀ ev, ev ∈ out → ∃ sid ty d, ev = RunOutput sid ty d) →
      view_step e w w'
  | VsClose p s code signal :
      e = EvClose p code signal → open_child p w = true →
      execs w !! p = None → sessions w !! p = Some s →
      runSessions w' = delete (s_id s) (runSessions w) →
      sessions w' = sessions w →
      outbox w' = outbox w ++ (if window w then [RunExit (s_id s) code signal] else []) →
      view_step e w w'.

Lemma view_of_keeps e w w' : keeps_sessions w w' → view_step e w w'.
Proof. intros [= H1 H2 H3]. by apply VsSame. Qed.

Lemma resetTimer_view p s w :
  sessions w !! p = Some s →
  next_timer (resetTimer p w) = S (next_timer w) ∧
  next_pid (resetTimer p w) = next_pid w ∧
  runSessions (resetTimer p w) = runSessions w ∧
  sessions (resetTimer p w)
  = <[p := {| s_id := s_id s; s_cleanup := s_cleanup s; s_timer := Some (next_timer w) |}]>
      (sessions w) ∧
  outbox (resetTimer p w) = outbox w.
Proof.
  intros E. rewrite (resetTimer_spec p s w E). simpl. repeat split.
  apply map_eq. intros q. destruct (decide (p = q)) as [->|Hne].
  - by rewrite lookup_alter_eq, lookup_insert_eq, E.
  - by rewrite lookup_alter_ne, lookup_insert_ne.
Qed.

Lemma start_registered_view e req sid cmd args cleanup w0 w :
  registers e w0 = Some sid → sview w = sview w0 → next_pid w = next_pid w0 →
  view_step e w0 (start_registered req sid (spawn cmd args w).1 cleanup (spawn cmd args w).2).
Proof.
  intros Hr [= H1 H2 H3] Hp. unfold start_registered, registerRunSession.
  change ((spawn cmd args w).1) with (next_pid w).
  set (s0 := {| s_id := sid; s_cleanup := Some cleanup; s_timer := None |}).
  set (w1 := set_runSessions _ _).
  assert (E1 : sessions w1 !! next_pid w = Some s0) by (simpl; apply lookup_insert_eq).
  destruct (resetTimer_view _ _ _ E1) as (R4 & R5 & R1 & R2 & R3).
  eapply (VsRegister e w0 _ sid
            {| s_id := sid; s_cleanup := Some cleanup; s_timer := Some (next_timer w1) |});
    [done|reflexivity|..];
    cbn [respond runSessions sessions outbox set_replies next_pid next_timer s_timer].
  - rewrite R5. simpl. lia.
  - intros n [= <-]. rewrite R4. apply Nat.lt_succ_diag_r.
  - rewrite R1. simpl. by rewrite H1, Hp.
  - rewrite R2. simpl. rewrite insert_insert_eq. by rewrite H2, Hp.
  - rewrite R3. simpl. done.
Qed.

Lemma startRunSession_view req language code rnd1 rnd2 w :
  view_step (EvStartRun req language code rnd1 rnd2) w
    (startRunSession req language code rnd1 rnd2 w).
Proof.
  set (e := EvStartRun req language code rnd1 rnd2).
  assert (Hscript : ∀ file cmd args,
    view_step e w (start_failed req
      (start_script req (createSessionId rnd1 w) file code cmd args w))).
  { intros file cmd args. unfold start_script, bind, writeFileSync, lift.
    destruct (scratch w) as [d|] eqn:E; cbn [start_failed]; [|by apply VsSame].
    apply (start_registered_view e req _ cmd args [file] w
             (set_scratch (Some (<[file:=code]> d)) w)); done. }
  assert (Hcompile : ∀ file cmd k,
    view_step e w (start_failed req
      ((writeFileSync file code ;; lift (exec cmd k)) w))).
  { intros file cmd k. unfold bind, writeFileSync, lift.
    destruct (scratch w) as [d|] eqn:E; cbn [start_failed]; by apply VsSame. }
  unfold startRunSession. cbv zeta.
  destruct (negb _); [by apply VsSame|].
  repeat (case_decide; [first [apply Hscript | apply Hcompile]|]).
  case_decide; [|by apply VsSame].
  destruct (Js.match_public_class code); [apply Hcompile|by apply VsSame].
Qed.

Lemma send_input_view e sid input w :
  view_step e w (send_input sid input w).2.
Proof.
  unfold send_input. destruct (runSessions w !! sid) as [p|] eqn:Et; [|by apply VsSame].
  destruct (procs w !! p) as [c|] eqn:Ec; [|by apply VsSame].
  destruct (_ || _); [by apply VsSame|]. cbn [snd].
  destruct (sessions w !! p) as [s|] eqn:Es.
  - destruct (resetTimer_view p s (stdin_write p (default "" input +:+ LF) w) Es)
      as (R4 & _ & R1 & R2 & R3).
    apply (VsReset e w _ p s
             (Some (next_timer (stdin_write p (default "" input +:+ LF) w))) []); eauto.
    + intros n [= <-]. rewrite R4. simpl. lia.
    + rewrite app_nil_r. exact R3.
    + intros ev Hev. by inversion Hev.
  - unfold resetTimer. cbn [sessions stdin_write upd_child set_procs]. rewrite Es.
    by apply VsSame.
Qed.

Lemma on_data_view e is_err p d w :
  open_child p w = true → view_step e w (on_data is_err p d w).
Proof.
  intros Ho. destruct (execs w !! p) as [x|] eqn:Ex.
  - apply view_of_keeps. frame_keeps frame_batch_data. by rewrite Ex.
  - unfold on_data. rewrite Ex. destruct (sessions w !! p) as [s|] eqn:Es; [|by apply VsSame].
    assert (Hreset : ∀ x out,
      sessions x = sessions w → runSessions x = runSessions w → outbox x = outbox w ++ out →
      (∀ ev, ev ∈ out → ∃ sid ty d, ev = RunOutput sid ty d) →
      view_step e w (resetTimer p x)).
    { intros x out Hs Hr Hout Hev.
      destruct (resetTimer_view p s x) as (R4 & _ & R1 & R2 & R3); [by rewrite Hs|].
      apply (VsReset e w _ p s (Some (next_timer x)) out); auto.
      - intros n [= <-]. rewrite R4. lia.
      - by rewrite R1.
      - rewrite R2. by rewrite Hs.
      - by rewrite R3. }
    unfold session_on_stderr, session_on_stdout, sendRunOutput.
    destruct is_err, (window w).
    + apply (Hreset _ [RunOutput (s_id s) "stderr" d]); try done.
      intros ev ->%list_elem_of_singleton. eauto.
    + apply (Hreset _ []); try done; [by rewrite app_nil_r|]. intros ev Hev. by inversion Hev.
    + apply (Hreset _ [RunOutput (s_id s) "stdout" d]); try done.
      intros ev ->%list_elem_of_singleton. eauto.
    + apply (Hreset _ []); try done; [by rewrite app_nil_r|]. intros ev Hev. by inversion Hev.
Qed.

Lemma clearTimeout_timers h w :
  timers (clearTimeout h w) = filter (λ t, Some (t_id t) ≠ h) (timers w).
Proof.
  destruct h as [id|]; simpl.
  - apply list_filter_iff. intros t. split; congruence.
  - symmetry. induction (timers w) as [|t l IH]; [done|].
    rewrite filter_cons_True by done. by rewrite IH.
Qed.

(** The teardown of the close listener touches the timer queue, the files
    and the table, and nothing else. *)
Lemma session_teardown_shape s w :
  ∃ sc, session_teardown s w
        = set_runSessions (delete (s_id s) (runSessions w))
            (set_scratch sc
               (set_timers (filter (λ t, Some (t_id t) ≠ s_timer s) (timers w))
                           (next_timer w) w)).
Proof.
  unfold session_teardown.
  assert (Hc : clearTimeout (s_timer s) w
               = set_timers (filter (λ t, Some (t_id t) ≠ s_timer s) (timers w))
                            (next_timer w) w).
  { rewrite <- clearTimeout_timers. destruct (s_timer s); [done|]. by destruct w. }
  rewrite Hc. destruct (s_cleanup s) as [files|].
  - match goal with |- context [cleanupFiles ?f ?x] =>
      destruct (cleanupFiles_shape f x) as [sc ->] end.
    by exists sc.
  - eexists. by rewrite set_scratch_same.
Qed.

(** The close listener of a session, step by step. *)
Lemma session_close_effect p s code signal w :
  execs w !! p = None → sessions w !! p = Some s → open_child p w = true →
  let w' := step (EvClose p code signal) w in
  w' = sendRunExit (s_id s) code signal (session_teardown s (mark_child p true w)) ∧
  runSessions (session_teardown s (mark_child p true w)) = delete (s_id s) (runSessions w) ∧
  runSessions w' = delete (s_id s) (runSessions w) ∧
  sessions w' = sessions w ∧
  outbox w' = outbox w ++ (if window w then [RunExit (s_id s) code signal] else []) ∧
  timers w' = timers (clearTimeout (s_timer s) w) ∧
  next_timer w' = next_timer w ∧
  procs w' = procs (mark_child p true w).
Proof.
  intros Ex Es Ho. cbv zeta. cbn [step]. rewrite Ho. unfold on_close.
  cbn [execs sessions mark_child upd_child set_procs]. rewrite Ex, Es.
  split; [done|]. unfold session_on_close.
  destruct (session_teardown_shape s (mark_child p true w)) as [sc ->].
  rewrite clearTimeout_timers. unfold sendRunExit. cbn [window set_runSessions set_scratch
    set_timers mark_child upd_child set_procs].
  destruct (window w); cbn; rewrite ?app_nil_r; done.
Qed.

Lemma closed_after_close p w :
  open_child p w = true → open_child p (mark_child p true w) = false.
Proof.
  unfold open_child. simpl. rewrite lookup_alter_eq.
  destruct (procs w !! p) as [c|]; simpl; [|done]. by rewrite orb_true_r.
Qed.

Lemma on_close_view p code signal w :
  open_child p w = true →
  view_step (EvClose p code signal) w (on_close p code signal (mark_child p true w)).
Proof.
  intros Ho. destruct (execs w !! p) as [x|] eqn:Ex.
  - apply view_of_keeps.
    assert (keeps_sessions w (mark_child p true w)) by reflexivity.
    frame_keeps frame_batch_close.
    cbn [execs mark_child upd_child set_procs]. by rewrite Ex.
  - destruct (sessions w !! p) as [s|] eqn:Es.
    + destruct (session_close_effect p s code signal w Ex Es Ho)
        as (_ & _ & E3 & E4 & E5 & _).
      cbn [step] in E3, E4, E5. rewrite Ho in E3, E4, E5.
      by eapply (VsClose _ w _ p s).
    + unfold on_close. cbn [execs sessions mark_child upd_child set_procs].
      rewrite Ex, Es. by apply VsSame.
Qed.

Lemma on_exec_done_view id error stdout stderr created cmd k w :
  pending w !! id = Some (cmd, k) →
  view_step (EvExecDone id error stdout stderr created) w
    (on_exec_done k error stdout stderr
       (create_files created (set_pending (delete id (pending w)) (next_exec w) w))).
Proof.
  intros Ep. set (e := EvExecDone _ _ _ _ _). set (w1 := create_files _ _).
  assert (Hk : keeps_sessions w w1).
  { unfold w1. frame_keeps frame_create_files. }
  assert (Hpid : next_pid w1 = next_pid w).
  { unfold w1, create_files. simpl. by destruct (scratch w). }
  destruct k as [exe inputs k|cls inputs k|sid src out req|sid file cls req].
  - apply view_of_keeps. frame_keeps frame_batch_exec_done.
  - apply view_of_keeps. frame_keeps frame_batch_exec_done.
  - simpl. unfold startRunSession_resume. destruct error; [by apply view_of_keeps|].
    apply (start_registered_view e); [|done..]. simpl. by rewrite Ep.
  - simpl. unfold startRunSession_resume. destruct error; [by apply view_of_keeps|].
    apply (start_registered_view e); [|done..]. simpl. by rewrite Ep.
Qed.

(** Every turn of the event loop is of one of the four kinds. *)
Lemma step_view e w : view_step e w (step e w).
Proof.
  destruct e as [dt|req l c i|req l c r1 r2|req sid input|req sid|id err so se cr|p d|p d|p
                 |p code signal]; cbn [step].
  - apply view_of_keeps, advance_keeps_sessions.
  - apply view_of_keeps, runCodeWithInput_keeps_sessions.
  - apply startRunSession_view.
  - pose proof (send_input_view (EvSendInput req sid input) sid input w) as H.
    destruct (send_input sid input w) as [r w']. simpl in H.
    destruct H; [eapply VsSame|eapply VsRegister|eapply VsReset|eapply VsClose]; eauto.
  - pose proof (stopRunSession_keeps_sessions w sid false) as H. unfold stop_run.
    destruct (stopRunSession sid false w) as [ok w']. by apply view_of_keeps.
  - destruct (pending w !! id) as [[cmd k]|] eqn:Ep; [|by apply VsSame].
    by apply (on_exec_done_view _ _ _ _ _ cmd).
  - destruct (open_child p w) eqn:Ho; [by apply on_data_view|by apply VsSame].
  - destruct (open_child p w) eqn:Ho; [by apply on_data_view|by apply VsSame].
  - destruct (open_child p w); by apply VsSame.
  - destruct (open_child p w) eqn:Ho; [by apply on_close_view|by apply VsSame].
Qed.

(** *** Every turn of the event loop grows *)

Lemma grows_resetTimer w x p : grows w x → grows w (resetTimer p x).
Proof.
  intros Hg. unfold resetTimer. destruct (sessions x !! p) as [s|]; [|done].
  unfold setTimeout. cbv beta iota zeta. unfold set_session_timer.
  apply grows_set_sessions.
  apply (grows_setTimeout w (clearTimeout (s_timer s) x) (TaIdleStop (s_id s)) 120000).
  by apply grows_clearTimeout.
Qed.

Lemma grows_start_registered w x req sid cmd args cleanup :
  grows w x →
  grows w (start_registered req sid (spawn cmd args x).1 cleanup (spawn cmd args x).2).
Proof.
  intros Hg. unfold start_registered, registerRunSession.
  apply grows_respond, grows_resetTimer. auto with grows.
Qed.

Lemma grows_startRunSession w req language code rnd1 rnd2 :
  grows w (startRunSession req language code rnd1 rnd2 w).
Proof.
  assert (Hscript : ∀ sid file cmd args,
    grows w (start_failed req (start_script req sid file code cmd args w))).
  { intros sid file cmd args. unfold start_script, bind, writeFileSync, lift.
    destruct (scratch w) as [d|] eqn:E; cbn [start_failed]; [|auto with grows].
    apply (grows_start_registered w (set_scratch (Some (<[file:=code]> d)) w)).
    auto with grows. }
  assert (Hcompile : ∀ file cmd k,
    grows w (start_failed req ((writeFileSync file code ;; lift (exec cmd k)) w))).
  { intros file cmd k. unfold bind, writeFileSync, lift.
    destruct (scratch w) as [d|] eqn:E; cbn [start_failed]; auto with grows. }
  unfold startRunSession. cbv zeta.
  destruct (negb _); [auto with grows|].
  repeat (case_decide; [first [apply Hscript | apply Hcompile]|]).
  case_decide; [|auto with grows].
  destruct (Js.match_public_class code); [apply Hcompile|auto with grows].
Qed.


Lemma grows_on_data w is_err p d : grows w (on_data is_err p d w).
Proof.
  unfold on_data. destruct (execs w !! p) as [x|]; [unfold set_exec; auto with grows|].
  destruct (sessions w !! p) as [s|]; [|auto with grows].
  unfold session_on_stderr, session_on_stdout, sendRunOutput.
  destruct is_err, (window w); apply grows_resetTimer; auto with grows.
Qed.

Lemma grows_on_close w x p code signal : grows w x → grows w (on_close p code signal x).
Proof.
  intros Hg. unfold on_close. destruct (execs x !! p) as [e|] eqn:Ex.
  - frame_grows frame_resolve.
  - destruct (sessions x !! p) as [s|]; [|done].
    unfold session_on_close, session_teardown, sendRunExit.
    cbn [window set_runSessions].
    assert (Hc : grows w (match s_cleanup s with
                          | Some files => cleanupFiles files (clearTimeout (s_timer s) x)
                          | None => clearTimeout (s_timer s) x
                          end)).
    { destruct (s_cleanup s) as [files|]; [|auto with grows].
      destruct (cleanupFiles_shape files (clearTimeout (s_timer s) x)) as [sc ->].
      auto with grows. }
    match goal with |- context [if ?b then _ else _] => destruct b end; auto with grows.
Qed.

Lemma grows_on_exec_done w x k error stdout stderr :
  grows w x → grows w (on_exec_done k error stdout stderr x).
Proof.
  intros Hg. destruct k as [exe inputs k|cls inputs k|sid src out req|sid file cls req].
  - frame_grows frame_batch_exec_done.
  - frame_grows frame_batch_exec_done.
  - simpl. unfold startRunSession_resume. destruct error; [auto with grows|].
    by apply grows_start_registered.
  - simpl. unfold startRunSession_resume. destruct error; [auto with grows|].
    by apply grows_start_registered.
Qed.

Lemma step_grows e w : grows w (step e w).
Proof.
  destruct e as [dt|req l c i|req l c r1 r2|req sid input|req sid|id err so se cr|p d|p d|p
                 |p code signal]; cbn [step].
  - frame_grows frame_advance.
  - frame_grows frame_runCodeWithInput.
  - apply grows_startRunSession.
  - unfold send_input. repeat case_match; simplify_eq; auto with grows.
    apply grows_respond, grows_resetTimer. auto with grows.
  - unfold stop_run.
    pose proof (frame_stopRunSession grows ltac:(auto with grows) ltac:(auto with grows)
                  w w sid false (grows_refl w)) as H.
    destruct (stopRunSession sid false w). auto with grows.
  - destruct (pending w !! id) as [[cmd k]|]; [|auto with grows].
    apply grows_on_exec_done. frame_grows frame_create_files.
  - destruct (open_child p w); [apply grows_on_data|auto with grows].
  - destruct (open_child p w); [apply grows_on_data|auto with grows].
  - destruct (open_child p w); auto with grows.
  - destruct (open_child p w); [|auto with grows]. apply grows_on_close. auto with grows.
Qed.

Lemma run_grows evs w : grows w (run evs w).
Proof.
  revert w. induction evs as [|e evs IH]; intros w; simpl; [apply grows_refl|].
  eapply grows_trans; [apply step_grows|apply IH].
Qed.

(** ** Handles are fresh

    [spawn] hands out the handles of children upwards, and a timer
    callback or a table entry only ever refers to a child that has been
    spawned.  So the handle of the child that is spawned next is not in
    use. *)

Definition settled (w : World) : Prop :=
  (∀ t q, t ∈ timers w → acts_on q (t_act t) = true → (q < next_pid w)%nat) ∧
  (∀ sid q, runSessions w !! sid = Some q → (q < next_pid w)%nat).

Lemma settled_same x y :
  timers y = timers x → next_pid y = next_pid x → runSessions y = runSessions x →
  settled x → settled y.
Proof. intros Ht Hp Hr [H1 H2]. split; rewrite ?Ht, ?Hp, ?Hr; auto. Qed.

Lemma settled_fewer x l :
  (∀ t, t ∈ l → t ∈ timers x) → settled x → settled (set_timers l (next_timer x) x).
Proof. intros Hl [H1 H2]. split; [|done]. intros t q Ht. apply H1. by apply Hl. Qed.

Lemma settled_setTimeout a d x :
  (∀ q, acts_on q a = true → (q < next_pid x)%nat) →
  settled x → settled (setTimeout a d x).2.
Proof.
  intros Ha [H1 H2]. split; [|done]. unfold setTimeout. cbn [snd timers set_timers next_pid].
  intros t q [Ht| ->%list_elem_of_singleton]%elem_of_app; [by apply H1|]. by apply Ha.
Qed.

Lemma settled_clearTimeout h x : settled x → settled (clearTimeout h x).
Proof.
  intros H. destruct h as [id|]; [|done]. unfold clearTimeout.
  apply settled_fewer; [|done]. by intros t [_ ?]%list_elem_of_filter.
Qed.

Lemma settled_spawn cmd args x : settled x → settled (spawn cmd args x).2.
Proof.
  intros [H1 H2]. split; cbn [spawn snd timers set_procs next_pid runSessions].
  - intros t q Ht Ha. specialize (H1 t q Ht Ha). lia.
  - intros sid q Hs. specialize (H2 sid q Hs). lia.
Qed.

(** [settled] as a frame: the primitives that set no timer keep it. *)
Definition settled_to (_ x : World) : Prop := settled x.

Lemma settled_scratch (w x : World) v : settled_to w x → settled_to w (set_scratch v x).
Proof. by apply settled_same. Qed.

Lemma settled_respond (w x : World) req r : settled_to w x → settled_to w (respond req r x).
Proof. by apply settled_same. Qed.

Lemma settled_pending (w x : World) v n : settled_to w x → settled_to w (set_pending v n x).
Proof. by apply settled_same. Qed.

Lemma settled_resolve k r x : settled x → settled (resolve k r x).
Proof. exact (frame_resolve settled_to settled_scratch settled_respond x x k r). Qed.

Lemma settled_settle req base r x : settled x → settled (runCodeWithInput_settle req base r x).
Proof. exact (frame_settle settled_to settled_scratch settled_respond x x req base r). Qed.

Lemma settled_exec cmd k x : settled x → settled (exec cmd k x).
Proof. exact (frame_exec settled_to settled_pending x x cmd k). Qed.

Lemma settled_execWithInput cmd args inputs k x :
  settled x → settled (execWithInput cmd args inputs k x).
Proof.
  intros [H1 H2]. rewrite execWithInput_spec. cbv zeta.
  assert (Hw : ∀ t q, t ∈ write_timers (next_pid x) inputs 0 (next_timer x) (now x) →
                      acts_on q (t_act t) = true → (q < S (next_pid x))%nat).
  { intros t q (line & Ha)%write_timers_act Hq. rewrite Ha in Hq. simpl in Hq.
    apply bool_decide_eq_true in Hq. lia. }
  destruct inputs as [|i rest]; split;
    cbn [timers set_execs set_timers set_procs next_pid runSessions].
  - intros t q [Ht| ->%list_elem_of_singleton]%elem_of_app Hq.
    + specialize (H1 t q Ht Hq). lia.
    + simpl in Hq. apply bool_decide_eq_true in Hq. lia.
  - intros sid q Hs. specialize (H2 sid q Hs). lia.
  - intros t q [Ht|[Ht|Ht]%elem_of_app]%elem_of_app Hq.
    + specialize (H1 t q Ht Hq). lia.
    + by apply (Hw t q).
    + apply elem_of_cons in Ht as [->| ->%list_elem_of_singleton]; simpl in Hq;
        apply bool_decide_eq_true in Hq; lia.
  - intros sid q Hs. specialize (H2 sid q Hs). lia.
Qed.

Lemma settled_runner language run code base inputs k :
  runners language = Some run → m_frame settled_to (run code base inputs k).
Proof.
  unfold runners. intros H.
  assert (Hwrite : ∀ p data, m_frame settled_to (writeFileSync p data))
    by (intros; apply m_frame_write, settled_scratch).
  assert (Hexec : ∀ cmd args, m_frame settled_to (lift (execWithInput cmd args inputs k))).
  { intros. apply m_frame_lift. intros ? x ?. by apply settled_execWithInput. }
  assert (Hcmd : ∀ cmd c, m_frame settled_to (lift (exec cmd c))).
  { intros. apply m_frame_lift. intros ? x ?. by apply settled_exec. }
  assert (Hres : ∀ r, m_frame settled_to (lift (resolve k r))).
  { intros. apply m_frame_lift. intros ? x ?. by apply settled_resolve. }
  repeat (case_decide; [injection H as <-|]); [..|done].
  - apply m_frame_bind; [apply Hwrite|intros _; apply Hexec].
  - apply m_frame_bind; [apply Hwrite|intros _].
    apply (m_frame_dep settled_to (λ w0, lift _)). intros w0. apply Hexec.
  - apply m_frame_try_catch; [|intros e; apply Hres].
    destruct (Js.match_public_class code) as [cls|]; [|apply Hres].
    apply (m_frame_dep settled_to (λ w0, bind _ _)). intros w0.
    apply m_frame_bind; [apply Hwrite|intros _; apply Hcmd].
  - apply m_frame_bind; [apply Hwrite|intros _; apply Hcmd].
  - apply m_frame_bind; [apply Hwrite|intros _; apply Hcmd].
  - apply m_frame_bind; [apply Hwrite|intros _; apply Hexec].
  - apply m_frame_bind; [apply Hwrite|intros _; apply Hexec].
Qed.

Lemma settled_runCodeWithInput req language code inputs x :
  settled x → settled (runCodeWithInput req language code inputs x).
Proof.
  intros Hg. unfold runCodeWithInput. cbv zeta.
  destruct (negb _); [by apply (settled_respond x)|].
  destruct (runners language) as [run|] eqn:Er; [|by apply settled_settle].
  pose proof (settled_runner language run code (batch_base x) inputs
                (KBatch req (batch_base x)) Er x x Hg) as H.
  destruct (run _ _ _ _ x) as [[[]|e] x1]; simpl in H; [done|]. by apply settled_settle.
Qed.

Lemma settled_stopRunSession sid b x : settled x → settled (stopRunSession sid b x).2.
Proof.
  intros Hg. unfold stopRunSession. destruct (runSessions x !! sid) as [p|] eqn:E; [|done].
  assert (settled (setTimeout (TaForceKill p) 1000 (kill p SIGTERM x)).2).
  { apply settled_setTimeout.
    - intros q Hq. simpl in Hq. apply bool_decide_eq_true in Hq as <-.
      by apply (proj2 Hg sid).
    - by apply (settled_same x). }
  by destruct b.
Qed.

Lemma settled_run_timer a x :
  (∀ q, acts_on q a = true → (q < next_pid x)%nat) →
  settled x → settled (run_timer a x).
Proof.
  intros Ha Hg. destruct a as [p line|p|p|p|sid]; cbn [run_timer]; cbv zeta.
  - repeat case_match; [done|by apply (settled_same x)|done].
  - by apply (settled_same x).
  - apply settled_setTimeout; [|by apply (settled_same x)].
    intros q Hq. by apply Ha.
  - by apply (settled_same x).
  - by apply settled_stopRunSession.
Qed.

Lemma settled_fire t x : t ∈ timers x → settled x → settled (fire t x).
Proof.
  intros Ht Hg. unfold fire. apply settled_run_timer.
  - intros q Hq. by apply (proj1 Hg t).
  - apply (settled_same (set_timers (unqueue t (timers x)) (next_timer x) x)); try done.
    apply settled_fewer; [|done]. intros t'. apply elem_unqueue.
Qed.

Lemma settled_advance dt x : settled x → settled (advance dt x).
Proof.
  intros Hg. unfold advance.
  apply (settled_same (run_until (weight (timers x)) (now x + dt) x)); try done.
  apply run_until_invariant; [|done].
  intros w t Hw Ht _. apply settled_fire; [by apply earliest_elem|done].
Qed.

Lemma settled_resetTimer p x : settled x → settled (resetTimer p x).
Proof.
  intros Hg. unfold resetTimer. destruct (sessions x !! p) as [s|]; [|done].
  unfold set_session_timer.
  pose proof (settled_setTimeout (TaIdleStop (s_id s)) 120000 (clearTimeout (s_timer s) x)
                ltac:(done) (settled_clearTimeout _ _ Hg)) as H.
  unfold setTimeout in *. cbv beta iota zeta. cbn [snd] in H.
  by apply (settled_same _ _ eq_refl eq_refl eq_refl H).
Qed.

Lemma settled_start_registered req sid cmd args cleanup x :
  settled x →
  settled (start_registered req sid (spawn cmd args x).1 cleanup (spawn cmd args x).2).
Proof.
  intros Hg. unfold start_registered, registerRunSession.
  apply (settled_respond x), settled_resetTimer.
  destruct (settled_spawn cmd args x Hg) as [H1 H2]. split; [done|].
  cbn [runSessions set_runSessions set_sessions]. intros k q.
  destruct (decide (k = sid)) as [->|Hne].
  - rewrite lookup_insert_eq. intros [= <-]. simpl. lia.
  - rewrite lookup_insert_ne by done. apply H2.
Qed.

Lemma settled_startRunSession req language code rnd1 rnd2 w :
  settled w → settled (startRunSession req language code rnd1 rnd2 w).
Proof.
  intros Hg.
  assert (Hscript : ∀ sid file cmd args,
    settled (start_failed req (start_script req sid file code cmd args w))).
  { intros sid file cmd args. unfold start_script, bind, writeFileSync, lift.
    destruct (scratch w) as [d|] eqn:E; cbn [start_failed]; [|by apply (settled_respond w)].
    apply (settled_start_registered req sid cmd args [file]
             (set_scratch (Some (<[file:=code]> d)) w)).
    by apply (settled_scratch w). }
  assert (Hcompile : ∀ file cmd k,
    settled (start_failed req ((writeFileSync file code ;; lift (exec cmd k)) w))).
  { intros file cmd k. unfold bind, writeFileSync, lift.
    destruct (scratch w) as [d|] eqn:E; cbn [start_failed].
    - by apply settled_exec, (settled_scratch w).
    - by apply (settled_respond w). }
  unfold startRunSession. cbv zeta.
  destruct (negb _); [by apply (settled_respond w)|].
  repeat (case_decide; [first [apply Hscript | apply Hcompile]|]).
  case_decide; [|by apply (settled_respond w)].
  destruct (Js.match_public_class code); [apply Hcompile|by apply (settled_respond w)].
Qed.

Lemma settled_on_data is_err p d w : settled w → settled (on_data is_err p d w).
Proof.
  intros Hg. unfold on_data.
  destruct (execs w !! p) as [x|]; [by apply (settled_same w)|].
  destruct (sessions w !! p) as [s|]; [|done].
  unfold session_on_stderr, session_on_stdout, sendRunOutput.
  destruct is_err, (window w); apply settled_resetTimer; try done;
    by apply (settled_same w).
Qed.

Lemma settled_on_close p code signal x : settled x → settled (on_close p code signal x).
Proof.
  intros Hg. unfold on_close. destruct (execs x !! p) as [e|] eqn:Ex.
  - by apply settled_resolve, settled_clearTimeout.
  - destruct (sessions x !! p) as [s|]; [|done].
    unfold session_on_close, session_teardown, sendRunExit.
    cbn [window set_runSessions].
    assert (Hc : settled (match s_cleanup s with
                          | Some files => cleanupFiles files (clearTimeout (s_timer s) x)
                          | None => clearTimeout (s_timer s) x
                          end)).
    { destruct (s_cleanup s) as [files|]; [|by apply settled_clearTimeout].
      destruct (cleanupFiles_shape files (clearTimeout (s_timer s) x)) as [sc ->].
      by apply (settled_scratch x), settled_clearTimeout. }
    set (y := match s_cleanup s with Some _ => _ | None => _ end) in *. clearbody y.
    assert (Hd : settled (set_runSessions (delete (s_id s) (runSessions y)) y)).
    { destruct Hc as [H1 H2]. split; [done|]. cbn [runSessions set_runSessions next_pid].
      intros k q [_ Hk]%lookup_delete_Some. by apply (H2 k). }
    match goal with |- context [if ?b then _ else _] => destruct b end; [|done].
    by apply (settled_same _ _ eq_refl eq_refl eq_refl Hd).
Qed.

Lemma settled_on_exec_done k error stdout stderr x :
  settled x → settled (on_exec_done k error stdout stderr x).
Proof.
  intros Hg. destruct k as [exe inputs k|cls inputs k|sid src out req|sid file cls req];
    simpl.
  - unfold compileAndRun_callback. destruct error;
      [by apply settled_resolve|by apply settled_execWithInput].
  - unfold runJava_callback. destruct error;
      [by apply settled_resolve|by apply settled_execWithInput].
  - unfold startRunSession_resume. destruct error; [by apply (settled_respond x)|].
    by apply settled_start_registered.
  - unfold startRunSession_resume. destruct error; [by apply (settled_respond x)|].
    by apply settled_start_registered.
Qed.

Lemma settled_step e w : settled w → settled (step e w).
Proof.
  intros Hg.
  destruct e as [dt|req l c i|req l c r1 r2|req sid input|req sid|id err so se cr|p d|p d|p
                 |p code signal]; cbn [step].
  - by apply settled_advance.
  - by apply settled_runCodeWithInput.
  - by apply settled_startRunSession.
  - unfold send_input.
    destruct (runSessions w !! sid) as [proc|]; [|by apply (settled_respond w)].
    destruct (procs w !! proc) as [c|]; [|by apply (settled_respond w)].
    destruct (c_killed c || negb (c_writable c)); [by apply (settled_respond w)|].
    apply (settled_respond w), settled_resetTimer. by apply (settled_same w).
  - unfold stop_run. pose proof (settled_stopRunSession sid false w Hg) as H.
    destruct (stopRunSession sid false w). by apply (settled_respond w).
  - destruct (pending w !! id) as [[cmd k]|]; [|done].
    apply settled_on_exec_done.
    apply (frame_create_files settled_to settled_scratch w).
    by apply (settled_pending w).
  - destruct (open_child p w); [by apply settled_on_data|done].
  - destruct (open_child p w); [by apply settled_on_data|done].
  - destruct (open_child p w); [by apply (settled_same w)|done].
  - destruct (open_child p w); [|done]. apply settled_on_close. by apply (settled_same w).
Qed.

Lemma settled_unused w : settled w → unused (next_pid w) w = true.
Proof.
  intros [H1 H2]. unfold unused. apply andb_true_iff. split; apply forallb_forall.
  - intros t Ht%list_elem_of_In. destruct (acts_on _ _) eqn:E; [|done].
    specialize (H1 t _ Ht E). lia.
  - intros [sid q] Hs%list_elem_of_In%elem_of_map_to_list. simpl.
    destruct (bool_decide (q = next_pid w)) eqn:E; [|done].
    apply bool_decide_eq_true in E as ->. specialize (H2 sid _ Hs). lia.
Qed.

(** In every state reached from start-up the handle of the child that is
    spawned next is not in use. *)
Lemma reachable_handles_are_unused evs is_win32 tmp cmds files t :
  let w := run evs (boot is_win32 tmp cmds files t) in
  unused (next_pid w) w = true.
Proof.
  cbv zeta. apply settled_unused.
  assert (H0 : settled (boot is_win32 tmp cmds files t)).
  { split; simpl; [by intros ?? ?%elem_of_nil|]. intros ??. by rewrite lookup_empty. }
  revert H0. generalize (boot is_win32 tmp cmds files t).
  induction evs as [|e evs IH]; intros w Hw; simpl; [done|]. by apply IH, settled_step.
Qed.

(** *** Consequences for the table *)

(** An id stays out of the table as long as nothing registers it. *)
Lemma step_keeps_absent e w sid :
  runSessions w !! sid = None → registers e w ≠ Some sid →
  runSessions (step e w) !! sid = None.
Proof.
  intros Hn Hr. destruct (step_view e w) as [-> _ _|sid' s Hreg _ _ _ -> _ _
                                            |p s h out _ _ _ -> _ _ _
                                            |p s code signal _ _ _ _ -> _ _]; auto.
  - rewrite lookup_insert_ne; [done|]. congruence.
  - destruct (decide (s_id s = sid)) as [->|Hne];
      [apply lookup_delete_eq|by rewrite lookup_delete_ne].
Qed.

(** No reuse of a session id along a run of events. *)
Fixpoint no_reuse (sessionId : string) (evs : list Event) (w : World) : Prop :=
  match evs with
  | [] => True
  | e :: evs' => registers e w ≠ Some sessionId ∧ no_reuse sessionId evs' (step e w)
  end.

Lemma run_keeps_absent evs w sid :
  runSessions w !! sid = None → no_reuse sid evs w →
  runSessions (run evs w) !! sid = None.
Proof.
  revert w. induction evs as [|e evs IH]; intros w Hn Hr; simpl in *; [done|].
  destruct Hr as [Hr1 Hr2]. apply IH; [|done]. by apply step_keeps_absent.
Qed.

(** Only a close event makes the program send an exit event. *)
Definition is_exit (ev : IpcEvent) : bool :=
  match ev with RunExit _ _ _ => true | RunOutput _ _ _ => false end.

Definition exits (l : list IpcEvent) : list IpcEvent := List.filter is_exit l.

Lemma step_exits e w :
  (∀ p code signal, e ≠ EvClose p code signal) →
  exits (outbox (step e w)) = exits (outbox w).
Proof.
  intros Hne. destruct (step_view e w) as [_ _ ->|sid' s _ _ _ _ _ _ ->
                                           |p s h out _ _ _ _ _ -> Hout
                                           |p s code signal He _ _ _ _ _ _]; auto.
  - unfold exits. rewrite List.filter_app.
    assert (List.filter is_exit out = []) as ->; [|by rewrite app_nil_r].
    induction out as [|ev out IH]; [done|]. simpl.
    destruct (Hout ev) as (? & ? & ? & ->); [by left|]. simpl.
    apply IH. intros ev' Hev'. apply Hout. by right.
  - by destruct (Hne p code signal).
Qed.

(** ** Well-formed worlds *)

(** Session objects live under handles already allocated, every table
    entry points to a session object that captured the same id, and the
    timer handles held by sessions have been allocated. *)
Record wf (w : World) : Prop := {
  wf_sessions : ∀ p, is_Some (sessions w !! p) → (p < next_pid w)%nat;
  wf_table : ∀ k p, runSessions w !! k = Some p →
               ∃ s, sessions w !! p = Some s ∧ s_id s = k;
  wf_handles : ∀ p s h, sessions w !! p = Some s → s_timer s = Some h →
                 (h < next_timer w)%nat
}.

Lemma wf_boot is_win32 tmp cmds files t : wf (boot is_win32 tmp cmds files t).
Proof.
  split; simpl.
  - intros p [x Hx]. by rewrite lookup_empty in Hx.
  - intros k p H. by rewrite lookup_empty in H.
  - intros p s h H. by rewrite lookup_empty in H.
Qed.

Lemma wf_step e w : wf w → wf (step e w).
Proof.
  intros [W1 W2 W3]. pose proof (step_grows e w) as [G1 G2 _ _].
  destruct (step_view e w) as [Ht Hs _|sid s _ Hid Hp Hn Ht Hs _
                               |p s h out Es _ Hn Ht Hs _ _
                               |p s code signal _ _ _ Es Ht Hs _].
  - split; rewrite ?Ht, ?Hs.
    + intros p Hp. apply W1 in Hp. lia.
    + done.
    + intros p s h E1 E2. pose proof (W3 p s h E1 E2). lia.
  - split; rewrite ?Ht, ?Hs.
    + intros p [s' E]. apply lookup_insert_Some in E as [[<- _]|[_ E]]; [done|].
      assert (p < next_pid w)%nat by (apply W1; eauto). lia.
    + intros k p E. apply lookup_insert_Some in E as [[<- <-]|[Hk E]].
      * exists s. by rewrite lookup_insert_eq.
      * destruct (W2 k p E) as (s' & E' & Hk').
        exists s'. split; [|done]. rewrite lookup_insert_ne; [done|].
        assert (p < next_pid w)%nat by (apply W1; eauto). lia.
    + intros p s' h E1 E2. apply lookup_insert_Some in E1 as [[_ <-]|[_ E1]]; [auto|].
      pose proof (W3 p s' h E1 E2). lia.
  - split; rewrite ?Ht, ?Hs.
    + intros q [s' E]. apply lookup_insert_Some in E as [[<- _]|[_ E]].
      * assert (p < next_pid w)%nat by (apply W1; eauto). lia.
      * assert (q < next_pid w)%nat by (apply W1; eauto). lia.
    + intros k q E. destruct (W2 k q E) as (s' & E' & Hk').
      destruct (decide (p = q)) as [->|Hne].
      * eexists. rewrite lookup_insert_eq. split; [done|]. simpl. congruence.
      * exists s'. by rewrite lookup_insert_ne.
    + intros q s' h' E1 E2. apply lookup_insert_Some in E1 as [[_ <-]|[_ E1]].
      * simpl in E2. by apply Hn.
      * pose proof (W3 q s' h' E1 E2). lia.
  - split; rewrite ?Ht, ?Hs.
    + intros q Hq. apply W1 in Hq. lia.
    + intros k q E. apply lookup_delete_Some in E as [_ E]. auto.
    + intros q s' h E1 E2. pose proof (W3 q s' h E1 E2). lia.
Qed.

Lemma wf_run evs w : wf w → wf (run evs w).
Proof.
  revert w. induction evs as [|e evs IH]; intros w Hw; simpl; [done|].
  by apply IH, wf_step.
Qed.

(** ** Teardown of a session *)

(** When the child of a session closes, the close listener takes the id
    out of the table and emits one exit event for the session: in the
    state it leaves, the first that a later call can observe, the id is
    no longer in the table.  No callback other than a close listener
    emits an exit event.  From then on, as long as the same id is not
    registered again, [send-input] and [stop-run] with that id find no
    session. *)
Theorem session_teardown_then_not_found
    (w : World) (p : nat) (s : Session) (code : option Z) (signal : option Signal) :
  execs w !! p = None → sessions w !! p = Some s →
  open_child p w = true → window w = true →
  let w' := step (EvClose p code signal) w in
  runSessions w' !! s_id s = None ∧
  outbox w' = outbox w ++ [RunExit (s_id s) code signal] ∧
  (∀ e x, (∀ q c g, e ≠ EvClose q c g) → exits (outbox (step e x)) = exits (outbox x)) ∧
  (∀ evs input,
     no_reuse (s_id s) evs w' →
     send_input (s_id s) input (run evs w')
       = (SendError "No active session.", run evs w') ∧
     stop_run (s_id s) (run evs w') = (false, run evs w')).
Proof.
  intros Ex Es Ho Hw.
  pose proof (session_close_effect p s code signal w Ex Es Ho) as H.
  cbv zeta in H |- *.
  set (w' := step (EvClose p code signal) w) in *.
  destruct H as (_ & _ & E3 & _ & E5 & _).
  assert (Hgone : runSessions w' !! s_id s = None)
    by (rewrite E3; apply lookup_delete_eq).
  split; [done|]. split; [|split].
  - by rewrite E5, Hw.
  - intros e x. apply step_exits.
  - intros evs input Hr.
    pose proof (run_keeps_absent evs w' (s_id s) Hgone Hr) as Hn.
    unfold send_input, stop_run, stopRunSession. by rewrite Hn.
Qed.

(** The session object of the demo session. *)
Definition demo_object : Session :=
  {| s_id := demo_id;
     s_cleanup := Some ["/tmp/proworldz-lab/temp_1700000000000_zyxw.js"];
     s_timer := Some 1%nat |}.

Lemma session_teardown_then_not_found_witness :
  let w' := step (EvClose 0 (Some 0%Z) None) demo_session in
  outbox w' = outbox demo_session ++ [RunExit demo_id (Some 0%Z) None] ∧
  send_input demo_id (Some "x") (run [EvAdvance 5; EvStopRun 7 demo_id] w')
  = (SendError "No active session.", run [EvAdvance 5; EvStopRun 7 demo_id] w').
Proof.
  assert (H1 : execs demo_session !! 0%nat = None) by (vm_compute; reflexivity).
  assert (H2 : sessions demo_session !! 0%nat = Some demo_object)
    by (vm_compute; reflexivity).
  assert (H3 : open_child 0 demo_session = true) by (vm_compute; reflexivity).
  assert (H4 : window demo_session = true) by (vm_compute; reflexivity).
  destruct (session_teardown_then_not_found demo_session 0%nat demo_object
              (Some 0%Z) None H1 H2 H3 H4) as (_ & E2 & _ & E5).
  split; [exact E2|].
  refine (proj1 (E5 [EvAdvance 5; EvStopRun 7 demo_id] (Some "x") _)).
  split; [discriminate|]. split; [discriminate|exact I].
Defined.

(** ** The idle timer *)

(** An event that counts as activity of the session stored under [p]: a
    chunk on stdout or stderr of its open child, or a [send-input] that
    passes the guard of the handler. *)
Definition activity (e : Event) (p : nat) (s : Session) (w : World) : Prop :=
  execs w !! p = None ∧ sessions w !! p = Some s ∧
  match e with
  | EvStdout q _ | EvStderr q _ => q = p ∧ open_child p w = true
  | EvSendInput _ sessionId _ =>
      runSessions w !! sessionId = Some p ∧
      ∃ c, procs w !! p = Some c ∧ c_killed c = false ∧ c_writable c = true
  | _ => False
  end.

Lemma resetTimer_effect p s x w :
  sessions x !! p = Some s →
  timers x = timers w → next_timer x = next_timer w → now x = now w →
  timers (resetTimer p x)
    = filter (λ t, Some (t_id t) ≠ s_timer s) (timers w) ++ [idle_timer (s_id s) w] ∧
  now (resetTimer p x) = now w ∧
  runSessions (resetTimer p x) = runSessions x ∧
  procs (resetTimer p x) = procs x.
Proof.
  intros Es Ht Hn Hc. rewrite (resetTimer_spec p s x Es).
  cbn [timers now runSessions procs set_session_timer set_sessions set_timers].
  rewrite clearTimeout_timers, Ht. unfold idle_timer. by rewrite Hn, Hc.
Qed.

Lemma activity_resets e p s w :
  activity e p s w →
  timers (step e w)
    = filter (λ t, Some (t_id t) ≠ s_timer s) (timers w) ++ [idle_timer (s_id s) w] ∧
  now (step e w) = now w ∧
  runSessions (step e w) = runSessions w ∧
  (∀ c, procs w !! p = Some c →
     ∃ c', procs (step e w) !! p = Some c' ∧ c_exited c' = c_exited c).
Proof.
  intros (Ex & Es & He).
  destruct e as [| | |req sid input| | |q d|q d| |]; try done.
  - destruct He as (Et & c & Ec & Hk & Hw).
    assert (Hstep : step (EvSendInput req sid input) w
                    = respond req (RepSend SendOk)
                        (resetTimer p (stdin_write p (default "" input +:+ LF) w))).
    { cbn [step]. unfold send_input. by rewrite Et, Ec, Hk, Hw. }
    rewrite Hstep. cbn [timers now runSessions procs respond set_replies].
    destruct (resetTimer_effect p s (stdin_write p (default "" input +:+ LF) w) w)
      as (-> & -> & -> & ->); try done.
    repeat split. intros c0 Ec0. simpl. rewrite lookup_alter_eq, Ec0. simpl.
    eexists. split; [done|]. by destruct (c_writable c0).
  - destruct He as [-> Ho].
    assert (Hstep : step (EvStdout p d) w
                    = resetTimer p (sendRunOutput (s_id s) "stdout" d w)).
    { cbn [step]. rewrite Ho. unfold on_data. by rewrite Ex, Es. }
    rewrite Hstep.
    destruct (resetTimer_effect p s (sendRunOutput (s_id s) "stdout" d w) w)
      as (-> & -> & -> & ->); try (unfold sendRunOutput; by destruct (window w)).
    unfold sendRunOutput. destruct (window w); repeat split; eauto.
  - destruct He as [-> Ho].
    assert (Hstep : step (EvStderr p d) w
                    = resetTimer p (sendRunOutput (s_id s) "stderr" d w)).
    { cbn [step]. rewrite Ho. unfold on_data. by rewrite Ex, Es. }
    rewrite Hstep.
    destruct (resetTimer_effect p s (sendRunOutput (s_id s) "stderr" d w) w)
      as (-> & -> & -> & ->); try (unfold sendRunOutput; by destruct (window w)).
    unfold sendRunOutput. destruct (window w); repeat split; eauto.
Qed.

(** After the close listener nothing touches the session object again,
    and its timer handle is never pending again. *)
Definition torn_down (p : nat) (s : Session) (w : World) : Prop :=
  open_child p w = false ∧ (p < next_pid w)%nat ∧
  (∀ k, runSessions w !! k ≠ Some p) ∧
  sessions w !! p = Some s ∧
  ∀ h, s_timer s = Some h → (h < next_timer w)%nat ∧ ∀ t, t ∈ timers w → t_id t ≠ h.

Lemma torn_down_step e p s w : torn_down p s w → torn_down p s (step e w).
Proof.
  intros (Ho & Hp & Ht & Es & Hh).
  pose proof (step_grows e w) as [G1 G2 G3 G4].
  assert (Hview : (∀ k, runSessions (step e w) !! k ≠ Some p) ∧
                  sessions (step e w) !! p = Some s).
  { destruct (step_view e w) as [-> -> _|sid s' _ _ _ _ -> -> _
                                 |q s' h out _ Hq _ -> -> _ _
                                 |q s' code signal _ _ _ _ -> -> _].
    - done.
    - split.
      + intros k [[_ E]|[_ E]]%lookup_insert_Some; [lia|by apply (Ht k)].
      + rewrite lookup_insert_ne; [done|lia].
    - split; [done|]. rewrite lookup_insert_ne; [done|].
      intros ->. destruct Hq as [Hq|[sid Hq]]; [congruence|by apply (Ht sid)].
    - split; [|done]. intros k [_ E]%lookup_delete_Some. by apply (Ht k). }
  destruct Hview as [Ht' Es'].
  repeat split; auto; try lia.
  - destruct (Hh h H) as [Hlt _]. lia.
  - intros t Hin. destruct (Hh h H) as [Hlt Hne].
    destruct (G3 t Hin) as [Hold|Hnew]; [by apply Hne|lia].
Qed.

Lemma torn_down_run evs p s w : torn_down p s w → torn_down p s (run evs w).
Proof.
  revert w. induction evs as [|e evs IH]; intros w H; simpl; [done|].
  by apply IH, torn_down_step.
Qed.

Lemma torn_down_after_close p s code signal w :
  wf w → execs w !! p = None → sessions w !! p = Some s → open_child p w = true →
  torn_down p s (step (EvClose p code signal) w).
Proof.
  intros [W1 W2 W3] Ex Es Ho.
  destruct (session_close_effect p s code signal w Ex Es Ho)
    as (_ & _ & E3 & E4 & _ & E6 & E7 & E8).
  pose proof (step_grows (EvClose p code signal) w) as [G1 _ _ _].
  assert (p < next_pid w)%nat by (apply W1; eauto).
  repeat split.
  - unfold open_child. rewrite E8. by apply (closed_after_close p).
  - lia.
  - rewrite E3. intros k [Hk E]%lookup_delete_Some.
    destruct (W2 k p E) as (s' & E' & Hk'). congruence.
  - by rewrite E4.
  - rewrite E7. by apply (W3 p s).
  - rewrite E6, clearTimeout_timers. intros t [Hne _]%list_elem_of_filter Heq.
    apply Hne. congruence.
Qed.

(** C4.  Every activity of a session (a chunk of output, an input
    written) cancels the timer the session holds and sets a new one due
    120000 ms later.  When no activity follows for 120000 ms and the child
    has not exited, SIGTERM is delivered to it, and SIGKILL within another
    1000 ms.  Once the close listener has run, the timer handle of the
    session is never pending again and the session object is never
    touched again, whatever happens afterwards. *)
Theorem idle_timeout_spec :
  (∀ e p s w,
     activity e p s w →
     timers (step e w)
     = filter (λ t, Some (t_id t) ≠ s_timer s) (timers w)
       ++ [{| t_id := next_timer w; t_due := now w + 120000;
              t_act := TaIdleStop (s_id s) |}]) ∧
  (∀ e p s w c dt,
     activity e p s w → runSessions w !! s_id s = Some p →
     procs w !! p = Some c → c_exited c = false →
     120000 ≤ dt →
     escalated p (now w + dt + 1000) (advance dt (step e w))) ∧
  (∀ w p D dt,
     escalated p D w → D ≤ now w + dt → force_killed p (advance dt w)) ∧
  (∀ w p s code signal evs,
     wf w → execs w !! p = None → sessions w !! p = Some s → open_child p w = true →
     let w' := run evs (step (EvClose p code signal) w) in
     sessions w' !! p = Some s ∧
     ∀ t, t ∈ timers w' → Some (t_id t) ≠ s_timer s).
Proof.
  repeat split.
  - intros e p s w Ha. by destruct (activity_resets e p s w Ha) as [-> _].
  - intros e p s w c dt Ha Et Ec Hx Hdt.
    destruct (activity_resets e p s w Ha) as (Ht & Hn & Hr & Hc).
    destruct (Hc c Ec) as (c' & Ec' & Hx').
    rewrite <- Hn.
    apply (advance_escalates (idle_timer (s_id s) w) p dt (step e w) c'); auto.
    + rewrite Ht. apply elem_of_app. right. by left.
    + rewrite Hn. simpl. lia.
    + congruence.
    + right. exists (s_id s). split; [done|]. by rewrite Hr.
  - intros w p D dt. apply advance_force_kills.
  - by destruct (torn_down_run evs p s _
                   (torn_down_after_close p s code signal w H H0 H1 H2))
      as (_ & _ & _ & ? & _).
  - intros t Hin Heq.
    destruct (torn_down_run evs p s _
                (torn_down_after_close p s code signal w H H0 H1 H2))
      as (_ & _ & _ & _ & Hh).
    destruct (Hh (t_id t)) as [_ Hne]; [done|]. by apply (Hne t).
Qed.

Lemma idle_timeout_spec_witness :
  escalated 0 (now demo_session + 120000 + 1000)
    (advance 120000 (step (EvStdout 0 "again") demo_session)) ∧
  sessions (run [EvAdvance 1000; EvStopRun 9 demo_id]
              (step (EvClose 0 (Some 0%Z) None) demo_session)) !! 0%nat
  = Some {| s_id := demo_id;
            s_cleanup := Some ["/tmp/proworldz-lab/temp_1700000000000_zyxw.js"];
            s_timer := Some 1%nat |}.
Proof.
  split.
  - refine (proj1 (proj2 idle_timeout_spec) (EvStdout 0 "again") 0%nat
              {| s_id := demo_id;
                 s_cleanup := Some ["/tmp/proworldz-lab/temp_1700000000000_zyxw.js"];
                 s_timer := Some 1%nat |}
              demo_session
              {| c_cmd := "node";
                 c_args := ["/tmp/proworldz-lab/temp_1700000000000_zyxw.js"];
                 c_killed := false; c_exited := false; c_closed := false;
                 c_writable := true; c_stdin := []; c_signals := [] |}
              120000 _ _ _ eq_refl _).
    + repeat split; by vm_compute.
    + by vm_compute.
    + by vm_compute.
    + vm_compute. discriminate.
  - refine (proj1 (proj2 (proj2 (proj2 idle_timeout_spec)) demo_session 0%nat _
              (Some 0%Z) None [EvAdvance 1000; EvStopRun 9 demo_id] _ _ _ _)).
    + apply (wf_run _ demo_world), wf_boot.
    + by vm_compute.
    + by vm_compute.
    + by vm_compute.
Defined.

(** * Further properties of the program *)

(** ** Unsupported languages *)

(** Both entry points refuse a language outside the fixed list with a
    message that names the language and lists the supported ones, and do
    nothing else: no file, no command, no child, no session. *)
Theorem unsupported_language_is_refused
    (req : nat) (language code rnd1 rnd2 : string) (inputs : list string) (w : World) :
  language ∉ getSupportedLanguages →
  let message :=
    "Language " +:+ quoted language +:+
    " is not supported. Supported languages: c, cpp, python, java, javascript, php, go" in
  runCodeWithInput req language code inputs w
    = respond req (RepRun {| success := false; output := message |}) w ∧
  startRunSession req language code rnd1 rnd2 w
    = respond req (RepStart (StartError message)) w.
Proof.
  intros Hl. cbv zeta. unfold runCodeWithInput, startRunSession.
  rewrite bool_decide_eq_false_2 by done. done.
Qed.

Lemma unsupported_language_is_refused_witness :
  replies (runCodeWithInput 1 "ruby" "puts 1" [] demo_world)
  = [(1%nat, RepRun {| success := false;
        output := "Language " +:+ quoted "ruby" +:+
          " is not supported. Supported languages: c, cpp, python, java, javascript, php, go" |})].
Proof.
  assert (H : "ruby" ∉ getSupportedLanguages)
    by (apply (bool_decide_eq_false_1 _); vm_compute; reflexivity).
  by rewrite (proj1 (unsupported_language_is_refused 1 "ruby" "puts 1" "" "" [] demo_world H)).
Defined.

(** ** Deleting files *)

Lemma safeUnlink_effect filePath w :
  safeUnlink filePath w = (Ret tt, set_scratch (delete filePath <$> scratch w) w).
Proof.
  unfold safeUnlink, try_catch, unlinkSync.
  destruct (scratch w) as [d|] eqn:E; simpl.
  - destruct (d !! filePath) as [v|] eqn:Ed; simpl; [done|].
    rewrite delete_id by done. by rewrite <- E, set_scratch_same.
  - by rewrite <- E, set_scratch_same.
Qed.

(** [safeUnlink] never throws: whatever [unlinkSync] throws is caught.
    Among the plain files of the scratch directory it removes the file
    when it is there, and it changes nothing when the file is not there
    or the directory is gone. *)
Theorem safeUnlink_never_throws (filePath : string) (w : World) :
  safeUnlink filePath w = (Ret tt, set_scratch (delete filePath <$> scratch w) w).
Proof. apply safeUnlink_effect. Qed.

Lemma cleanupFiles_spec files w :
  cleanupFiles files w
  = set_scratch ((λ d, foldl (λ m f, delete f m) d files) <$> scratch w) w.
Proof.
  unfold cleanupFiles. revert w. induction files as [|f files IH]; intros w; simpl.
  - destruct (scratch w) eqn:E; simpl; by rewrite <- E, set_scratch_same.
  - unfold bind. rewrite safeUnlink_effect. rewrite IH. simpl.
    by destruct (scratch w).
Qed.

Lemma lookup_foldl_delete (files : list string) (d : gmap string string) p :
  foldl (λ m f, delete f m) d files !! p = if bool_decide (p ∈ files) then None else d !! p.
Proof.
  revert d. induction files as [|f files IH]; intros d; simpl; [done|].
  rewrite IH. destruct (decide (p = f)) as [->|Hne].
  - rewrite lookup_delete_eq. rewrite (bool_decide_eq_true_2 (f ∈ f :: files)) by by left.
    by case_bool_decide.
  - rewrite lookup_delete_ne by done.
    destruct (bool_decide (p ∈ files)) eqn:B.
    + apply bool_decide_eq_true in B. rewrite bool_decide_eq_true_2; [done|by right].
    + apply bool_decide_eq_false in B. rewrite bool_decide_eq_false_2; [done|].
      intros [?|?]%elem_of_cons; done.
Qed.

(** The teardown of a session deletes exactly the files of its cleanup
    closure, whether they are still there or not, and no other file. *)
Theorem session_teardown_deletes_its_files
    (p : nat) (s : Session) (files : list string) (code : option Z)
    (signal : option Signal) (w : World) (d : gmap string string) :
  execs w !! p = None → sessions w !! p = Some s → open_child p w = true →
  s_cleanup s = Some files → scratch w = Some d →
  ∃ d', scratch (step (EvClose p code signal) w) = Some d' ∧
        ∀ path, d' !! path = if bool_decide (path ∈ files) then None else d !! path.
Proof.
  intros Ex Es Ho Hc Ed.
  destruct (session_close_effect p s code signal w Ex Es Ho) as (-> & _).
  unfold sendRunExit, session_teardown. rewrite Hc, cleanupFiles_spec.
  exists (foldl (λ m f, delete f m) d files). split.
  - destruct (s_timer s); simpl; rewrite Ed; simpl; by destruct (window w).
  - apply lookup_foldl_delete.
Qed.

Lemma session_teardown_deletes_its_files_witness :
  ∃ d', scratch (step (EvClose 0 (Some 0%Z) None) demo_session) = Some d' ∧
        d' !! "/tmp/proworldz-lab/temp_1700000000000_zyxw.js" = None.
Proof.
  assert (H1 : execs demo_session !! 0%nat = None) by (vm_compute; reflexivity).
  assert (H2 : sessions demo_session !! 0%nat = Some demo_object)
    by (vm_compute; reflexivity).
  assert (H3 : open_child 0 demo_session = true) by (vm_compute; reflexivity).
  assert (H4 : scratch demo_session
               = Some {["/tmp/proworldz-lab/temp_1700000000000_zyxw.js"
                        := "console.log('ready');"]}) by (vm_compute; reflexivity).
  destruct (session_teardown_deletes_its_files 0 demo_object
              ["/tmp/proworldz-lab/temp_1700000000000_zyxw.js"] (Some 0%Z) None
              demo_session _ H1 H2 H3 eq_refl H4) as (d' & E & Hd).
  exists d'. split; [exact E|]. by rewrite Hd.
Defined.

(** ** The Java class name *)

(** Every character of [s] satisfies [f]. *)
Fixpoint every (f : ascii -> bool) (s : string) : bool :=
  match s with
  | EmptyString => true
  | String c s' => f c && every f s'
  end.

Lemma take_while_every f s : every f (Js.take_while f s) = true.
Proof.
  induction s as [|c s IH]; simpl; [done|].
  destruct (f c) eqn:E; simpl; [|done]. by rewrite E.
Qed.

Lemma plus_Some f s m r : Js.plus f s = Some (m, r) → m ≠ "" ∧ every f m = true.
Proof.
  unfold Js.plus. pose proof (take_while_every f s) as H.
  destruct (Js.take_while f s) as [|c m']; [done|]. by intros [= <- <-].
Qed.

Lemma public_class_here_word s name :
  Js.public_class_here s = Some name → name ≠ "" ∧ every Js.is_word name = true.
Proof.
  unfold Js.public_class_here. intros H.
  apply bind_Some in H as (s1 & _ & H).
  apply bind_Some in H as ([? s2] & _ & H).
  apply bind_Some in H as (s3 & _ & H).
  apply bind_Some in H as ([? s4] & _ & H).
  apply bind_Some in H as ([n r] & E & H).
  injection H as <-. by eapply plus_Some.
Qed.

Lemma is_word_no_sep win c : Js.is_word c = true → is_sep win c = false.
Proof.
  unfold Js.is_word, is_sep. destruct (N_of_ascii c =? 47) eqn:E1.
  { apply N.eqb_eq in E1. rewrite E1. by vm_compute. }
  destruct (N_of_ascii c =? 92) eqn:E2.
  { apply N.eqb_eq in E2. rewrite E2. by vm_compute. }
  by destruct win.
Qed.

Lemma every_word_no_sep win s : every Js.is_word s = true → has_sep win s = false.
Proof.
  induction s as [|c s IH]; simpl; [done|].
  intros [Hc Hs]%andb_true_iff. by rewrite (is_word_no_sep win c Hc), IH.
Qed.

(** The class name that [code.match(/public\s+class\s+(\w+)/)] captures is
    never empty and consists of letters, digits and underscores only; in
    particular it holds no path separator, on either platform. *)
Theorem public_class_name_is_a_word (code name : string) :
  Js.match_public_class code = Some name →
  name ≠ "" ∧ every Js.is_word name = true ∧ ∀ win, has_sep win name = false.
Proof.
  assert (Hhere : ∀ s, Js.public_class_here s = Some name →
            name ≠ "" ∧ every Js.is_word name = true ∧ ∀ win, has_sep win name = false).
  { intros s E. destruct (public_class_here_word _ _ E) as [H1 H2].
    auto using every_word_no_sep. }
  induction code as [|c code IH]; cbn [Js.match_public_class].
  - destruct (Js.public_class_here "") as [n|] eqn:E; [|done].
    intros [= <-]. eauto.
  - destruct (Js.public_class_here (String c code)) as [n|] eqn:E; [|exact IH].
    intros [= <-]. eauto.
Qed.

Lemma public_class_name_is_a_word_witness :
  Js.match_public_class "import x; public   class Main_2{ class ../etc }" = Some "Main_2" ∧
  has_sep true "Main_2" = false.
Proof.
  split; [reflexivity|].
  exact (proj2 (proj2 (public_class_name_is_a_word
           "import x; public   class Main_2{ class ../etc }" "Main_2" eq_refl)) true).
Defined.

(** ** The sweep of a batch run *)

Lemma has_sep_prefix win dir name :
  has_sep win ((dir +:+ (if win then "\" else "/")) +:+ name) = true.
Proof.
  induction dir as [|a dir IH].
  - by destruct win.
  - change (has_sep win (String a ((dir +:+ (if win then "\" else "/")) +:+ name)) = true).
    cbn [has_sep]. by rewrite IH, orb_true_r.
Qed.

(** The last component of a path built by [path_join] from a name with
    no separator is that name. *)
Lemma basename_path_join win dir name :
  has_sep win name = false → basename win (path_join win dir name) = name.
Proof.
  intros Hn. unfold path_join, dir_prefix. induction dir as [|a dir IH].
  - destruct win.
    + change (basename true (String "\" name) = name). cbn [basename]. by rewrite Hn.
    + change (basename false (String "/" name) = name). cbn [basename]. by rewrite Hn.
  - change (basename win (String a ((dir +:+ (if win then "\" else "/")) +:+ name)) = name).
    cbn [basename]. by rewrite (has_sep_prefix win dir name), IH.
Qed.

(** The sweep of a batch run, in a scratch directory of plain files, for
    a base path [tempDir/<stem>] whose stem is a non-empty word, as the
    program builds it: [cleanupTempFiles] deletes every entry of the
    directory whose name contains the stem, and keeps every other file. *)
Theorem cleanupTempFiles_sweeps (stem : string) (w : World) (d : gmap string string) :
  scratch w = Some d →
  stem ≠ "" → every Js.is_word stem = true →
  let b := path_join (win32 w) (tempDir w) stem in
  ∃ d', scratch (cleanupTempFiles b w).2 = Some d' ∧
        ∀ path,
          d' !! path =
            match entry_name (win32 w) (tempDir w) path with
            | Some f => if Js.includes f stem then None else d !! path
            | None => d !! path
            end.
Proof.
  intros E _ Hw. cbv zeta. eexists. split.
  - by rewrite (cleanupTempFiles_ok _ _ _ E).
  - rewrite basename_path_join by (by apply every_word_no_sep). apply swept_lookup.
Qed.

Lemma cleanupTempFiles_sweeps_witness :
  let w := set_scratch (Some {[ "/tmp/proworldz-lab/temp_17.py" := "a";
                                "/tmp/proworldz-lab/temp_17.exe" := "b";
                                "/tmp/proworldz-lab/Foo.java" := "c" ]}) demo_world in
  ∃ d', scratch (cleanupTempFiles "/tmp/proworldz-lab/temp_17" w).2 = Some d' ∧
        d' !! "/tmp/proworldz-lab/temp_17.exe" = None ∧
        d' !! "/tmp/proworldz-lab/Foo.java" = Some "c".
Proof.
  cbv zeta.
  assert (Hne : "temp_17" ≠ "") by done.
  destruct (cleanupTempFiles_sweeps "temp_17"
              (set_scratch (Some {[ "/tmp/proworldz-lab/temp_17.py" := "a";
                                    "/tmp/proworldz-lab/temp_17.exe" := "b";
                                    "/tmp/proworldz-lab/Foo.java" := "c" ]}) demo_world)
              _ eq_refl Hne eq_refl) as (d' & E & Hd).
  exists d'. split; [exact E|]. rewrite !Hd. split; by vm_compute.
Defined.

(** ** Reachable states *)

(** In every state the main process can reach from start-up, every entry
    of the session table points to a session object whose closures
    captured the same id, session objects live under handles of children
    already spawned, and the timer handles they hold have been
    allocated. *)
Theorem reachable_worlds_are_well_formed
    (is_win32 : bool) (tmp : string) (cmds : list string) (files : gmap string string)
    (t : N) (evs : list Event) :
  wf (run evs (boot is_win32 tmp cmds files t)).
Proof. apply wf_run, wf_boot. Qed.

(** ** Explicit stop *)



(** ** Failed compilations *)

Lemma lookup_create_files created (d : gmap string string) p :
  is_Some (d !! p) → is_Some (foldr (λ kv m, <[kv.1 := kv.2]> m) d created !! p).
Proof.
  intros H. induction created as [|[k v] created IH]; simpl; [done|].
  destruct (decide (k = p)) as [->|Hne]; [rewrite lookup_insert_eq; eauto|].
  by rewrite lookup_insert_ne.
Qed.

(** A C or C++ batch run compiles before it spawns anything.  When the
    compiler fails, the run answers [{success: false}] with the compiler's
    stderr, or the error message when stderr is empty; no child is
    spawned, and the sweep removes every entry of the scratch directory
    that has the stem of the run in its name, the source included. *)
Theorem batch_compile_failure
    (req : nat) (language code message stdout stderr : string) (inputs : list string)
    (created : list (string * string)) (w : World) (d : gmap string string) :
  language = "c" ∨ language = "cpp" →
  scratch w = Some d →
  let w1 := runCodeWithInput req language code inputs w in
  let w2 := step (EvExecDone (next_exec w) (Some message) stdout stderr created) w1 in
  replies w1 = replies w ∧ procs w1 = procs w ∧
  replies w2 = replies w ++
    [(req, RepRun {| success := false;
                     output := if decide (stderr = "") then message else stderr |})] ∧
  procs w2 = procs w ∧
  ∀ path f,
    entry_name (win32 w) (tempDir w) path = Some f →
    Js.includes f (basename (win32 w) (batch_base w)) = true →
    (scratch w2 ≫= lookup path) = None.
Proof.
  intros Hl Ed. cbv zeta.
  assert (Hrun : ∃ src cmd exe,
    runCodeWithInput req language code inputs w
    = exec cmd (KCompileAndRun exe inputs (KBatch req (batch_base w)))
        (set_scratch (Some (<[src := code]> d)) w)).
  { unfold runCodeWithInput. cbv zeta.
    destruct Hl as [-> | ->];
      [change (runners "c") with (Some runCWithInput)
      |change (runners "cpp") with (Some runCppWithInput)];
      (rewrite bool_decide_eq_true_2
         by (apply (bool_decide_unpack _); vm_compute; exact I));
      cbn [negb];
      unfold runCWithInput, runCppWithInput, compileAndRun, bind, writeFileSync, lift;
      rewrite Ed; eauto. }
  destruct Hrun as (src & cmd & exe & ->).
  split; [done|]. split; [done|].
  cbn [step pending exec set_pending]. rewrite lookup_insert_eq.
  cbn [on_exec_done compileAndRun_callback resolve].
  match goal with |- context [runCodeWithInput_settle _ _ _ ?x] =>
    assert (Hs : ∃ d2, scratch x = Some d2) by (simpl; eauto);
    destruct Hs as [d2 Hs];
    rewrite (runCodeWithInput_settle_ok _ _ _ x d2 Hs);
    change (win32 x) with (win32 w); change (tempDir x) with (tempDir w)
  end.
  repeat split.
  intros path f Hf Hi. cbn [scratch respond set_replies set_scratch mbind option_bind].
  by rewrite swept_lookup, Hf, Hi.
Qed.

Lemma batch_compile_failure_witness :
  let w1 := runCodeWithInput 1 "c" "int main(" [] demo_world in
  replies (step (EvExecDone 0 (Some "Command failed") "" "error: expected declaration"
                   [("/tmp/proworldz-lab/temp_1700000000000.o", "x")]) w1)
  = [(1%nat, RepRun {| success := false; output := "error: expected declaration" |})].
Proof.
  exact (proj1 (proj2 (proj2 (batch_compile_failure 1 "c" "int main(" "Command failed" ""
           "error: expected declaration" []
           [("/tmp/proworldz-lab/temp_1700000000000.o", "x")] demo_world ∅
           (or_introl eq_refl) eq_refl)))).
Defined.

(** A C or C++ session start compiles first.  When the compiler fails,
    the start answers [{error}] with the compiler's stderr, else its
    stdout, else the error message; no session is registered and no child
    is spawned.  At that point [cleanup] is still [null] in the [catch]
    block, so the source file written before the compilation stays in the
    scratch directory. *)
Theorem session_compile_failure
    (req : nat) (language code rnd1 rnd2 message stdout stderr : string)
    (created : list (string * string)) (w : World) (d : gmap string string) :
  language = "c" ∨ language = "cpp" →
  scratch w = Some d →
  let w1 := startRunSession req language code rnd1 rnd2 w in
  let w2 := step (EvExecDone (next_exec w) (Some message) stdout stderr created) w1 in
  replies w1 = replies w ∧
  replies w2 = replies w ++
    [(req, RepStart (StartError
        (if decide (stderr = "") then
           if decide (stdout = "") then message else stdout
         else stderr)))] ∧
  runSessions w2 = runSessions w ∧ sessions w2 = sessions w ∧ procs w2 = procs w ∧
  timers w2 = timers w ∧
  is_Some (scratch w2 ≫= lookup (session_base rnd2 w +:+ "." +:+ language)).
Proof.
  intros Hl Ed. cbv zeta.
  assert (Hrun : ∃ cmd out,
    startRunSession req language code rnd1 rnd2 w
    = exec cmd (KSessCompiled (createSessionId rnd1 w)
                  (session_base rnd2 w +:+ "." +:+ language) out req)
        (set_scratch (Some (<[session_base rnd2 w +:+ "." +:+ language := code]> d)) w)).
  { unfold startRunSession. cbv zeta.
    destruct Hl as [-> | ->];
      (rewrite bool_decide_eq_true_2
         by (apply (bool_decide_unpack _); vm_compute; exact I));
      cbn [negb]; repeat (case_decide; [done|]); rewrite decide_True by done;
      unfold bind, writeFileSync, lift; rewrite Ed; cbn [start_failed]; eauto. }
  destruct Hrun as (cmd & out & ->).
  split; [done|].
  cbn [step pending exec set_pending]. rewrite lookup_insert_eq.
  cbn [on_exec_done startRunSession_resume].
  repeat split.
  cbn [scratch respond set_replies create_files set_pending set_scratch].
  cbn [mbind option_bind]. apply lookup_create_files. rewrite lookup_insert_eq. eauto.
Qed.

Lemma session_compile_failure_witness :
  let w1 := startRunSession 1 "c" "int main(" "0.abcdefghij" "0.zyxwvu" demo_world in
  runSessions (step (EvExecDone 0 (Some "Command failed") "" "error: expected" []) w1) = ∅.
Proof.
  exact (proj1 (proj2 (proj2 (session_compile_failure 1 "c" "int main(" "0.abcdefghij"
           "0.zyxwvu" "Command failed" "" "error: expected" [] demo_world ∅
           (or_introl eq_refl) eq_refl)))).
Defined.

(** ** Starting a session *)

(** The interpreted cases of the [switch] of [startRunSession]: the file
    extension, the command and the arguments that precede the file. *)
Definition script_case (language : string) (w : World)
    : option (string * string * list string) :=
  if decide (language = "javascript") then Some (".js", "node", [])
  else if decide (language = "python") then Some (".py", getPythonCommand w, [])
  else if decide (language = "php") then Some (".php", "php", [])
  else if decide (language = "go") then Some (".go", "go", ["run"])
  else None.

(** Starting a session in an interpreted language, with the scratch
    directory in place: the source is written under the base path of the
    session, the interpreter is spawned on it with piped stdio, the
    session is entered into the table under a fresh id of the form
    [run_<time>_<random>], its idle timer is set for 120000 ms, its
    cleanup closure holds the source file, and the id is the answer. *)
Theorem session_start_registers
    (req : nat) (language code rnd1 rnd2 ext cmd : string) (pre : list string)
    (w : World) (d : gmap string string) :
  script_case language w = Some (ext, cmd, pre) →
  scratch w = Some d →
  let sessionId := createSessionId rnd1 w in
  let file := session_base rnd2 w +:+ ext in
  let w' := startRunSession req language code rnd1 rnd2 w in
  replies w' = replies w ++ [(req, RepStart (StartSession sessionId))] ∧
  scratch w' = Some (<[file := code]> d) ∧
  procs w' = <[next_pid w := fresh_child cmd (pre ++ [file]) true]> (procs w) ∧
  runSessions w' = <[sessionId := next_pid w]> (runSessions w) ∧
  sessions w' !! next_pid w
    = Some {| s_id := sessionId; s_cleanup := Some [file];
              s_timer := Some (next_timer w) |} ∧
  timers w' = timers w ++ [idle_timer sessionId w].
Proof.
  intros Hc Ed. cbv zeta.
  assert (Hl : language ∈ getSupportedLanguages).
  { unfold script_case in Hc. repeat case_decide; simplify_eq;
      apply (bool_decide_unpack _); vm_compute; exact I. }
  assert (Hrun : startRunSession req language code rnd1 rnd2 w
    = start_failed req
        (start_script req (createSessionId rnd1 w) (session_base rnd2 w +:+ ext) code cmd
           (pre ++ [session_base rnd2 w +:+ ext]) w)).
  { unfold startRunSession. cbv zeta. rewrite bool_decide_eq_true_2 by done. cbn [negb].
    unfold script_case in Hc.
    repeat (case_decide; [by simplify_eq|]). done. }
  rewrite Hrun. unfold start_script, bind, writeFileSync, lift. rewrite Ed.
  cbn [start_failed spawn]. unfold start_registered, registerRunSession.
  set (s0 := {| s_id := createSessionId rnd1 w;
                s_cleanup := Some [session_base rnd2 w +:+ ext]; s_timer := None |}).
  match goal with |- context [resetTimer ?p ?x] =>
    rewrite (resetTimer_spec p s0 x) by (simpl; apply lookup_insert_eq)
  end.
  cbn. rewrite lookup_alter_eq, lookup_insert_eq. done.
Qed.

Lemma session_start_registers_witness :
  runSessions (startRunSession 1 "javascript" "console.log('ready');"
                 "0.abcdefghij" "0.zyxwvu" demo_world) !! demo_id = Some 0%nat.
Proof.
  rewrite (proj1 (proj2 (proj2 (proj2 (session_start_registers 1 "javascript"
             "console.log('ready');" "0.abcdefghij" "0.zyxwvu" ".js" "node" [] demo_world ∅
             eq_refl eq_refl))))).
  by vm_compute.
Defined.

(** ** Output events *)

Definition chunk_event (p : nat) (c : bool * string) : Event :=
  if c.1 then EvStderr p c.2 else EvStdout p c.2.

Definition chunk_output (sessionId : string) (c : bool * string) : IpcEvent :=
  RunOutput sessionId (if c.1 then "stderr" else "stdout") c.2.

(** Every chunk a session's child writes to stdout or stderr is sent to
    the window as one output event, tagged with the id of the session and
    the kind of the stream, in the order of arrival; no exit event and no
    event of another session is mixed in. *)
Theorem output_is_forwarded_in_order
    (p : nat) (chunks : list (bool * string)) : ∀ (s : Session) (w : World),
  execs w !! p = None → sessions w !! p = Some s →
  open_child p w = true → window w = true →
  outbox (run (chunk_event p <$> chunks) w)
  = outbox w ++ (chunk_output (s_id s) <$> chunks).
Proof.
  induction chunks as [|[is_err data] chunks IH]; intros s w Ex Es Ho Hw.
  - simpl. by rewrite app_nil_r.
  - rewrite !fmap_cons.
    change (run (chunk_event p (is_err, data) :: (chunk_event p <$> chunks)) w)
      with (run (chunk_event p <$> chunks) (step (chunk_event p (is_err, data)) w)).
    set (w1 := step (chunk_event p (is_err, data)) w).
    assert (Hstep : w1 = resetTimer p
              (sendRunOutput (s_id s) (if is_err then "stderr" else "stdout") data w)).
    { unfold w1, chunk_event. destruct is_err; cbn [fst snd step]; rewrite Ho;
        unfold on_data; by rewrite Ex, Es. }
    assert (Hs : sessions (sendRunOutput (s_id s) (if is_err then "stderr" else "stdout")
                             data w) !! p = Some s).
    { unfold sendRunOutput. by rewrite Hw. }
    rewrite (resetTimer_spec p s _ Hs) in Hstep.
    rewrite (IH {| s_id := s_id s; s_cleanup := s_cleanup s;
                   s_timer := Some (next_timer w) |} w1).
    + rewrite Hstep. unfold sendRunOutput. rewrite Hw. cbn.
      by rewrite <- app_assoc.
    + rewrite Hstep. unfold sendRunOutput. by rewrite Hw.
    + rewrite Hstep. unfold sendRunOutput. rewrite Hw. cbn.
      by rewrite lookup_alter_eq, Es.
    + rewrite Hstep. unfold sendRunOutput. by rewrite Hw.
    + rewrite Hstep. unfold sendRunOutput. by rewrite Hw.
Qed.

Lemma output_is_forwarded_in_order_witness :
  outbox (run [EvStdout 0 "a"; EvStderr 0 "b"; EvStdout 0 "c"] demo_session)
  = outbox demo_session ++
    [RunOutput demo_id "stdout" "a"; RunOutput demo_id "stderr" "b";
     RunOutput demo_id "stdout" "c"].
Proof.
  assert (H1 : execs demo_session !! 0%nat = None) by (vm_compute; reflexivity).
  assert (H2 : sessions demo_session !! 0%nat = Some demo_object)
    by (vm_compute; reflexivity).
  assert (H3 : open_child 0 demo_session = true) by (vm_compute; reflexivity).
  assert (H4 : window demo_session = true) by (vm_compute; reflexivity).
  exact (output_is_forwarded_in_order 0 [(false, "a"); (true, "b"); (false, "c")]
           demo_object demo_session H1 H2 H3 H4).
Defined.

(** ** Names that cannot collide *)

Definition is_digit (c : ascii) : bool :=
  (48 <=? N_of_ascii c) && (N_of_ascii c <=? 57).

Lemma pretty_N_char_digit x : is_digit (pretty_N_char x) = true.
Proof. unfold pretty_N_char. by repeat case_match. Qed.

Lemma pretty_N_go_digits x : ∀ s,
  every is_digit s = true → every is_digit (pretty_N_go x s) = true.
Proof.
  induction (N.lt_wf_0 x) as [x _ IH]. intros s Hs.
  destruct (decide (x = 0)) as [->|Hx]; [by rewrite pretty_N_go_0|].
  rewrite pretty_N_go_step by lia. apply IH.
  - apply N.div_lt; lia.
  - simpl. by rewrite pretty_N_char_digit.
Qed.

Lemma pretty_N_digits (x : N) : every is_digit (pretty x) = true.
Proof.
  unfold pretty, pretty_N. case_decide; [done|]. by apply pretty_N_go_digits.
Qed.

(** Two strings of digits followed by an underscore agree only on equal
    digits and equal rests. *)
Lemma digits_underscore_inj a b r r' :
  every is_digit a = true → every is_digit b = true →
  a +:+ String "_" r = b +:+ String "_" r' → a = b ∧ r = r'.
Proof.
  revert b. induction a as [|c a IH]; intros [|c' b] Ha Hb H; simpl in *.
  - by injection H as ->.
  - injection H as <- _. by apply andb_true_iff in Hb as [? _].
  - injection H as -> _. by apply andb_true_iff in Ha as [? _].
  - injection H as -> H. apply andb_true_iff in Ha as [_ Ha], Hb as [_ Hb].
    destruct (IH b Ha Hb H) as [-> ->]. done.
Qed.

(** Session ids collide only within one millisecond and on the same six
    characters of the random draw; the base paths of batch runs collide
    only within one millisecond, those of sessions only within one
    millisecond and on the same four characters of the draw. *)
Theorem names_collide_only_in_one_millisecond (w w' : World) (rnd rnd' : string) :
  (createSessionId rnd w = createSessionId rnd' w' →
     now w = now w' ∧ Js.slice 2 8 rnd = Js.slice 2 8 rnd') ∧
  (win32 w = win32 w' → os_tmpdir w = os_tmpdir w' →
     (batch_base w = batch_base w' → now w = now w') ∧
     (session_base rnd w = session_base rnd' w' →
        now w = now w' ∧ Js.slice 2 6 rnd = Js.slice 2 6 rnd')).
Proof.
  split; [|intros Hw Ht; split].
  - unfold createSessionId. intros H. apply (inj (String.app "run_")) in H.
    apply digits_underscore_inj in H as [H ->]; auto using pretty_N_digits.
    by apply (inj pretty) in H.
  - unfold batch_base, tempDir, path_join. rewrite Hw, Ht. intros H.
    apply (inj (String.app _)) in H. apply (inj (String.app "temp_")) in H.
    by apply (inj pretty) in H.
  - unfold session_base, tempDir, path_join. rewrite Hw, Ht. intros H.
    apply (inj (String.app _)) in H. apply (inj (String.app "temp_")) in H.
    apply digits_underscore_inj in H as [H ->]; auto using pretty_N_digits.
    by apply (inj pretty) in H.
Qed.

Lemma names_collide_only_in_one_millisecond_witness :
  now demo_world = now (set_scratch None demo_world).
Proof.
  exact (proj1 (proj2 (names_collide_only_in_one_millisecond demo_world
           (set_scratch None demo_world) "" "") eq_refl eq_refl) eq_refl).
Defined.

(** ** The text a batch run reports *)

Definition starts_space (s : string) : bool :=
  match s with
  | EmptyString => false
  | String c _ => Js.is_space c
  end.

Lemma rev_app_app a b c : String.rev_app a (b +:+ c) = String.rev_app a b +:+ c.
Proof. revert b. induction a as [|x a IH]; intros b; simpl; [done|]. apply (IH (String x b)). Qed.

Lemma rev_app_rev_app a b c :
  String.rev_app (String.rev_app a b) c = String.rev_app b (a +:+ c).
Proof. revert b c. induction a as [|x a IH]; intros b c; simpl; [done|]. by rewrite IH. Qed.

Lemma string_rev_involutive s : String.rev (String.rev s) = s.
Proof.
  unfold String.rev. rewrite rev_app_rev_app.
  change (s +:+ "" = s). induction s as [|c s IH]; [done|].
  change (String c (s +:+ "") = String c s). by rewrite IH.
Qed.

Lemma rev_app_app_l a b c :
  String.rev_app (a +:+ b) c = String.rev_app b (String.rev_app a c).
Proof. revert c. induction a as [|x a IH]; intros c; [done|]. apply (IH (String x c)). Qed.

Lemma string_rev_app a b : String.rev (a +:+ b) = String.rev b +:+ String.rev a.
Proof.
  unfold String.rev. rewrite rev_app_app_l.
  apply (rev_app_app b "" (String.rev_app a "")).
Qed.

Lemma take_drop_while f s : s = Js.take_while f s +:+ Js.drop_while f s.
Proof.
  induction s as [|c s IH]; simpl; [done|].
  destruct (f c); [|done].
  change (String c s = String c (Js.take_while f s +:+ Js.drop_while f s)).
  by rewrite <- IH.
Qed.

Lemma drop_while_starts s : starts_space (Js.drop_while Js.is_space s) = false.
Proof.
  induction s as [|c s IH]; simpl; [done|].
  destruct (Js.is_space c) eqn:E; [done|]. simpl. done.
Qed.

Lemma starts_space_app a b : a ≠ "" → starts_space (a +:+ b) = starts_space a.
Proof. by destruct a. Qed.

(** [trim] leaves no white space at either end. *)
Lemma trim_ends s :
  starts_space (Js.trim s) = false ∧ starts_space (String.rev (Js.trim s)) = false.
Proof.
  unfold Js.trim. set (u := Js.drop_while Js.is_space s).
  set (v := Js.drop_while Js.is_space (String.rev u)). split.
  - destruct (String.rev v) as [|c r] eqn:E; [done|].
    assert (Hu : u = String.rev v +:+ String.rev (Js.take_while Js.is_space (String.rev u))).
    { rewrite <- string_rev_app. fold v. unfold v.
      rewrite <- take_drop_while. by rewrite string_rev_involutive. }
    pose proof (drop_while_starts s) as Hs. fold u in Hs.
    rewrite Hu, starts_space_app in Hs by (by rewrite E). by rewrite E in Hs.
  - rewrite string_rev_involutive. apply drop_while_starts.
Qed.

(** What a batch run reports when its child closes is never empty and
    never begins or ends with white space, and it is a success exactly
    when the exit code is 0 (a child killed by a signal has none). *)
Theorem reported_output_is_trimmed (code : option Z) (out err : string) :
  let r := exec_result code out err in
  output r ≠ "" ∧
  starts_space (output r) = false ∧
  starts_space (String.rev (output r)) = false ∧
  (success r = true ↔ code = Some 0%Z).
Proof.
  cbv zeta. unfold exec_result. cbn [output success].
  destruct (trim_ends (Js.or err out)) as [H1 H2].
  set (t := Js.trim (Js.or err out)) in *. clearbody t.
  unfold Js.or. destruct (decide (t = "")) as [->|Ht].
  - repeat split; try done; apply bool_decide_eq_true.
  - repeat split; try done; apply bool_decide_eq_true.
Qed.

(** ** Branches that are never taken, answers that are never given *)

Lemma supported_cases language :
  language ∈ getSupportedLanguages →
  language = "c" ∨ language = "cpp" ∨ language = "python" ∨ language = "java"
  ∨ language = "javascript" ∨ language = "php" ∨ language = "go".
Proof.
  unfold getSupportedLanguages. rewrite !elem_of_cons, elem_of_nil. tauto.
Qed.

Lemma replies_start_registered req sid proc cleanup w :
  replies (start_registered req sid proc cleanup w)
  = replies w ++ [(req, RepStart (StartSession sid))].
Proof.
  unfold start_registered, registerRunSession, resetTimer.
  cbn [sessions set_sessions set_runSessions]. by rewrite lookup_insert_eq.
Qed.

(** What the synchronous part of a session start answers. *)
Inductive start_answer (req : nat) (language rnd1 : string) (w : World)
    : list (nat * Reply) → Prop :=
  | SaNone : start_answer req language rnd1 w []
  | SaUnsupported :
      start_answer req language rnd1 w
        [(req, RepStart (StartError (not_supported language)))]
  | SaSession :
      start_answer req language rnd1 w
        [(req, RepStart (StartSession (createSessionId rnd1 w)))]
  | SaWrite file :
      start_answer req language rnd1 w
        [(req, RepStart (StartError (error_toString (enoent "open" file))))]
  | SaNoClass :
      start_answer req language rnd1 w
        [(req, RepStart (StartError
           "No public class found. Java requires a public class name to run."))].

Lemma start_script_answer req language rnd1 file code cmd args w :
  ∃ l, replies (start_failed req
                  (start_script req (createSessionId rnd1 w) file code cmd args w))
       = replies w ++ l ∧ start_answer req language rnd1 w l.
Proof.
  unfold start_script, bind, writeFileSync, lift, start_failed.
  destruct (scratch w) as [d|].
  - destruct (spawn cmd args _) as [proc x] eqn:E.
    rewrite replies_start_registered.
    assert (replies x = replies w) as -> by (by injection E as _ <-).
    eexists. split; [done|]. constructor.
  - eexists. split; [done|]. constructor.
Qed.

Lemma start_compile_answer req language rnd1 file code cmd k w :
  ∃ l, replies (start_failed req ((writeFileSync file code ;; lift (exec cmd k)) w))
       = replies w ++ l ∧ start_answer req language rnd1 w l.
Proof.
  unfold bind, writeFileSync, lift, start_failed.
  destruct (scratch w) as [d|].
  - exists []. split; [by rewrite app_nil_r|]. constructor.
  - eexists. split; [done|]. constructor.
Qed.

Lemma startRunSession_answer req language code rnd1 rnd2 w :
  ∃ l, replies (startRunSession req language code rnd1 rnd2 w) = replies w ++ l
       ∧ start_answer req language rnd1 w l.
Proof.
  unfold startRunSession.
  destruct (bool_decide (language ∈ getSupportedLanguages)) eqn:E; cbn [negb];
    [|eexists; split; [done|]; constructor].
  apply bool_decide_eq_true, supported_cases in E. cbv zeta.
  repeat (case_decide; [first [apply start_script_answer | apply start_compile_answer
                              | idtac]|]).
  - destruct (Js.match_public_class code).
    + apply start_compile_answer.
    + eexists; split; [done|]; constructor.
  - exfalso. destruct E as [?|[?|[?|[?|[?|[?|?]]]]]]; done.
Qed.

(** Every language [getSupportedLanguages] lists has a runner, so a
    batch run never takes its [No runner found] branch; the [default]
    case of the session switch is dead as well: a session start never
    answers [No runner found]. *)
Theorem no_runner_found_is_never_answered
    (req : nat) (language code rnd1 rnd2 : string) (w : World) :
  (language ∈ getSupportedLanguages → is_Some (runners language)) ∧
  ∃ l, replies (startRunSession req language code rnd1 rnd2 w) = replies w ++ l ∧
       (req, RepStart (StartError ("No runner found for language " +:+ quoted language))) ∉ l.
Proof.
  split.
  - intros H. apply supported_cases in H.
    unfold runners.
    destruct H as [->|[->|[->|[->|[->|[->| ->]]]]]];
      repeat (case_decide; [eauto|]); done.
  - destruct (startRunSession_answer req language code rnd1 rnd2 w) as (l & Hl & Ha).
    exists l. split; [done|]. intros Hq.
    destruct Ha; [by apply elem_of_nil in Hq|..];
      apply list_elem_of_singleton in Hq;
      first [discriminate Hq
            |injection Hq as Hq;
             cbn [String.app not_supported error_toString enoent] in Hq; discriminate Hq].
Qed.

(** ** A Java session from start to close *)





(** ** The Python interpreter *)

(** Outside Windows [getPythonCommand] answers [python3] without a probe.
    On Windows it answers one of [python], [python3] and [py]: a command
    that can be run whenever one of the three can, with no candidate
    before it in that order that could; [python] when none can. *)
Theorem getPythonCommand_is_the_first_that_runs (w : World) :
  let candidates := ["python"; "python3"; "py"] in
  (win32 w = false → getPythonCommand w = "python3") ∧
  (win32 w = true →
     ∃ i : nat,
       candidates !! i = Some (getPythonCommand w) ∧
       (∀ j cmd, (j < i)%nat → candidates !! j = Some cmd → cmd ∉ installed w) ∧
       ((∃ cmd, cmd ∈ candidates ∧ cmd ∈ installed w) → getPythonCommand w ∈ installed w) ∧
       ((∀ cmd, cmd ∈ candidates → cmd ∉ installed w) → i = 0%nat)).
Proof.
  cbv zeta. unfold getPythonCommand. split; intros ->; [done|].
  cbn [List.find].
  destruct (bool_decide ("python" ∈ installed w)) eqn:E1.
  { apply bool_decide_eq_true in E1. exists 0%nat.
    split; [done|]. split; [intros; lia|]. split; [done|done]. }
  apply bool_decide_eq_false in E1.
  destruct (bool_decide ("python3" ∈ installed w)) eqn:E2.
  { apply bool_decide_eq_true in E2. exists 1%nat.
    split; [done|]. split; [|split; [done|]].
    - intros [|j] cmd Hj; [|lia]. by intros [= <-].
    - intros H. exfalso. apply (H "python3"); [|done]. set_solver. }
  apply bool_decide_eq_false in E2.
  destruct (bool_decide ("py" ∈ installed w)) eqn:E3.
  { apply bool_decide_eq_true in E3. exists 2%nat.
    split; [done|]. split; [|split; [done|]].
    - intros [|[|j]] cmd Hj; [| |lia]; by intros [= <-].
    - intros H. exfalso. apply (H "py"); [|done]. set_solver. }
  apply bool_decide_eq_false in E3.
  exists 0%nat. split; [done|]. split; [intros; lia|]. split; [|done].
  intros (cmd & Hc & Hi). exfalso.
  rewrite !elem_of_cons, elem_of_nil in Hc.
  destruct Hc as [->|[->|[->|[]]]]; done.
Qed.

Lemma getPythonCommand_is_the_first_that_runs_witness :
  getPythonCommand demo_world = "python3".
Proof. exact (proj1 (getPythonCommand_is_the_first_that_runs demo_world) eq_refl). Defined.

(** ** The file tree of the explorer *)

(** Every item of a tree, at any depth, satisfies [P]. *)
Fixpoint all_items (P : TreeItem → bool) (t : TreeItem) : bool :=
  P t && match t with
         | TreeFile _ _ _ => true
         | TreeFolder _ _ _ children => forallb (all_items P) children
         end.

(** A directory that cannot be read, reached through directories the
    handler does not skip. *)
Inductive unreadable : Outcome (list Dirent) → Prop :=
  | unreadable_here e : unreadable (Raise e)
  | unreadable_below items name content :
      DDir name content ∈ items → skipped name = false →
      unreadable content → unreadable (Ret items).

Lemma Dirent_nested_ind (P : Dirent → Prop) :
  (∀ name, P (DFile name)) →
  (∀ name e, P (DDir name (Raise e))) →
  (∀ name items, Forall P items → P (DDir name (Ret items))) →
  ∀ item, P item.
Proof.
  intros Hf He Hd. fix IH 1. intros [name|name [items|e]]; [apply Hf| |apply He].
  apply Hd. induction items as [|item rest IHr]; constructor; [apply IH|apply IHr].
Qed.

Section GetFilesProps.
Variables (join : string → string → string) (extname : string → string).

Definition visible (t : TreeItem) : bool := negb (skipped (t_name t)).

Lemma readDir_loop_names f items tree :
  (∀ item t, item ∈ items → f item = Ret t → t_name t = d_name item) →
  readDir_loop f items = Ret tree →
  t_name <$> tree = filter (λ name, skipped name = false) (d_name <$> items).
Proof.
  revert tree. induction items as [|item rest IH]; intros tree Hf H; simpl in H.
  - by injection H as <-.
  - rewrite fmap_cons, filter_cons.
    destruct (skipped (d_name item)) eqn:Es.
    + rewrite decide_False by done. apply IH; [|done].
      intros ???. apply Hf. by right.
    + rewrite decide_True by done.
      destruct (f item) as [t|] eqn:Et; [|done].
      destruct (readDir_loop f rest) as [ts|] eqn:Er; [|done].
      injection H as <-. rewrite fmap_cons. f_equal.
      * apply (Hf item); [by left|done].
      * apply IH; [|done]. intros ???. apply Hf. by right.
Qed.

Lemma readDir_loop_all (P : TreeItem → bool) f items tree :
  (∀ item t, item ∈ items → skipped (d_name item) = false → f item = Ret t →
             all_items P t = true) →
  readDir_loop f items = Ret tree → forallb (all_items P) tree = true.
Proof.
  revert tree. induction items as [|item rest IH]; intros tree Hf H; simpl in H.
  - by injection H as <-.
  - destruct (skipped (d_name item)) eqn:Es.
    + apply IH; [|done]. intros ????. apply Hf; [by right|done].
    + destruct (f item) as [t|] eqn:Et; [|done].
      destruct (readDir_loop f rest) as [ts|] eqn:Er; [|done].
      injection H as <-. simpl. apply andb_true_iff. split.
      * apply (Hf item); [by left|done..].
      * apply IH; [|done]. intros ????. apply Hf; [by right|done].
Qed.

Lemma readDir_item_name dir item t :
  readDir_item join extname dir item = Ret t → t_name t = d_name item.
Proof.
  destruct item as [name|name [items|e]]; simpl; [by intros [= <-]| |done].
  destruct (readDir_loop _ items); [by intros [= <-]|done].
Qed.

Lemma readDir_item_visible item : ∀ dir t,
  skipped (d_name item) = false →
  readDir_item join extname dir item = Ret t → all_items visible t = true.
Proof.
  induction item as [name|name e|name items IH] using Dirent_nested_ind;
    intros dir t Hs H; simpl in H.
  - injection H as <-. simpl in *. unfold visible. simpl. by rewrite Hs.
  - done.
  - destruct (readDir_loop _ items) as [children|] eqn:El; [|done].
    injection H as <-. cbn [all_items]. unfold visible at 1. cbn [t_name].
    simpl in Hs. rewrite Hs. cbn [negb andb].
    eapply readDir_loop_all; [|exact El].
    intros item t Hi Hsk Ht. rewrite Forall_forall in IH. by eapply IH.
Qed.

(** What [readDir] skips is never read: the answer does not depend on the
    entries whose name starts with a dot or is [node_modules]. *)
Lemma readDir_loop_filter f items :
  readDir_loop f items
  = readDir_loop f (filter (λ item, skipped (d_name item) = false) items).
Proof.
  induction items as [|item rest IH]; [done|]. rewrite filter_cons. simpl.
  destruct (skipped (d_name item)) eqn:Es.
  - by rewrite decide_False by done.
  - rewrite decide_True by done. simpl. by rewrite Es, IH.
Qed.

Lemma readDir_loop_error f items :
  (∃ e, readDir_loop f items = Raise e)
  ↔ ∃ item e, item ∈ items ∧ skipped (d_name item) = false ∧ f item = Raise e.
Proof.
  induction items as [|item rest IH]; simpl.
  - split; [by intros [e ?]|]. intros (item & e & H & _). by apply elem_of_nil in H.
  - destruct (skipped (d_name item)) eqn:Es.
    + rewrite IH. split; intros (i & e & Hi & Hs & Hf).
      * exists i, e. split; [by right|done].
      * apply elem_of_cons in Hi as [->|Hi]; [congruence|eauto].
    + destruct (f item) as [t|e0] eqn:Ef.
      * destruct (readDir_loop f rest) as [ts|e1] eqn:Er.
        -- split; [by intros [e ?]|]. intros (i & e & Hi & Hs & Hf).
           apply elem_of_cons in Hi as [->|Hi]; [congruence|].
           destruct (proj2 IH) as [e' ?]; [eauto|done].
        -- split; [|eauto]. intros _.
           destruct (proj1 IH) as (i & e & Hi & Hs & Hf); [eauto|].
           exists i, e. split; [by right|done].
      * split; [|eauto]. intros _. exists item, e0. split; [by left|done].
Qed.

Lemma readDir_item_error item : ∀ dir,
  (∃ e, readDir_item join extname dir item = Raise e)
  ↔ ∃ name content, item = DDir name content ∧ unreadable content.
Proof.
  induction item as [name|name e|name items IH] using Dirent_nested_ind; intros dir.
  - split; [by intros [e ?]|]. by intros (? & ? & ? & _).
  - split; [|by simpl; eauto]. intros _. exists name, (Raise e). split; [done|constructor].
  - rewrite Forall_forall in IH. cbn [readDir_item]. cbv zeta.
    set (f := readDir_item join extname (join dir name)).
    assert (Hl : (∃ e, readDir_loop f items = Raise e) ↔ unreadable (Ret items)).
    { rewrite readDir_loop_error. split.
      - intros (i & e & Hi & Hs & Hf).
        destruct (proj1 (IH i Hi (join dir name))) as (n & c & -> & Hu); [eauto|].
        by apply (unreadable_below items n c).
      - intros Hu. inversion Hu as [|? n c Hi Hs Hc]; subst.
        exists (DDir n c). destruct (proj2 (IH _ Hi (join dir name))) as [e He]; [eauto|].
        eauto. }
    split.
    + intros [e He]. exists name, (Ret items). split; [done|]. apply Hl.
      destruct (readDir_loop f items); [done|eauto].
    + intros (n & c & [= <- <-] & Hu). apply Hl in Hu as [e ->]. eauto.
Qed.

(** When [get-files] answers with a tree, the names at its top level are
    the names of the entries of the folder that are not skipped, in the
    order of the directory, and no item of the tree, at any depth, has a
    name that starts with a dot or is [node_modules]. *)
Theorem get_files_shows_what_is_not_skipped
    (folderPath : string) (items : list Dirent) (tree : list TreeItem) :
  get_files join extname folderPath (Ret items) = FilesTree tree →
  t_name <$> tree = filter (λ name, skipped name = false) (d_name <$> items) ∧
  forallb (all_items visible) tree = true.
Proof.
  unfold get_files, readDir.
  destruct (readDir_loop _ items) as [tr|] eqn:El; [|done]. intros [= <-]. split.
  - eapply readDir_loop_names; [|exact El]. intros ?? _. apply readDir_item_name.
  - eapply readDir_loop_all; [|exact El]. intros ?? _. apply readDir_item_visible.
Qed.

(** [get-files] answers with an error exactly when the folder, or a
    directory reached from it through directories that are not skipped,
    cannot be read: one such directory anywhere loses the whole tree,
    while what lies below a skipped directory is never read. *)
Theorem get_files_fails_iff_unreadable
    (folderPath : string) (content : Outcome (list Dirent)) :
  ((∃ e, get_files join extname folderPath content = FilesError e) ↔ unreadable content) ∧
  ∀ items,
    get_files join extname folderPath (Ret items)
    = get_files join extname folderPath
        (Ret (filter (λ item, skipped (d_name item) = false) items)).
Proof.
  split.
  - unfold get_files, readDir. destruct content as [items|e].
    + transitivity (∃ e, readDir_loop (readDir_item join extname folderPath) items = Raise e).
      { destruct (readDir_loop _ items); split; intros [e' ?]; first [done|eauto]. }
      rewrite readDir_loop_error. split.
      * intros (i & e & Hi & Hs & Hf).
        destruct (proj1 (readDir_item_error i folderPath)) as (n & c & -> & Hu); [eauto|].
        by apply (unreadable_below items n c).
      * intros Hu. inversion Hu as [|? n c Hi Hs Hc]; subst.
        exists (DDir n c). destruct (proj2 (readDir_item_error (DDir n c) folderPath)) as [e He];
          eauto.
    + split; [constructor|eauto].
  - intros items. unfold get_files, readDir. by rewrite readDir_loop_filter.
Qed.

End GetFilesProps.

Lemma get_files_shows_what_is_not_skipped_witness :
  t_name <$> [TreeFile "a.py" "/p/a.py" ".py"] = ["a.py"].
Proof.
  exact (proj1 (get_files_shows_what_is_not_skipped
    (λ a b, a +:+ "/" +:+ b) (λ _, ".py") "/p"
    [DFile ".git"; DFile "a.py"; DDir "node_modules" (Raise "EACCES")]
    [TreeFile "a.py" "/p/a.py" ".py"] eq_refl)).
Defined.
